(** * RayCastingDemo: the ray-casting core of [Character.h]

    A shallow embedding of [Character] (rotation, translation, the
    per-column grid traversal of [calcRays], [calcNewDistance] and
    [checkForHit]) and the properties its specification states, followed
    by the functions of [Main.cpp] around it: the input loop of [main],
    [readWorldFile], [generateWalls], the ray casting of [draw2DWindow]
    and [draw3DWindow].

    Number model.  [double] and [float] values are modelled by the real
    numbers [R]: arithmetic is exact, and rounding error is outside the
    model.  There are no infinities and no NaN in [R].  Where the code
    would go on with one, the model has no result ([None]): when a value
    of a column's ray setup leaves the range of [double] ([inRange]), when
    the camera offset is [0/0] ([screenWidth = 0]), and when the height of
    a drawn column is a quotient by a distance of zero.  The quotient
    [32.0f / std::abs(rayDir)] at a zero ray component is an infinity that
    the code discards; it costs no result.  [int] values are modelled by
    [Z]; a conversion from a floating value to [int] truncates toward zero
    and has no result when the truncated value does not fit the 32-bit
    range, which is undefined behaviour in the source.  Indexing a
    [std::vector] outside its bounds is undefined as well and has no
    result either, and neither has an exception that nothing catches
    ([std::stoi] on a character that is no digit).  The loop
    [while (!hit)] has no bound in the source; here it takes a number of
    iterations it may use and has no result when they run out. *)

From Stdlib Require Import Reals Lra Lia ZArith List Bool Psatz.
From Stdlib Require Import Ascii.
Import ListNotations.
Open Scope R_scope.

(** ** Floating comparisons and conversions *)

Definition Rltb (a b : R) : bool := if Rlt_dec a b then true else false.
Definition Rleb (a b : R) : bool := if Rle_dec a b then true else false.
Definition Reqb (a b : R) : bool := if Req_dec_T a b then true else false.

Definition INT_MIN : Z := (-2147483648)%Z.
Definition INT_MAX : Z := 2147483647%Z.

(** Truncation toward zero, the value of a floating-to-integer conversion. *)
Definition truncate (r : R) : Z := if Rleb 0 r then Zfloor r else Zceil r.

(** [int(r)], [int x = r]: undefined when the value does not fit an [int]. *)
Definition to_int (r : R) : option Z :=
  let z := truncate r in
  if ((INT_MIN <=? z) && (z <=? INT_MAX))%Z then Some z else None.

(** [std::floor]. *)
Definition floor (r : R) : R := IZR (Zfloor r).

(** [std::round]: to the nearest integer, halfway cases away from zero. *)
Definition round (r : R) : R :=
  if Rleb 0 r then IZR (Zfloor (r + / 2)) else IZR (Zceil (r - / 2)).

(** Sequencing of computations that may have no result. *)
Definition bind {A B : Type} (m : option A) (k : A -> option B) : option B :=
  match m with
  | Some a => k a
  | None => None
  end.

Notation "'let?' x := m 'in' k" := (bind m (fun x => k))
  (at level 10, x name, m at level 200, k at level 200).
Notation "'let?' ' p := m 'in' k" := (bind m (fun p => k))
  (at level 10, p pattern, m at level 200, k at level 200).

(** ** Constants of [Character.h] *)

Definition MOVEMENT_SPEED : R := 2.
Definition BLOCK_WIDTH : R := 32.

Inductive movementDirection : Set := UP | DOWN | LEFT | RIGHT.

Definition movementDirection_eqb (a b : movementDirection) : bool :=
  match a, b with
  | UP, UP | DOWN, DOWN | LEFT, LEFT | RIGHT, RIGHT => true
  | _, _ => false
  end.

(** ** Data *)

Inductive Alignment : Set := horizontal | vertical | unknown.

Definition Alignment_eqb (a b : Alignment) : bool :=
  match a, b with
  | horizontal, horizontal | vertical, vertical | unknown, unknown => true
  | _, _ => false
  end.

(** [struct hitDetails], with its default member initialisers. *)
Record hitDetails : Type := mkHit {
  distance : R;
  color : Z;
  alignment : Alignment
}.

Definition defaultHit : hitDetails := mkHit 0 0 unknown.

Definition set_color (h : hitDetails) (c : Z) : hitDetails :=
  mkHit (distance h) c (alignment h).
Definition set_alignment (h : hitDetails) (a : Alignment) : hitDetails :=
  mkHit (distance h) (color h) a.
Definition set_distance (h : hitDetails) (d : R) : hitDetails :=
  mkHit d (color h) (alignment h).

(** [sf::Vector2f]; an [sf::Vertex] is used for its position only. *)
Record Vector2f : Type := mkVec { vx : R; vy : R }.

Definition vadd (v : Vector2f) (dx dy : R) : Vector2f :=
  mkVec (vx v + dx) (vy v + dy).

(** The members of [class Character]; [charObject] is the position of the
    [sf::CircleShape]. *)
Record Character : Type := mkCharacter {
  characterRadius : R;
  directionRay : Vector2f * Vector2f;
  cameraPlane : Vector2f * Vector2f;
  charObject : Vector2f;
  dirX : R;
  dirY : R;
  cameraPlaneX : R;
  cameraPlaneY : R;
  center : Vector2f;
  hits : list hitDetails;
  rayCasts : list Vector2f
}.

(** [worldMap]: rows of material codes, indexed [worldMap[y][x]]. *)
Definition Grid : Type := list (list Z).

Definition cell (worldMap : Grid) (y x : Z) : option Z :=
  if (y <? 0)%Z then None
  else let? row := nth_error worldMap (Z.to_nat y) in
       if (x <? 0)%Z then None else nth_error row (Z.to_nat x).

(** ** Viewpoint operations *)

Definition getCharacterCenter (c : Character) : Vector2f :=
  mkVec (vx (charObject c) + characterRadius c)
        (vy (charObject c) + characterRadius c).

(** The constructor: the circle starts at the origin. *)
Definition newCharacter (size dirX dirY cameraPlaneX cameraPlaneY : R) : Character :=
  let charObject := mkVec 0 0 in
  let centre := mkVec (0 + size) (0 + size) in
  let directionRayEnd := mkVec (vx centre + dirX) (vy centre + dirY) in
  mkCharacter size
    (centre, directionRayEnd)
    (mkVec (vx directionRayEnd - cameraPlaneX) (vy directionRayEnd - cameraPlaneY),
     mkVec (vx directionRayEnd + cameraPlaneX) (vy directionRayEnd + cameraPlaneY))
    charObject dirX dirY cameraPlaneX cameraPlaneY centre [] [].

Definition move (c : Character) (xDistance yDistance : R) : Character :=
  mkCharacter (characterRadius c) (directionRay c) (cameraPlane c)
    (vadd (charObject c) xDistance yDistance)
    (dirX c) (dirY c) (cameraPlaneX c) (cameraPlaneY c)
    (center c) (hits c) (rayCasts c).

Definition set_center (c : Character) (v : Vector2f) : Character :=
  mkCharacter (characterRadius c) (directionRay c) (cameraPlane c)
    (charObject c) (dirX c) (dirY c) (cameraPlaneX c) (cameraPlaneY c)
    v (hits c) (rayCasts c).

Definition rotate (c : Character) (dir : movementDirection) : Character :=
  let oldDirX := dirX c in
  let spinDir := if movementDirection_eqb dir LEFT then -1 else 1 in
  let dirX' := dirX c * cos (spinDir * 0.01) - dirY c * sin (spinDir * 0.01) in
  let dirY' := oldDirX * sin (spinDir * 0.01) + dirY c * cos (spinDir * 0.01) in
  let directionRayEnd := vadd (getCharacterCenter c) dirX' dirY' in
  let oldPlaneX := cameraPlaneX c in
  let cameraPlaneX' :=
    cameraPlaneX c * cos (spinDir * 0.01) - cameraPlaneY c * sin (spinDir * 0.01) in
  let cameraPlaneY' :=
    oldPlaneX * sin (spinDir * 0.01) + cameraPlaneY c * cos (spinDir * 0.01) in
  let startPlanePosition := directionRayEnd in
  let endPlanePosition := vadd startPlanePosition cameraPlaneX' cameraPlaneY' in
  mkCharacter (characterRadius c)
    (getCharacterCenter c, directionRayEnd)
    (startPlanePosition, endPlanePosition)
    (charObject c) dirX' dirY' cameraPlaneX' cameraPlaneY'
    (center c) (hits c) (rayCasts c).

Definition updateMovement (c : Character) (direction : movementDirection) : Character :=
  let '(xAdjustment, yAdjustment, c1) :=
    match direction with
    | LEFT =>
        let c1 := move c (- MOVEMENT_SPEED) 0 in
        (0 - MOVEMENT_SPEED, 0,
         set_center c1 (mkVec (vx (center c1) - MOVEMENT_SPEED) (vy (center c1))))
    | RIGHT =>
        let c1 := set_center c (mkVec (vx (center c) + MOVEMENT_SPEED) (vy (center c))) in
        (0 + MOVEMENT_SPEED, 0, move c1 MOVEMENT_SPEED 0)
    | UP =>
        let c1 := set_center c (mkVec (vx (center c)) (vy (center c) - MOVEMENT_SPEED)) in
        (0, 0 - MOVEMENT_SPEED, move c1 0 (- MOVEMENT_SPEED))
    | DOWN =>
        let c1 := set_center c (mkVec (vx (center c)) (vy (center c) + MOVEMENT_SPEED)) in
        (0, 0 + MOVEMENT_SPEED, move c1 0 MOVEMENT_SPEED)
    end in
  mkCharacter (characterRadius c1)
    (vadd (fst (directionRay c1)) xAdjustment yAdjustment,
     vadd (snd (directionRay c1)) xAdjustment yAdjustment)
    (vadd (fst (cameraPlane c1)) xAdjustment yAdjustment,
     vadd (snd (cameraPlane c1)) xAdjustment yAdjustment)
    (charObject c1) (dirX c1) (dirY c1) (cameraPlaneX c1) (cameraPlaneY c1)
    (center c1) (hits c1) (rayCasts c1).

(** Magnitude and dot product of the two direction vectors. *)
Definition facingMagnitude (c : Character) : R :=
  sqrt (dirX c * dirX c + dirY c * dirY c).
Definition planeMagnitude (c : Character) : R :=
  sqrt (cameraPlaneX c * cameraPlaneX c + cameraPlaneY c * cameraPlaneY c).
Definition facingDotPlane (c : Character) : R :=
  dirX c * cameraPlaneX c + dirY c * cameraPlaneY c.

(** A sequence of [rotate] calls, first call first. *)
Definition rotateAll (c : Character) (dirs : list movementDirection) : Character :=
  fold_left rotate dirs c.

(** ** Distance to the next grid line *)

(** [vertex % (int)BLOCK_WIDTH] is the remainder of the truncating
    division, [Z.rem]. *)
Definition calcNewDistance (vertex : Z) (rayDir deltaDist : R) : R :=
  let distance := IZR (Z.rem vertex 32) in
  let distance :=
    if Rltb rayDir 0 && Reqb distance 0 then BLOCK_WIDTH
    else if Rleb 0 rayDir then
      let distance := BLOCK_WIDTH - distance in
      if Reqb distance 0 then BLOCK_WIDTH else distance
    else distance in
  (distance / BLOCK_WIDTH) * deltaDist.

(** ** Hit classification *)

Definition nonzero (v : Z) : bool := negb (v =? 0)%Z.

(** [worldMap[y1][x1] != 0 || worldMap[y2][x2] != 0], left to right. *)
Definition eitherNonzero (worldMap : Grid) (y1 x1 y2 x2 : Z) : option bool :=
  let? a := cell worldMap y1 x1 in
  if nonzero a then Some true
  else let? b := cell worldMap y2 x2 in Some (nonzero b).

Definition checkForHit (xIndex yIndex : R) (hitDetail : hitDetails)
    (worldMap : Grid) : option (bool * hitDetails) :=
  if Reqb (floor xIndex) xIndex && Reqb (floor yIndex) yIndex then
    let? x := to_int xIndex in
    let? y := to_int yIndex in
    let? c0 := cell worldMap y x in
    if nonzero c0 then Some (true, set_color hitDetail c0)
    else
      let? c1 := cell worldMap (y - 1) (x - 1) in
      if nonzero c1 then Some (true, set_color hitDetail c1)
      else
        let? c2 := cell worldMap y (x - 1) in
        if nonzero c2 then Some (true, set_color hitDetail c2)
        else
          let? c3 := cell worldMap (y - 1) x in
          if nonzero c3 then Some (true, set_color hitDetail c3)
          else Some (false, hitDetail)
  else if Reqb (floor xIndex) xIndex then
    let? x := to_int xIndex in
    let? y := to_int (floor yIndex) in
    let? cond := eitherNonzero worldMap y x y (x - 1) in
    if cond then
      let hitDetail := set_alignment hitDetail vertical in
      let? c0 := cell worldMap y x in
      if nonzero c0 then Some (true, set_color hitDetail c0)
      else let? c1 := cell worldMap y (x - 1) in Some (true, set_color hitDetail c1)
    else Some (false, hitDetail)
  else if Reqb (floor yIndex) yIndex then
    let? y := to_int yIndex in
    let? x := to_int (floor xIndex) in
    let? cond := eitherNonzero worldMap y x (y - 1) x in
    if cond then
      let hitDetail := set_alignment hitDetail horizontal in
      let? c0 := cell worldMap y x in
      if nonzero c0 then Some (true, set_color hitDetail c0)
      else let? c1 := cell worldMap (y - 1) x in Some (true, set_color hitDetail c1)
    else Some (false, hitDetail)
  else Some (false, hitDetail).

(** ** The ray of one column *)

Definition SENTINEL : R := 1e30.

Definition hypoLength (rayDirX rayDirY : R) : R :=
  sqrt (rayDirX * rayDirX + rayDirY * rayDirY).

(** [xMultiplier], [yMultiplier]: evaluated before the test for a zero
    component.  At a zero component the binary64 quotient is an infinity,
    which is no error, and the step distance below does not use it; in [R]
    the quotient by zero is an unspecified number that is not used
    either. *)
Definition multiplier (rayDir : R) : R := 32 / Rabs rayDir.

(** The step distance of one axis, with its sign applied. *)
Definition stepDistance (rayDir hypoLength : R) : R :=
  let multiplier := multiplier rayDir in
  let deltaDist := if Reqb rayDir 0 then SENTINEL else multiplier * hypoLength in
  if Rltb rayDir 0 then deltaDist * -1 else deltaDist.

Definition deltaDistX (rayDirX rayDirY : R) : R :=
  stepDistance rayDirX (hypoLength rayDirX rayDirY).
Definition deltaDistY (rayDirX rayDirY : R) : R :=
  stepDistance rayDirY (hypoLength rayDirX rayDirY).

(** The range of [double].  A real number stands for the [double] the
    code computes as long as it is zero or its magnitude lies between
    [DBL_MIN], the smallest positive normal value, and [DBL_MAX], the
    largest finite one: above [DBL_MAX] the binary64 value is an infinity,
    below [DBL_MIN] it is subnormal or zero.  A factor of two is left to
    spare at either end, which the rounding of the few operations of a
    ray setup cannot use up. *)
Definition DBL_MAX : R := 1.7976931348623157e308.
Definition DBL_MIN : R := 2.2250738585072014e-308.

Definition normal (x : R) : bool :=
  Reqb x 0 || (Rleb (2 * DBL_MIN) (Rabs x) && Rleb (2 * Rabs x) DBL_MAX).

(** The quotient and the product of one step distance stay in range.  For
    a zero component nothing is asked: the quotient is the infinity of a
    division by zero, discarded for the sentinel. *)
Definition stepInRange (rayDir hypoLength : R) : bool :=
  Reqb rayDir 0
  || (normal (multiplier rayDir) && normal (multiplier rayDir * hypoLength)).

(** The values computed for a column before its loop stay in range: the
    two ray components, the sum of squares under the square root, and
    both step distances.  The side distances, the adjustments and the
    recomputed distances of the loop are then in range as well, each
    being a fraction of a step distance, whose magnitude is at least 32.
    Outside this range the code computes with an infinity or with a step
    distance that has underflowed to zero: the adjustment of an iteration
    is then a NaN that reaches the conversion to [int], or the traversal
    follows another ray than the one the real numbers describe. *)
Definition inRange (rayDirX rayDirY : R) : bool :=
  normal rayDirX && normal rayDirY
  && normal (rayDirX * rayDirX + rayDirY * rayDirY)
  && stepInRange rayDirX (hypoLength rayDirX rayDirY)
  && stepInRange rayDirY (hypoLength rayDirX rayDirY).

(** The initial side distance of one axis; [centre] is [int(center.x)]
    or [int(center.y)]. *)
Definition initialSideDist (centre : Z) (rayDir deltaDist : R) : R :=
  if Rltb rayDir 0 then (IZR (Z.rem centre 32) / 32) * deltaDist
  else ((32 - IZR (Z.rem centre 32)) / 32) * deltaDist.

Record Ray : Type := mkRay {
  rayDirX : R;
  rayDirY : R;
  rayDeltaX : R;
  rayDeltaY : R
}.

(** The variables the traversal loop updates. *)
Record Traversal : Type := mkTraversal {
  mapX : Z;
  mapY : Z;
  sideDistX : R;
  sideDistY : R;
  temp : hitDetails
}.

(** [map += std::round(abs((adjustmentDistance / deltaDist) * 32) * signOperator)]. *)
Definition advance (map : Z) (adjustmentDistance deltaDist : R) : option Z :=
  let adjustment := (adjustmentDistance / deltaDist) * 32 in
  let signOperator := if Rltb 0 deltaDist then 1 else -1 in
  let adjustment := Rabs adjustment * signOperator in
  to_int (IZR map + round adjustment).

(** One iteration of [while (!hit)] for column [i], with the results
    [hits] of the columns before it. *)
Definition loopBody (worldMap : Grid) (i : Z) (hits : list hitDetails)
    (r : Ray) (t : Traversal) : option (bool * Traversal) :=
  let adjustmentDistance :=
    if Rleb (Rabs (sideDistX t)) (Rabs (sideDistY t))
    then sideDistX t else sideDistY t in
  let? mapX' := advance (mapX t) adjustmentDistance (rayDeltaX r) in
  let? mapY' := advance (mapY t) adjustmentDistance (rayDeltaY r) in
  let sideDistX' := calcNewDistance mapX' (rayDirX r) (rayDeltaX r) in
  let sideDistY' := calcNewDistance mapY' (rayDirY r) (rayDeltaY r) in
  let xIndex := IZR mapX' / 32 in
  let yIndex := IZR mapY' / 32 in
  let? '(hit, temp') := checkForHit xIndex yIndex (temp t) worldMap in
  let? temp'' :=
    (if negb (i =? 0)%Z && hit && Alignment_eqb (alignment temp') unknown
     then let? prev := nth_error hits (Z.to_nat (i - 1)) in
          Some (set_alignment temp' (alignment prev))
     else Some temp') in
  Some (hit, mkTraversal mapX' mapY' sideDistX' sideDistY' temp'').

(** The loop, bounded by [fuel] iterations: no result when the fuel runs
    out before a hit. *)
Fixpoint whileNotHit (fuel : nat) (worldMap : Grid) (i : Z)
    (hits : list hitDetails) (r : Ray) (t : Traversal) : option Traversal :=
  match fuel with
  | O => None
  | S fuel' =>
      let? '(hit, t') := loopBody worldMap i hits r t in
      if hit then Some t' else whileNotHit fuel' worldMap i hits r t'
  end.

Definition cameraXOf (i screenWidth : Z) : R :=
  2 * IZR i / IZR screenWidth - 1.

Definition rayOf (c : Character) (cameraX : R) : Ray :=
  let rayDirX := dirX c + cameraPlaneX c * cameraX in
  let rayDirY := dirY c + cameraPlaneY c * cameraX in
  mkRay rayDirX rayDirY (deltaDistX rayDirX rayDirY) (deltaDistY rayDirX rayDirY).

Definition euclid (startX startY endX endY : R) : R :=
  sqrt ((startX - endX) * (startX - endX) + (startY - endY) * (startY - endY)).

(** The body of the column loop of [calcRays]: the struck position pushed
    on [rayCasts] and the result pushed on [hits].  With [screenWidth = 0]
    the camera offset is [0/0], a NaN that reaches the conversions to
    [int]: there is no result.  There is none either when the ray of the
    column is not [inRange]. *)
Definition castColumn (fuel : nat) (c : Character) (screenWidth : Z)
    (worldMap : Grid) (i : Z) (hits : list hitDetails)
    : option (Vector2f * hitDetails) :=
  if (screenWidth =? 0)%Z then None
  else
    let? mapX0 := to_int (vx (center c)) in
    let? mapY0 := to_int (vy (center c)) in
    let r := rayOf c (cameraXOf i screenWidth) in
    if inRange (rayDirX r) (rayDirY r) then
      let sideDistX0 := initialSideDist mapX0 (rayDirX r) (rayDeltaX r) in
      let sideDistY0 := initialSideDist mapY0 (rayDirY r) (rayDeltaY r) in
      let? t := whileNotHit fuel worldMap i hits r
                  (mkTraversal mapX0 mapY0 sideDistX0 sideDistY0 defaultHit) in
      let distance :=
        euclid (vx (center c)) (vy (center c)) (IZR (mapX t)) (IZR (mapY t)) in
      Some (mkVec (IZR (mapX t)) (IZR (mapY t)), set_distance (temp t) distance)
    else None.

(** The column indices [0, 1, ..., screenWidth]. *)
Definition columns (screenWidth : Z) : list Z :=
  map Z.of_nat (seq 0 (Z.to_nat (screenWidth + 1))).

(** The ray of column [i] is in range, and so is the ray of every column
    of a pass. *)
Definition columnInRange (c : Character) (screenWidth i : Z) : bool :=
  let r := rayOf c (cameraXOf i screenWidth) in
  inRange (rayDirX r) (rayDirY r).

Definition raysInRange (c : Character) (screenWidth : Z) : bool :=
  forallb (columnInRange c screenWidth) (columns screenWidth).

Definition pushColumn (fuel : nat) (c : Character) (screenWidth : Z)
    (worldMap : Grid) (acc : option (list Vector2f * list hitDetails)) (i : Z)
    : option (list Vector2f * list hitDetails) :=
  let? '(rayCasts, hits) := acc in
  let? '(p, h) := castColumn fuel c screenWidth worldMap i hits in
  Some (rayCasts ++ [p], hits ++ [h]).

(** [calcRays]: [hits] is cleared, then every column is cast in turn.  The
    result is the returned [rayCasts] and the final [hits]. *)
Definition calcRays (fuel : nat) (c : Character) (screenWidth : Z)
    (worldMap : Grid) : option (list Vector2f * list hitDetails) :=
  fold_left (pushColumn fuel c screenWidth worldMap) (columns screenWidth)
    (Some ([], [])).

(** ** The hit classification in the specification's words *)

Definition onGridLine (index : R) : bool := Reqb (floor index) index.

(** The cells [(y, x)] of a priority list are consulted in order and the
    first nonzero material is reported; [Some None] when every cell is
    empty, no result when a consulted cell is outside the grid. *)
Fixpoint firstNonzero (worldMap : Grid) (cells : list (Z * Z))
    : option (option Z) :=
  match cells with
  | [] => Some None
  | (y, x) :: rest =>
      let? v := cell worldMap y x in
      if nonzero v then Some (Some v) else firstNonzero worldMap rest
  end.

Definition report (found : option Z) (onHit unchanged : hitDetails)
    : bool * hitDetails :=
  match found with
  | Some material => (true, set_color onHit material)
  | None => (false, unchanged)
  end.

Definition classifyHit (xIndex yIndex : R) (hitDetail : hitDetails)
    (worldMap : Grid) : option (bool * hitDetails) :=
  if onGridLine xIndex && onGridLine yIndex then
    let? x := to_int xIndex in
    let? y := to_int yIndex in
    let? found := firstNonzero worldMap
                    [(y, x); (y - 1, x - 1); (y, x - 1); (y - 1, x)]%Z in
    Some (report found hitDetail hitDetail)
  else if onGridLine xIndex then
    let? x := to_int xIndex in
    let? y := to_int (floor yIndex) in
    let? found := firstNonzero worldMap [(y, x); (y, x - 1)]%Z in
    Some (report found (set_alignment hitDetail vertical) hitDetail)
  else if onGridLine yIndex then
    let? y := to_int yIndex in
    let? x := to_int (floor xIndex) in
    let? found := firstNonzero worldMap [(y, x); (y - 1, x)]%Z in
    Some (report found (set_alignment hitDetail horizontal) hitDetail)
  else Some (false, hitDetail).

(** The four cells around a position, as offsets (dy, dx) from the cell
    the position lies in. *)
Definition cornerOffsets : list (Z * Z) :=
  [(0, 0); (-1, -1); (0, -1); (-1, 0)]%Z.

(** The orientation recorded for column [i] when the classification of
    the struck position is [raw]: line 364 to 367 at a hit. *)
Definition inheritAlignment (i : Z) (hits : list hitDetails)
    (raw : hitDetails) : option hitDetails :=
  if negb (i =? 0)%Z && Alignment_eqb (alignment raw) unknown
  then let? prev := nth_error hits (Z.to_nat (i - 1)) in
       Some (set_alignment raw (alignment prev))
  else Some raw.

(** ** Grids with a solid border *)

Definition indices (n : Z) : list Z := map Z.of_nat (seq 0 (Z.to_nat n)).

Definition onBorder (width height y x : Z) : bool :=
  ((y =? 0) || (y =? height - 1) || (x =? 0) || (x =? width - 1))%Z.

(** [worldMap] has a cell at every (y, x) of [height] rows and [width]
    columns, and every cell of the first and last row and column is
    occupied. *)
Definition closedGrid (worldMap : Grid) (width height : Z) : bool :=
  forallb (fun y =>
    forallb (fun x =>
      match cell worldMap y x with
      | Some v => if onBorder width height y x then nonzero v else true
      | None => false
      end) (indices width)) (indices height).

(** A number of iterations that suffices inside such a grid. *)
Definition fuelFor (width height : Z) : nat :=
  Z.to_nat (32 * (width + height) + 2).

(** The sign the source calls [signOperator], as an integer. *)
Definition stepSign (deltaDist : R) : Z := if Rltb 0 deltaDist then 1 else -1.

(** One coordinate of a traversal between the border lines [32] and
    [32 * (size - 1)]: the side distance is [k / 32] step distances, and
    [k] world units ahead lies a grid line that is still between the
    border lines. *)
Definition axisInv (lo size : Z) (deltaDist : R) (m : Z) (sideDist : R) : Prop :=
  exists k : Z,
    (lo <= k <= 32)%Z /\
    sideDist = IZR k / 32 * deltaDist /\
    (32 <= m <= 32 * (size - 1))%Z /\
    ((m + stepSign deltaDist * k) mod 32 = 0)%Z /\
    (32 <= m + stepSign deltaDist * k <= 32 * (size - 1))%Z.

(** World units left to the border line ahead. *)
Definition axisRemaining (size : Z) (deltaDist : R) (m : Z) : Z :=
  if Rltb 0 deltaDist then (32 * (size - 1) - m)%Z else (m - 32)%Z.

(** The step distance is nonzero and directed like the ray. *)
Definition directed (rayDir deltaDist : R) : Prop :=
  deltaDist <> 0 /\ (deltaDist < 0 <-> rayDir < 0).

Definition wellDirected (r : Ray) : Prop :=
  directed (rayDirX r) (rayDeltaX r) /\ directed (rayDirY r) (rayDeltaY r).

(** The loop invariant inside a closed grid of [width] x [height] cells. *)
Definition inside (lo width height : Z) (r : Ray) (t : Traversal) : Prop :=
  axisInv lo width (rayDeltaX r) (mapX t) (sideDistX t) /\
  axisInv lo height (rayDeltaY r) (mapY t) (sideDistY t).

(** The loop variant: world units left to the border lines ahead. *)
Definition remaining (width height : Z) (r : Ray) (t : Traversal) : Z :=
  (axisRemaining width (rayDeltaX r) (mapX t)
   + axisRemaining height (rayDeltaY r) (mapY t))%Z.

(** What a recorded result says about the struck position [p]: the
    material is a nonzero cell of the grid at [p]'s cell or at one of its
    three neighbours of the corner rule, and the distance is not negative,
    zero exactly when [p] is the viewpoint's own position. *)
Definition validHit (c : Character) (worldMap : Grid) (p : Vector2f)
    (h : hitDetails) : Prop :=
  color h <> 0%Z /\
  (exists dy dx,
      In (dy, dx) cornerOffsets /\
      cell worldMap (Zfloor (vy p / 32) + dy) (Zfloor (vx p / 32) + dx)
      = Some (color h)) /\
  0 <= distance h /\
  (distance h = 0 <-> vx p = vx (center c) /\ vy p = vy (center c)).

(** The viewpoint lies in a cell that is not a border cell. *)
Definition insideBorder (c : Character) (width height : Z) : Prop :=
  exists x0 y0 : Z,
    to_int (vx (center c)) = Some x0 /\ to_int (vy (center c)) = Some y0 /\
    (32 <= x0 < 32 * (width - 1))%Z /\ (32 <= y0 < 32 * (height - 1))%Z.

(** ** Classification at a position in whole world units *)

(** [checkForHit] at [(mapX / 32.0f, mapY / 32.0f)] for integers [mapX]
    and [mapY], computed on integers. *)
Definition classifyAt (mapX mapY : Z) (hitDetail : hitDetails)
    (worldMap : Grid) : option (bool * hitDetails) :=
  let x := (mapX / 32)%Z in
  let y := (mapY / 32)%Z in
  if ((mapX mod 32 =? 0) && (mapY mod 32 =? 0))%Z then
    let? found := firstNonzero worldMap
                    [(y, x); (y - 1, x - 1); (y, x - 1); (y - 1, x)]%Z in
    Some (report found hitDetail hitDetail)
  else if (mapX mod 32 =? 0)%Z then
    let? found := firstNonzero worldMap [(y, x); (y, x - 1)]%Z in
    Some (report found (set_alignment hitDetail vertical) hitDetail)
  else if (mapY mod 32 =? 0)%Z then
    let? found := firstNonzero worldMap [(y, x); (y - 1, x)]%Z in
    Some (report found (set_alignment hitDetail horizontal) hitDetail)
  else Some (false, hitDetail).

(** ** A scenario *)

(** Three by three cells: one empty cell inside a ring of material 1. *)
Definition ring3 : Grid := [[1; 1; 1]; [1; 0; 1]; [1; 1; 1]]%Z.

(** Three by three empty cells: no border. *)
Definition open3 : Grid := [[0; 0; 0]; [0; 0; 0]; [0; 0; 0]]%Z.

(** A viewpoint on the grid line between the left border cell and the
    empty cell, facing down and to the left (Y grows downward), with a
    perpendicular camera plane of the same length. *)
Definition viewer : Character :=
  mkCharacter 16
    (mkVec 32 48, mkVec 16 64) (mkVec 16 64, mkVec 32 80)
    (mkVec 16 32) (-16) 16 16 16 (mkVec 32 48) [] [].

Definition scenarioRays : list Vector2f :=
  [mkVec 32 48; mkVec 32 48; mkVec 32 64].

Definition scenarioHits : list hitDetails :=
  [mkHit 0 1 vertical; mkHit 0 1 vertical; mkHit 16 1 vertical].

(** ** The input loop of [main] *)

(** What one polled event finds: whether it is the window's Closed event,
    and which keys are held at that moment. *)
Record Event : Type := mkEvent {
  isClosed : bool;
  keyLeft : bool;
  keyRight : bool;
  keyUp : bool;
  keyDown : bool;
  keyQ : bool;
  keyW : bool
}.

(** The body of [while (window.pollEvent(event))]; closing the window
    leaves the character as it is. *)
Definition handleEvent (c : Character) (e : Event) : Character :=
  if isClosed e then c
  else if keyLeft e then updateMovement c LEFT
  else if keyRight e then updateMovement c RIGHT
  else if keyUp e then updateMovement c UP
  else if keyDown e then updateMovement c DOWN
  else if keyQ e then rotate c LEFT
  else if keyW e then rotate c RIGHT
  else c.

Definition pollEvents (c : Character) (events : list Event) : Character :=
  fold_left handleEvent events c.

(** The character [main] creates. *)
Definition startCharacter : Character := newCharacter 16 (-16) 0 0 16.

(** What an event does, by the priority of the chain of tests. *)
Inductive Action : Set :=
| Translate (d : movementDirection)
| RotateLeft
| RotateRight
| NoAction.

Definition actionOf (e : Event) : Action :=
  if isClosed e then NoAction
  else if keyLeft e then Translate LEFT
  else if keyRight e then Translate RIGHT
  else if keyUp e then Translate UP
  else if keyDown e then Translate DOWN
  else if keyQ e then RotateLeft
  else if keyW e then RotateRight
  else NoAction.

Definition Action_eqb (a b : Action) : bool :=
  match a, b with
  | Translate d, Translate d' => movementDirection_eqb d d'
  | RotateLeft, RotateLeft | RotateRight, RotateRight | NoAction, NoAction => true
  | _, _ => false
  end.

(** How many of the events do [a]. *)
Definition countAction (a : Action) (events : list Event) : nat :=
  length (filter (fun e => Action_eqb (actionOf e) a) events).

Definition rotates (e : Event) : bool :=
  Action_eqb (actionOf e) RotateLeft || Action_eqb (actionOf e) RotateRight.

(** The tip of the direction ray, where the camera plane is drawn. *)
Definition directionTip (c : Character) : Vector2f :=
  vadd (center c) (dirX c) (dirY c).

Definition perform (c : Character) (a : Action) : Character :=
  match a with
  | Translate d => updateMovement c d
  | RotateLeft => rotate c LEFT
  | RotateRight => rotate c RIGHT
  | NoAction => c
  end.

(** The cached centre and the drawn direction ray agree with the circle
    and the facing vector, and the camera plane ends at the tip of the
    direction ray plus the plane vector. *)
Definition synced (c : Character) : Prop :=
  center c = getCharacterCenter c /\
  fst (directionRay c) = center c /\
  snd (directionRay c) = directionTip c /\
  snd (cameraPlane c) = vadd (directionTip c) (cameraPlaneX c) (cameraPlaneY c).

(** The vector (x, y) turned by the angle [a]. *)
Definition turnX (a x y : R) : R := x * cos a - y * sin a.
Definition turnY (a x y : R) : R := x * sin a + y * cos a.

(** The net angle of the rotations among the events: Q turns by -0.01,
    W by +0.01. *)
Definition netAngle (events : list Event) : R :=
  0.01 * (INR (countAction RotateRight events) - INR (countAction RotateLeft events)).

(** ** [Main.cpp]: one frame *)

Definition screenWidth : Z := 640.
Definition screenHeight : Z := 480.

Definition set_casts (c : Character) (rays : list Vector2f)
    (hs : list hitDetails) : Character :=
  mkCharacter (characterRadius c) (directionRay c) (cameraPlane c)
    (charObject c) (dirX c) (dirY c) (cameraPlaneX c) (cameraPlaneY c)
    (center c) hs rays.

(** The ray casting of [draw2DWindow]:
    [character.getRayCasts() = character.calcRays(character.getHits(),
    screenWidth, worldMap)]. *)
Definition castFrame (fuel : nat) (c : Character) (worldMap : Grid)
    : option Character :=
  let? '(rays, hs) := calcRays fuel c screenWidth worldMap in
  Some (set_casts c rays hs).

(** ** [Main.cpp]: reading the world file *)

Definition newline : ascii := "010"%char.
Definition comma : ascii := ","%char.

(** [getline(stream, line)] on a stream that has characters left: the
    characters up to the next newline become [line]; the newline is
    consumed and not stored.  The result is [(line, rest of the stream)]. *)
Fixpoint getline (stream : list ascii) : list ascii * list ascii :=
  match stream with
  | [] => ([], [])
  | c :: rest =>
      if Ascii.eqb c newline then ([], rest)
      else let '(line, rest') := getline rest in (c :: line, rest')
  end.

(** [line.erase(std::remove(line.begin(), line.end(), ','), line.end())]. *)
Definition removeCommas (line : list ascii) : list ascii :=
  filter (fun c => negb (Ascii.eqb c comma)) line.

(** [std::stoi(std::string{ val })] for the one character [val]: a decimal
    digit converts to its value; for any other character no conversion can
    be performed and [std::invalid_argument] is thrown, which nothing
    catches: no result. *)
Definition stoi (val : ascii) : option Z :=
  let code := Z.of_N (N_of_ascii val) in
  if ((48 <=? code) && (code <=? 57))%Z then Some (code - 48)%Z else None.

(** [values.push_back(std::stoi(std::string{ val }))]. *)
Definition pushValue (values : option (list Z)) (val : ascii)
    : option (list Z) :=
  let? values := values in
  let? v := stoi val in
  Some (values ++ [v]).

(** The body of [while (getline(stream, line))]: one row of the map. *)
Definition readRow (line : list ascii) : option (list Z) :=
  fold_left pushValue (removeCommas line) (Some []).

(** [while (getline(stream, line))], bounded by [fuel] iterations.  [getline]
    fails, and the loop ends, when no character is left. *)
Fixpoint whileGetline (fuel : nat) (stream : list ascii) (returnMap : Grid)
    : option Grid :=
  match fuel with
  | O => None
  | S fuel' =>
      match stream with
      | [] => Some returnMap
      | _ :: _ =>
          let '(line, stream') := getline stream in
          let? values := readRow line in
          whileGetline fuel' stream' (returnMap ++ [values])
      end
  end.

(** [readWorldFile] on the characters the file stream delivers ([content];
    a file that cannot be opened delivers none).  Every iteration consumes
    a character, so one iteration more than there are characters is
    enough.  The echo of each line to [std::cout] is left out. *)
Definition readWorldFile (content : list ascii) : option Grid :=
  whileGetline (S (length content)) content [].

(** The lines of a stream as [getline] delivers them one after another. *)
Fixpoint linesOf (stream : list ascii) : list (list ascii) :=
  match stream with
  | [] => []
  | c :: rest =>
      if Ascii.eqb c newline then [] :: linesOf rest
      else match linesOf rest with
           | [] => [[c]]
           | line :: lines => (c :: line) :: lines
           end
  end.

(** The values of the digits of a line, when every character is one. *)
Fixpoint digitsOf (line : list ascii) : option (list Z) :=
  match line with
  | [] => Some []
  | val :: rest =>
      let? v := stoi val in
      let? vs := digitsOf rest in
      Some (v :: vs)
  end.

Fixpoint rowsOf (lines : list (list ascii)) : option Grid :=
  match lines with
  | [] => Some []
  | line :: rest =>
      let? values := digitsOf (removeCommas line) in
      let? rows := rowsOf rest in
      Some (values :: rows)
  end.

(** A character [readWorldFile] accepts: a digit, a comma or a newline. *)
Definition accepted (c : ascii) : bool :=
  match stoi c with
  | Some _ => true
  | None => Ascii.eqb c comma || Ascii.eqb c newline
  end.

(** The layout of a world file: the cells of a row as digits separated by
    commas, every row ended by a newline. *)
Definition digit (v : Z) : ascii := ascii_of_N (Z.to_N (48 + v)).

Fixpoint writeRow (row : list Z) : list ascii :=
  match row with
  | [] => []
  | [v] => [digit v]
  | v :: rest => digit v :: comma :: writeRow rest
  end.

Definition writeWorldFile (worldMap : Grid) : list ascii :=
  concat (map (fun row => writeRow row ++ [newline]) worldMap).

Definition cellsWithin (lo hi : Z) (worldMap : Grid) : Prop :=
  forall row v, In row worldMap -> In v row -> (lo <= v <= hi)%Z.

(** ** [Main.cpp]: the walls of the map window *)

Definition WORLD_BLOCK_WIDTH : Z := 32.
Definition WORLD_BLOCK_HEIGHT : Z := 16.

Record Color : Type := mkColor {
  red : Z;
  green : Z;
  blue : Z
}.

(** An [sf::RectangleShape]: its size, the fill colour when [setFillColor]
    has been called on it, and its position. *)
Record RectangleShape : Type := mkRectangleShape {
  getSize : Vector2f;
  getFillColor : option Color;
  getPosition : Vector2f
}.

(** The [switch] of [generateWalls]. *)
Definition wallColor (material : Z) : option Color :=
  match material with
  | 1 => Some (mkColor 175 0 0)
  | 2 => Some (mkColor 0 175 0)
  | 3 => Some (mkColor 0 0 175)
  | _ => None
  end%Z.

Definition wallAt (material i j : Z) : RectangleShape :=
  mkRectangleShape (mkVec BLOCK_WIDTH BLOCK_WIDTH) (wallColor material)
    (mkVec (BLOCK_WIDTH * IZR j) (BLOCK_WIDTH * IZR i)).

(** The body of the inner loop of [generateWalls], for row [i] and column
    [j]: no result when [worldMap[i][j]] is outside the map. *)
Definition pushWall (worldMap : Grid) (i : Z)
    (walls : option (list RectangleShape)) (j : Z)
    : option (list RectangleShape) :=
  let? walls := walls in
  let? material := cell worldMap i j in
  if nonzero material then Some (walls ++ [wallAt material i j])
  else Some walls.

Definition pushWallRow (worldMap : Grid)
    (walls : option (list RectangleShape)) (i : Z)
    : option (list RectangleShape) :=
  fold_left (pushWall worldMap i) (indices WORLD_BLOCK_WIDTH) walls.

Definition generateWalls (worldMap : Grid) : option (list RectangleShape) :=
  fold_left (pushWallRow worldMap) (indices WORLD_BLOCK_HEIGHT) (Some []).

(** [worldMap[i][j]] is inside the map. *)
Definition definedAt (worldMap : Grid) (i j : Z) : bool :=
  match cell worldMap i j with
  | Some _ => true
  | None => false
  end.

(** The wall [generateWalls] makes for the cell at row [i] and column [j],
    if any. *)
Definition cellWalls (worldMap : Grid) (i j : Z) : list RectangleShape :=
  match cell worldMap i j with
  | Some material => if nonzero material then [wallAt material i j] else []
  | None => []
  end.

(** The position [(x, y)] lies in the closed rectangle of [shape]. *)
Definition covers (shape : RectangleShape) (x y : R) : Prop :=
  vx (getPosition shape) <= x <= vx (getPosition shape) + vx (getSize shape) /\
  vy (getPosition shape) <= y <= vy (getPosition shape) + vy (getSize shape).

(** ** [Main.cpp]: the columns of the 3-D window *)

(** The [switch] of [draw3DWindow] with its [colorAdjustment]. *)
Definition columnColor (h : hitDetails) : option Color :=
  let colorAdjustment :=
    if Alignment_eqb (alignment h) vertical then 0%Z else (-25)%Z in
  match color h with
  | 1 => Some (mkColor (175 + colorAdjustment) 0 0)
  | 2 => Some (mkColor 0 (175 + colorAdjustment) 0)
  | 3 => Some (mkColor 0 0 (175 + colorAdjustment))
  | _ => None
  end%Z.

(** A quotient whose value the code goes on to use: no result at a zero
    divisor, where the binary64 quotient is an infinity. *)
Definition checkedDiv (a b : R) : option R :=
  if Reqb b 0 then None else Some (a / b).

(** The rectangle of column [i].  At distance zero the quotient
    [1 / distance] is infinite and the rectangle has no finite height and
    position: no result. *)
Definition drawColumn (i : Z) (h : hitDetails) : option RectangleShape :=
  let? inverse := checkedDiv 1 (distance h) in
  let lineHeight := inverse * IZR screenHeight * BLOCK_WIDTH in
  Some (mkRectangleShape (mkVec 1 lineHeight) (columnColor h)
          (mkVec (IZR i) (IZR (screenHeight / 2) - lineHeight / 2))).

Definition pushDrawn (hs : list hitDetails)
    (drawn : option (list RectangleShape)) (i : Z)
    : option (list RectangleShape) :=
  let? drawn := drawn in
  let? h := nth_error hs (Z.to_nat i) in
  let? wall := drawColumn i h in
  Some (drawn ++ [wall]).

(** [draw3DWindow]: the rectangles drawn, in order. *)
Definition draw3DWindow (c : Character) : option (list RectangleShape) :=
  fold_left (pushDrawn (hits c)) (indices (Z.of_nat (length (hits c))))
    (Some []).

(** ** A scenario at the size of the map window *)

(** Sixteen rows of thirty-two cells, empty inside a border of material 2. *)
Definition hall : Grid :=
  let full := repeat 2%Z 32 in
  let open := (2 :: repeat 0 30 ++ [2])%Z in
  full :: repeat open 14 ++ [full].

(** Neither coordinate of the viewpoint is on a grid line. *)
Definition offGridLines (c : Character) : Prop :=
  forall k : Z, vx (center c) <> 32 * IZR k /\ vy (center c) <> 32 * IZR k.

(** The viewer of the first scenario, in the middle of a cell. *)
Definition walker : Character := set_center viewer (mkVec 48 48).

(** The character of [main] moved onto the vertical grid line X = 64, in
    the row of Y = 48; it still faces left. *)
Definition onLine : Character := set_center startCharacter (mkVec 64 48).

(** The viewer of the first scenario with a facing vector whose squares
    exceed the range of [double]. *)
Definition farSighted : Character :=
  mkCharacter 16
    (mkVec 32 48, mkVec 32 48) (mkVec 32 48, mkVec 32 48)
    (mkVec 16 32) 1e200 1e200 16 16 (mkVec 32 48) [] [].

(** * Properties *)

(** ** Comparisons and conversions *)

Lemma Rltb_true (a b : R) : a < b -> Rltb a b = true.
Proof. intros H. unfold Rltb. destruct (Rlt_dec a b); [reflexivity | contradiction]. Qed.

Lemma Rltb_false (a b : R) : b <= a -> Rltb a b = false.
Proof. intros H. unfold Rltb. destruct (Rlt_dec a b); [lra | reflexivity]. Qed.

Lemma Rleb_true (a b : R) : a <= b -> Rleb a b = true.
Proof. intros H. unfold Rleb. destruct (Rle_dec a b); [reflexivity | contradiction]. Qed.

Lemma Rleb_false (a b : R) : b < a -> Rleb a b = false.
Proof. intros H. unfold Rleb. destruct (Rle_dec a b); [lra | reflexivity]. Qed.

Lemma Reqb_true (a b : R) : a = b -> Reqb a b = true.
Proof. intros H. unfold Reqb. destruct (Req_dec_T a b); [reflexivity | contradiction]. Qed.

Lemma Reqb_false (a b : R) : a <> b -> Reqb a b = false.
Proof. intros H. unfold Reqb. destruct (Req_dec_T a b); [contradiction | reflexivity]. Qed.

Lemma Rltb_spec (a b : R) : reflect (a < b) (Rltb a b).
Proof. unfold Rltb. destruct (Rlt_dec a b); constructor; assumption. Qed.

Lemma Rleb_spec (a b : R) : reflect (a <= b) (Rleb a b).
Proof. unfold Rleb. destruct (Rle_dec a b); constructor; assumption. Qed.

Lemma Reqb_spec (a b : R) : reflect (a = b) (Reqb a b).
Proof. unfold Reqb. destruct (Req_dec_T a b); constructor; assumption. Qed.

Lemma Zceil_IZR (z : Z) : Zceil (IZR z) = z.
Proof. unfold Zceil. rewrite ZfloorNZ. lia. Qed.

Lemma truncate_IZR (z : Z) : truncate (IZR z) = z.
Proof.
  unfold truncate. destruct (Rleb 0 (IZR z)).
  - apply ZfloorZ.
  - apply Zceil_IZR.
Qed.

Lemma to_int_IZR (z : Z) :
  (INT_MIN <= z <= INT_MAX)%Z -> to_int (IZR z) = Some z.
Proof.
  intros [Hlo Hhi]. unfold to_int. rewrite truncate_IZR.
  apply Z.leb_le in Hlo. apply Z.leb_le in Hhi.
  rewrite Hlo, Hhi. reflexivity.
Qed.

Lemma to_int_range (r : R) (z : Z) :
  to_int r = Some z -> z = truncate r /\ (INT_MIN <= z <= INT_MAX)%Z.
Proof.
  unfold to_int. intros H.
  destruct ((INT_MIN <=? truncate r) && (truncate r <=? INT_MAX))%Z eqn:E;
    [| discriminate].
  injection H as <-. apply andb_true_iff in E as [Hlo Hhi].
  apply Z.leb_le in Hlo. apply Z.leb_le in Hhi. auto.
Qed.

Lemma round_IZR (z : Z) : round (IZR z) = IZR z.
Proof.
  unfold round. destruct (Rleb_spec 0 (IZR z)).
  - f_equal. apply Zfloor_eq. lra.
  - f_equal. apply Zceil_eq. lra.
Qed.

(** ** Translation *)

(** C8: a step Left followed by a step Right returns the position (the
    centre and the circle) to its original value, and every
    [updateMovement] call moves the centre by exactly [MOVEMENT_SPEED]
    along one axis: Up and Left decrease Y and X, Down and Right increase
    them. *)
Theorem updateMovement_translation (c : Character) :
  center (updateMovement (updateMovement c LEFT) RIGHT) = center c /\
  charObject (updateMovement (updateMovement c LEFT) RIGHT) = charObject c /\
  center (updateMovement c UP) = mkVec (vx (center c)) (vy (center c) - MOVEMENT_SPEED) /\
  center (updateMovement c DOWN) = mkVec (vx (center c)) (vy (center c) + MOVEMENT_SPEED) /\
  center (updateMovement c LEFT) = mkVec (vx (center c) - MOVEMENT_SPEED) (vy (center c)) /\
  center (updateMovement c RIGHT) = mkVec (vx (center c) + MOVEMENT_SPEED) (vy (center c)).
Proof.
  destruct c as [rad dr cp [ox oy] dx dy px py [cx cy] hs rs].
  repeat split; try reflexivity;
    cbv beta iota zeta delta
      [updateMovement move set_center vadd center charObject vx vy fst snd];
    f_equal; unfold MOVEMENT_SPEED; ring.
Qed.

(** ** Rotation *)

Lemma rotation_angle_unit (d : movementDirection) :
  let a := (if movementDirection_eqb d LEFT then -1 else 1) * 0.01 in
  sin a * sin a + cos a * cos a = 1.
Proof. intros a. exact (sin2_cos2 a). Qed.

Lemma rotate_facing_sq (c : Character) (d : movementDirection) :
  dirX (rotate c d) * dirX (rotate c d) + dirY (rotate c d) * dirY (rotate c d)
  = dirX c * dirX c + dirY c * dirY c.
Proof.
  pose proof (rotation_angle_unit d) as H. cbv zeta in H.
  unfold rotate; cbn [dirX dirY].
  match goal with |- ?l = ?r =>
    transitivity (r * (sin ((if movementDirection_eqb d LEFT then -1 else 1) * 0.01)
                       * sin ((if movementDirection_eqb d LEFT then -1 else 1) * 0.01)
                       + cos ((if movementDirection_eqb d LEFT then -1 else 1) * 0.01)
                         * cos ((if movementDirection_eqb d LEFT then -1 else 1) * 0.01)))
  end.
  - ring.
  - rewrite H. ring.
Qed.

Lemma rotate_plane_sq (c : Character) (d : movementDirection) :
  cameraPlaneX (rotate c d) * cameraPlaneX (rotate c d)
  + cameraPlaneY (rotate c d) * cameraPlaneY (rotate c d)
  = cameraPlaneX c * cameraPlaneX c + cameraPlaneY c * cameraPlaneY c.
Proof.
  pose proof (rotation_angle_unit d) as H. cbv zeta in H.
  unfold rotate; cbn [cameraPlaneX cameraPlaneY].
  match goal with |- ?l = ?r =>
    transitivity (r * (sin ((if movementDirection_eqb d LEFT then -1 else 1) * 0.01)
                       * sin ((if movementDirection_eqb d LEFT then -1 else 1) * 0.01)
                       + cos ((if movementDirection_eqb d LEFT then -1 else 1) * 0.01)
                         * cos ((if movementDirection_eqb d LEFT then -1 else 1) * 0.01)))
  end.
  - ring.
  - rewrite H. ring.
Qed.

Lemma rotate_dot (c : Character) (d : movementDirection) :
  facingDotPlane (rotate c d) = facingDotPlane c.
Proof.
  pose proof (rotation_angle_unit d) as H. cbv zeta in H.
  unfold facingDotPlane, rotate; cbn [dirX dirY cameraPlaneX cameraPlaneY].
  match goal with |- ?l = ?r =>
    transitivity (r * (sin ((if movementDirection_eqb d LEFT then -1 else 1) * 0.01)
                       * sin ((if movementDirection_eqb d LEFT then -1 else 1) * 0.01)
                       + cos ((if movementDirection_eqb d LEFT then -1 else 1) * 0.01)
                         * cos ((if movementDirection_eqb d LEFT then -1 else 1) * 0.01)))
  end.
  - ring.
  - rewrite H. ring.
Qed.

Lemma rotate_invariants (c : Character) (d : movementDirection) :
  facingMagnitude (rotate c d) = facingMagnitude c /\
  planeMagnitude (rotate c d) = planeMagnitude c /\
  facingDotPlane (rotate c d) = facingDotPlane c.
Proof.
  unfold facingMagnitude, planeMagnitude.
  rewrite rotate_facing_sq, rotate_plane_sq, rotate_dot. auto.
Qed.

(** C2: over any sequence of [rotate] calls, whatever the direction of
    each, the magnitudes of the facing vector and of the camera-plane
    vector are unchanged and so is their dot product; perpendicular
    vectors (dot product zero) therefore stay perpendicular. *)
Theorem rotate_preserves_magnitude_and_angle
    (dirs : list movementDirection) (c : Character) :
  facingMagnitude (rotateAll c dirs) = facingMagnitude c /\
  planeMagnitude (rotateAll c dirs) = planeMagnitude c /\
  facingDotPlane (rotateAll c dirs) = facingDotPlane c /\
  (facingDotPlane c = 0 -> facingDotPlane (rotateAll c dirs) = 0).
Proof.
  revert c. unfold rotateAll.
  induction dirs as [| d dirs IH]; intros c; simpl.
  - auto.
  - destruct (IH (rotate c d)) as (Hf & Hp & Hd & _).
    destruct (rotate_invariants c d) as (Hf1 & Hp1 & Hd1).
    rewrite Hf, Hp, Hd, Hf1, Hp1, Hd1. auto.
Qed.

(** ** Hit classification *)

(** C10: at a position with neither coordinate an exact integer,
    [checkForHit] returns false and leaves [hitDetail] as it was; the grid
    is not consulted. *)
Theorem checkForHit_inside_cell (xIndex yIndex : R) (hitDetail : hitDetails)
    (worldMap : Grid) :
  floor xIndex <> xIndex -> floor yIndex <> yIndex ->
  checkForHit xIndex yIndex hitDetail worldMap = Some (false, hitDetail).
Proof.
  intros Hx Hy. unfold checkForHit.
  rewrite (Reqb_false _ _ Hx), (Reqb_false _ _ Hy). reflexivity.
Qed.

Lemma checkForHit_inside_cell_witness :
  floor (3 / 2) <> 3 / 2 /\ floor (5 / 2) <> 5 / 2 /\
  checkForHit (3 / 2) (5 / 2) defaultHit [] = Some (false, defaultHit).
Proof.
  assert (H3 : floor (3 / 2) <> 3 / 2)
    by (unfold floor; rewrite (Zfloor_eq 1) by lra; lra).
  assert (H5 : floor (5 / 2) <> 5 / 2)
    by (unfold floor; rewrite (Zfloor_eq 2) by lra; lra).
  split; [exact H3 | split; [exact H5 |]].
  exact (checkForHit_inside_cell _ _ defaultHit [] H3 H5).
Defined.

Ltac case_cells :=
  cbv beta iota delta [bind firstNonzero report eitherNonzero];
  repeat match goal with
         | |- context [cell ?w ?y ?x] =>
             destruct (cell w y x); cbv beta iota; try reflexivity
         | |- context [nonzero ?v] =>
             destruct (nonzero v); cbv beta iota; try reflexivity
         end.

(** [checkForHit] is the classification the specification describes. *)
Lemma checkForHit_classifyHit (xIndex yIndex : R) (hitDetail : hitDetails)
    (worldMap : Grid) :
  checkForHit xIndex yIndex hitDetail worldMap
  = classifyHit xIndex yIndex hitDetail worldMap.
Proof.
  unfold checkForHit, classifyHit, onGridLine.
  destruct (Reqb (floor xIndex) xIndex), (Reqb (floor yIndex) yIndex);
    cbv beta iota delta [andb]; try reflexivity.
  - destruct (to_int xIndex) as [x |]; [| reflexivity].
    destruct (to_int yIndex) as [y |]; [| reflexivity].
    case_cells.
  - destruct (to_int xIndex) as [x |]; [| reflexivity].
    destruct (to_int (floor yIndex)) as [y |]; [| reflexivity].
    case_cells.
  - destruct (to_int yIndex) as [y |]; [| reflexivity].
    destruct (to_int (floor xIndex)) as [x |]; [| reflexivity].
    case_cells.
Qed.

(** C5: [checkForHit] classifies a position as the specification says.
    At a corner the cells (y,x), (y-1,x-1), (y,x-1), (y-1,x) are consulted
    in this order, the first nonzero material is reported and the
    orientation is not assigned (it keeps the value it came with, unknown
    for the fresh [hitDetails] of a column); with only X on a grid line the
    cells (y,x), (y,x-1) are consulted and a nonzero one gives Vertical;
    with only Y on a grid line the cells (y,x), (y-1,x) are consulted and a
    nonzero one gives Horizontal; otherwise there is no hit.  This is the
    definition [classifyHit]; the orientations are stated once more
    below it. *)
Theorem checkForHit_classification (xIndex yIndex : R)
    (hitDetail : hitDetails) (worldMap : Grid) :
  checkForHit xIndex yIndex hitDetail worldMap
  = classifyHit xIndex yIndex hitDetail worldMap /\
  (forall (hit : bool) (h : hitDetails),
      checkForHit xIndex yIndex hitDetail worldMap = Some (hit, h) ->
      (onGridLine xIndex = true -> onGridLine yIndex = true ->
       alignment h = alignment hitDetail) /\
      (onGridLine xIndex = true -> onGridLine yIndex = false -> hit = true ->
       alignment h = vertical) /\
      (onGridLine xIndex = false -> onGridLine yIndex = true -> hit = true ->
       alignment h = horizontal) /\
      (onGridLine xIndex = false -> onGridLine yIndex = false ->
       hit = false /\ h = hitDetail)).
Proof.
  split; [apply checkForHit_classifyHit |].
  intros hit h. rewrite checkForHit_classifyHit. unfold classifyHit.
  destruct (onGridLine xIndex), (onGridLine yIndex);
    cbv beta iota delta [andb]; intros H;
    repeat split; intros; try discriminate.
  - destruct (to_int xIndex); [| discriminate].
    destruct (to_int yIndex); [| discriminate].
    cbv beta iota delta [bind] in H.
    destruct (firstNonzero _ _) as [[m |] |]; [| | discriminate];
      injection H as <- <-; reflexivity.
  - destruct (to_int xIndex); [| discriminate].
    destruct (to_int (floor yIndex)); [| discriminate].
    cbv beta iota delta [bind] in H.
    destruct (firstNonzero _ _) as [[m |] |]; [| | discriminate];
      injection H as <- <-; [reflexivity | discriminate].
  - destruct (to_int yIndex); [| discriminate].
    destruct (to_int (floor xIndex)); [| discriminate].
    cbv beta iota delta [bind] in H.
    destruct (firstNonzero _ _) as [[m |] |]; [| | discriminate];
      injection H as <- <-; [reflexivity | discriminate].
  - injection H as <- <-. reflexivity.
  - injection H as <- <-. reflexivity.
Qed.

(** ** Distance to the next grid line *)

(** How far a non-negative coordinate is from the next grid line in the
    direction of travel, in world units: between 1 and 32. *)
Lemma calcNewDistance_steps (vertex : Z) (rayDir deltaDist : R) :
  (0 <= vertex)%Z ->
  exists k : Z,
    (1 <= k <= 32)%Z /\
    calcNewDistance vertex rayDir deltaDist = IZR k / 32 * deltaDist /\
    (rayDir < 0 -> ((vertex - k) mod 32 = 0)%Z) /\
    (0 <= rayDir -> ((vertex + k) mod 32 = 0)%Z).
Proof.
  intros Hv.
  assert (Hrem : Z.rem vertex 32 = (vertex mod 32)%Z)
    by (apply Z.rem_mod_nonneg; lia).
  pose proof (Z.mod_pos_bound vertex 32 ltac:(lia)) as Hb.
  unfold calcNewDistance, BLOCK_WIDTH. rewrite Hrem.
  set (m := (vertex mod 32)%Z) in *.
  destruct (Rltb_spec rayDir 0) as [Hneg | Hpos].
  - destruct (Reqb_spec (IZR m) 0) as [Hz | Hnz]; cbv beta iota delta [andb].
    + apply eq_IZR in Hz. exists 32%Z. repeat split; try lia.
      * intros _. subst m. rewrite Zminus_mod, Hz. reflexivity.
      * intros H. lra.
    + rewrite Rleb_false by lra.
      assert (m <> 0)%Z by (intros ->; apply Hnz; reflexivity).
      exists m. repeat split; try lia.
      * intros _. subst m. rewrite Zminus_mod, Zmod_mod, Z.sub_diag. reflexivity.
      * intros H'. lra.
  - cbv beta iota delta [andb]. rewrite Rleb_true by lra.
    assert (Hne : 32 - IZR m <> 0).
    { intros H. assert (IZR m = IZR 32) by lra. apply eq_IZR in H0. lia. }
    rewrite (Reqb_false _ _ Hne).
    exists (32 - m)%Z. repeat split; try lia.
    + rewrite minus_IZR. reflexivity.
    + intros H. lra.
    + intros _. replace (vertex + (32 - m))%Z with (vertex - m + 1 * 32)%Z by lia.
      rewrite Z_mod_plus_full. subst m.
      rewrite Zminus_mod, Zmod_mod, Z.sub_diag. reflexivity.
Qed.

(** For a non-negative coordinate and a nonzero step distance the
    recomputed side distance is nonzero, directed like the step distance
    and at most as long. *)
Lemma calcNewDistance_sign (vertex : Z) (rayDir deltaDist : R) :
  (0 <= vertex)%Z -> deltaDist <> 0 ->
  calcNewDistance vertex rayDir deltaDist <> 0 /\
  (0 < calcNewDistance vertex rayDir deltaDist <-> 0 < deltaDist) /\
  (calcNewDistance vertex rayDir deltaDist < 0 <-> deltaDist < 0) /\
  0 < Rabs (calcNewDistance vertex rayDir deltaDist) <= Rabs deltaDist.
Proof.
  intros Hv Hd.
  destruct (calcNewDistance_steps vertex rayDir deltaDist Hv)
    as (k & [Hk1 Hk32] & -> & _).
  apply IZR_le in Hk1, Hk32.
  set (f := IZR k / 32).
  assert (Hf : 0 < f <= 1) by (unfold f; lra).
  clearbody f.
  assert (Habs : Rabs (f * deltaDist) = f * Rabs deltaDist).
  { rewrite Rabs_mult, (Rabs_right f) by lra. reflexivity. }
  pose proof (Rabs_pos_lt deltaDist Hd) as Hpos.
  rewrite Habs.
  repeat split; try nra.
Qed.

(** ** Step distances *)

Lemma SENTINEL_pos : 0 < SENTINEL.
Proof. unfold SENTINEL. lra. Qed.

Lemma hypoLength_pos (rayDirX rayDirY : R) :
  rayDirX <> 0 \/ rayDirY <> 0 -> 0 < hypoLength rayDirX rayDirY.
Proof.
  intros H. unfold hypoLength. apply sqrt_lt_R0.
  destruct H as [H | H]; nra.
Qed.

Lemma stepDistance_zero (hypoLength : R) : stepDistance 0 hypoLength = SENTINEL.
Proof.
  unfold stepDistance.
  rewrite (Reqb_true 0 0 eq_refl), (Rltb_false 0 0) by lra. reflexivity.
Qed.

(** The step distance of a nonzero component is the positive product
    [32 / |rayDir| * hypoLength] with the sign of the component. *)
Lemma stepDistance_sign (rayDir hypoLength : R) :
  0 < hypoLength ->
  stepDistance rayDir hypoLength <> 0 /\
  (stepDistance rayDir hypoLength < 0 <-> rayDir < 0) /\
  (0 < stepDistance rayDir hypoLength <-> 0 <= rayDir).
Proof.
  intros Hh. unfold stepDistance, multiplier.
  pose proof SENTINEL_pos as Hs.
  destruct (Reqb_spec rayDir 0) as [-> | Hnz].
  - rewrite Rltb_false by lra. repeat split; intros; lra.
  - assert (Hm : 0 < 32 / Rabs rayDir * hypoLength).
    { apply Rmult_lt_0_compat; [| exact Hh].
      apply Rdiv_lt_0_compat; [lra | apply Rabs_pos_lt; exact Hnz]. }
    destruct (Rltb_spec rayDir 0); repeat split; intros; lra.
Qed.

Lemma deltaDistX_sign (rayDirX rayDirY : R) :
  deltaDistX rayDirX rayDirY <> 0 /\
  (deltaDistX rayDirX rayDirY < 0 <-> rayDirX < 0) /\
  (0 < deltaDistX rayDirX rayDirY <-> 0 <= rayDirX).
Proof.
  unfold deltaDistX. destruct (Req_dec_T rayDirX 0) as [-> | Hnz].
  - rewrite stepDistance_zero. pose proof SENTINEL_pos.
    repeat split; intros; lra.
  - apply stepDistance_sign, hypoLength_pos. left; exact Hnz.
Qed.

Lemma deltaDistY_sign (rayDirX rayDirY : R) :
  deltaDistY rayDirX rayDirY <> 0 /\
  (deltaDistY rayDirX rayDirY < 0 <-> rayDirY < 0) /\
  (0 < deltaDistY rayDirX rayDirY <-> 0 <= rayDirY).
Proof.
  unfold deltaDistY. destruct (Req_dec_T rayDirY 0) as [-> | Hnz].
  - rewrite stepDistance_zero. pose proof SENTINEL_pos.
    repeat split; intros; lra.
  - apply stepDistance_sign, hypoLength_pos. right; exact Hnz.
Qed.

(** ** The range of [double] *)

Lemma normal_zero : normal 0 = true.
Proof. unfold normal. rewrite (Reqb_true 0 0 eq_refl). reflexivity. Qed.

Lemma normal_range (x : R) :
  2 * DBL_MIN <= Rabs x /\ 2 * Rabs x <= DBL_MAX -> normal x = true.
Proof.
  intros [Hlo Hhi]. unfold normal.
  rewrite (Rleb_true _ _ Hlo), (Rleb_true _ _ Hhi). apply orb_true_r.
Qed.

Lemma stepInRange_zero (hypoLength : R) : stepInRange 0 hypoLength = true.
Proof. unfold stepInRange. rewrite (Reqb_true 0 0 eq_refl). reflexivity. Qed.

Lemma square_Rabs (x : R) : x * x = Rabs x * Rabs x.
Proof. unfold Rabs. destruct (Rcase_abs x); ring. Qed.

Lemma square_bounds (a lo hi : R) :
  0 <= lo -> lo <= a <= hi -> lo * lo <= a * a <= hi * hi.
Proof. intros Hlo [H1 H2]. split; nra. Qed.

(** A component the bounds below ask for: zero, or of a magnitude between
    1e-100 and 1e100. *)
Lemma stepInRange_bounded (rayDir hypoLength : R) :
  1e-100 <= Rabs rayDir <= 1e100 ->
  Rabs rayDir <= hypoLength <= 2e100 ->
  stepInRange rayDir hypoLength = true.
Proof.
  intros [Hlo Hhi] [Hh1 Hh2]. unfold stepInRange, multiplier.
  set (a := Rabs rayDir) in *.
  assert (Ha : 0 < a) by lra.
  assert (Hi1 : / 1e100 <= / a) by (apply Rinv_le_contravar; lra).
  assert (Hi2 : / a <= / 1e-100) by (apply Rinv_le_contravar; lra).
  assert (Hi3 : 0 < / a) by (apply Rinv_0_lt_compat; exact Ha).
  assert (Hq1 : 1 <= hypoLength * / a).
  { rewrite <- (Rinv_r a) by lra. apply Rmult_le_compat_r; lra. }
  assert (Hq2 : hypoLength * / a <= 2e100 * / 1e-100).
  { apply Rmult_le_compat; lra. }
  assert (Hm : 32 / a * hypoLength = 32 * (hypoLength * / a))
    by (unfold Rdiv; ring).
  rewrite Hm. rewrite !normal_range; [apply orb_true_r | |].
  - rewrite Rabs_right by lra. unfold DBL_MIN, DBL_MAX. lra.
  - unfold Rdiv. rewrite Rabs_right by lra. unfold DBL_MIN, DBL_MAX. lra.
Qed.

Lemma hypoLength_bounds (rayDirX rayDirY : R) :
  Rabs rayDirX <= 1e100 -> Rabs rayDirY <= 1e100 ->
  Rabs rayDirX <= hypoLength rayDirX rayDirY <= 2e100 /\
  Rabs rayDirY <= hypoLength rayDirX rayDirY <= 2e100.
Proof.
  intros Hx Hy. unfold hypoLength.
  rewrite (square_Rabs rayDirX), (square_Rabs rayDirY).
  pose proof (Rabs_pos rayDirX) as Hpx. pose proof (Rabs_pos rayDirY) as Hpy.
  set (a := Rabs rayDirX) in *. set (b := Rabs rayDirY) in *.
  destruct (square_bounds a 0 1e100 (Rle_refl 0) (conj Hpx Hx)) as [Ha1 Ha2].
  destruct (square_bounds b 0 1e100 (Rle_refl 0) (conj Hpy Hy)) as [Hb1 Hb2].
  assert (Hup : sqrt (a * a + b * b) <= 2e100).
  { rewrite <- (sqrt_square 2e100) by lra. apply sqrt_le_1; lra. }
  repeat split; try exact Hup.
  - rewrite <- (sqrt_square a) at 1 by exact Hpx. apply sqrt_le_1; lra.
  - rewrite <- (sqrt_square b) at 1 by exact Hpy. apply sqrt_le_1; lra.
Qed.

(** Within these bounds no value of the ray setup leaves the range of
    [double]. *)
Lemma inRange_bounded (rayDirX rayDirY : R) :
  rayDirX = 0 \/ 1e-100 <= Rabs rayDirX <= 1e100 ->
  rayDirY = 0 \/ 1e-100 <= Rabs rayDirY <= 1e100 ->
  inRange rayDirX rayDirY = true.
Proof.
  intros Hx Hy.
  assert (Hax : Rabs rayDirX <= 1e100).
  { destruct Hx as [-> | Hx]; [rewrite Rabs_R0 |]; lra. }
  assert (Hay : Rabs rayDirY <= 1e100).
  { destruct Hy as [-> | Hy]; [rewrite Rabs_R0 |]; lra. }
  destruct (hypoLength_bounds rayDirX rayDirY Hax Hay) as [Hhx Hhy].
  assert (Hnx : normal rayDirX = true).
  { destruct Hx as [-> | Hx]; [apply normal_zero |].
    apply normal_range. unfold DBL_MIN, DBL_MAX. lra. }
  assert (Hny : normal rayDirY = true).
  { destruct Hy as [-> | Hy]; [apply normal_zero |].
    apply normal_range. unfold DBL_MIN, DBL_MAX. lra. }
  assert (Hsx : stepInRange rayDirX (hypoLength rayDirX rayDirY) = true).
  { destruct Hx as [-> | Hx]; [apply stepInRange_zero |].
    apply stepInRange_bounded; assumption. }
  assert (Hsy : stepInRange rayDirY (hypoLength rayDirX rayDirY) = true).
  { destruct Hy as [-> | Hy]; [apply stepInRange_zero |].
    apply stepInRange_bounded; assumption. }
  assert (Hsum : normal (rayDirX * rayDirX + rayDirY * rayDirY) = true).
  { rewrite (square_Rabs rayDirX), (square_Rabs rayDirY).
    pose proof (Rabs_pos rayDirX) as Hpx.
    pose proof (Rabs_pos rayDirY) as Hpy.
    destruct (square_bounds _ 0 1e100 (Rle_refl 0) (conj Hpx Hax))
      as [Ha1 Ha2].
    destruct (square_bounds _ 0 1e100 (Rle_refl 0) (conj Hpy Hay))
      as [Hb1 Hb2].
    destruct Hx as [-> | Hx]; [destruct Hy as [-> | Hy] |].
    - rewrite Rabs_R0. replace (0 * 0 + 0 * 0) with 0 by ring.
      apply normal_zero.
    - destruct (square_bounds _ 1e-100 1e100 ltac:(lra) Hy) as [Hc1 Hc2].
      apply normal_range. rewrite Rabs_right by lra.
      unfold DBL_MIN, DBL_MAX. lra.
    - destruct (square_bounds _ 1e-100 1e100 ltac:(lra) Hx) as [Hc1 Hc2].
      apply normal_range. rewrite Rabs_right by lra.
      unfold DBL_MIN, DBL_MAX. lra. }
  unfold inRange. rewrite Hnx, Hny, Hsum, Hsx, Hsy. reflexivity.
Qed.





(** A whole number of twentieths, as the components of the rays of the
    scenarios are, is zero or at least a twentieth in magnitude. *)
Lemma twentieths_bounded (k : Z) :
  (-1000 <= k <= 1000)%Z ->
  IZR k / 20 = 0 \/ 1e-100 <= Rabs (IZR k / 20) <= 1e100.
Proof.
  intros [Hlo Hhi]. apply IZR_le in Hlo, Hhi.
  destruct (Z.eq_dec k 0) as [-> | Hk]; [left; lra | right].
  destruct (Z_lt_le_dec k 0) as [Hneg | Hpos].
  - assert (H : IZR k <= -1) by (apply (IZR_le k (-1)); lia).
    rewrite Rabs_left by lra. lra.
  - assert (H : 1 <= IZR k) by (apply (IZR_le 1 k); lia).
    rewrite Rabs_right by lra. lra.
Qed.

Lemma raysInRange_column (c : Character) (screenWidth : Z) (k : nat) :
  raysInRange c screenWidth = true ->
  (k < Z.to_nat (screenWidth + 1))%nat ->
  columnInRange c screenWidth (Z.of_nat k) = true.
Proof.
  unfold raysInRange, columns. rewrite forallb_forall. intros H Hk.
  apply H, in_map, in_seq. lia.
Qed.

Lemma raysInRange_intro (c : Character) (screenWidth : Z) :
  (forall k, (k < Z.to_nat (screenWidth + 1))%nat ->
             columnInRange c screenWidth (Z.of_nat k) = true) ->
  raysInRange c screenWidth = true.
Proof.
  intros H. unfold raysInRange, columns. apply forallb_forall.
  intros i Hi. apply in_map_iff in Hi as (k & <- & Hk).
  apply in_seq in Hk. apply H. lia.
Qed.

(** ** What a hit reports *)

Lemma nonzero_true (v : Z) : nonzero v = true -> v <> 0%Z.
Proof. unfold nonzero. intros H ->. discriminate. Qed.

Lemma firstNonzero_found (worldMap : Grid) (cells : list (Z * Z)) (m : Z) :
  firstNonzero worldMap cells = Some (Some m) ->
  m <> 0%Z /\ exists y x, In (y, x) cells /\ cell worldMap y x = Some m.
Proof.
  induction cells as [| [y x] rest IH]; cbn [firstNonzero]; [discriminate |].
  destruct (cell worldMap y x) as [v |] eqn:Hc; cbv beta iota delta [bind];
    [| discriminate].
  destruct (nonzero v) eqn:Hv.
  - intros H. injection H as <-. split; [apply nonzero_true; exact Hv |].
    exists y, x. split; [left; reflexivity | exact Hc].
  - intros H. destruct (IH H) as (Hm & y' & x' & Hin & Hc').
    split; [exact Hm |]. exists y', x'. split; [right; exact Hin | exact Hc'].
Qed.

Lemma onGridLine_to_int (index : R) (z : Z) :
  onGridLine index = true -> to_int index = Some z -> z = Zfloor index.
Proof.
  unfold onGridLine. intros Hg Hz.
  destruct (Reqb_spec (floor index) index) as [Hf |]; [| discriminate].
  apply to_int_range in Hz as [-> _].
  rewrite <- Hf at 1. unfold floor. apply truncate_IZR.
Qed.

Lemma floor_to_int (index : R) (z : Z) :
  to_int (floor index) = Some z -> z = Zfloor index.
Proof.
  intros Hz. apply to_int_range in Hz as [-> _].
  unfold floor. apply truncate_IZR.
Qed.

Lemma checkForHit_miss (xIndex yIndex : R) (hitDetail h : hitDetails)
    (worldMap : Grid) :
  checkForHit xIndex yIndex hitDetail worldMap = Some (false, h) ->
  h = hitDetail.
Proof.
  rewrite checkForHit_classifyHit. unfold classifyHit, report.
  destruct (onGridLine xIndex && onGridLine yIndex);
    [| destruct (onGridLine xIndex); [| destruct (onGridLine yIndex)]];
    repeat match goal with
           | |- context [to_int ?r] => destruct (to_int r); cbv beta iota delta [bind]
           | |- context [firstNonzero ?w ?l] =>
               destruct (firstNonzero w l) as [[m |] |]; cbv beta iota delta [bind]
           end;
    intros H; try discriminate; injection H as <-; reflexivity.
Qed.

Lemma checkForHit_hit (xIndex yIndex : R) (hitDetail h : hitDetails)
    (worldMap : Grid) :
  checkForHit xIndex yIndex hitDetail worldMap = Some (true, h) ->
  distance h = distance hitDetail /\
  color h <> 0%Z /\
  (onGridLine xIndex = true \/ onGridLine yIndex = true) /\
  exists dy dx,
    In (dy, dx) cornerOffsets /\
    cell worldMap (Zfloor yIndex + dy) (Zfloor xIndex + dx) = Some (color h).
Proof.
  rewrite checkForHit_classifyHit. unfold classifyHit, report.
  destruct (onGridLine xIndex) eqn:Hgx, (onGridLine yIndex) eqn:Hgy;
    cbv beta iota delta [andb]; try discriminate.
  - destruct (to_int xIndex) as [x |] eqn:Hx; [| discriminate].
    destruct (to_int yIndex) as [y |] eqn:Hy; [| discriminate].
    apply (onGridLine_to_int _ _ Hgx) in Hx.
    apply (onGridLine_to_int _ _ Hgy) in Hy. subst x y.
    cbv beta iota delta [bind].
    destruct (firstNonzero _ _) as [[m |] |] eqn:Hf; try discriminate.
    intros H. injection H as <-.
    apply firstNonzero_found in Hf as (Hm & y & x & Hin & Hc).
    repeat split; [exact Hm | left; reflexivity |].
    unfold cornerOffsets.
    cbn [In] in Hin.
    destruct Hin as [E | [E | [E | [E | []]]]]; injection E as <- <-.
    + exists 0%Z, 0%Z. rewrite !Z.add_0_r. split; [cbn; auto | exact Hc].
    + exists (-1)%Z, (-1)%Z. split; [cbn; auto | exact Hc].
    + exists 0%Z, (-1)%Z. rewrite Z.add_0_r. split; [cbn; auto | exact Hc].
    + exists (-1)%Z, 0%Z. rewrite Z.add_0_r. split; [cbn; auto | exact Hc].
  - destruct (to_int xIndex) as [x |] eqn:Hx; [| discriminate].
    destruct (to_int (floor yIndex)) as [y |] eqn:Hy; [| discriminate].
    apply (onGridLine_to_int _ _ Hgx) in Hx.
    apply floor_to_int in Hy. subst x y.
    cbv beta iota delta [bind].
    destruct (firstNonzero _ _) as [[m |] |] eqn:Hf; try discriminate.
    intros H. injection H as <-.
    apply firstNonzero_found in Hf as (Hm & y & x & Hin & Hc).
    repeat split; [exact Hm | left; reflexivity |].
    cbn [In] in Hin.
    destruct Hin as [E | [E | []]]; injection E as <- <-.
    + exists 0%Z, 0%Z. rewrite !Z.add_0_r. split; [cbn; auto | exact Hc].
    + exists 0%Z, (-1)%Z. rewrite Z.add_0_r. split; [cbn; auto | exact Hc].
  - destruct (to_int yIndex) as [y |] eqn:Hy; [| discriminate].
    destruct (to_int (floor xIndex)) as [x |] eqn:Hx; [| discriminate].
    apply (onGridLine_to_int _ _ Hgy) in Hy.
    apply floor_to_int in Hx. subst x y.
    cbv beta iota delta [bind].
    destruct (firstNonzero _ _) as [[m |] |] eqn:Hf; try discriminate.
    intros H. injection H as <-.
    apply firstNonzero_found in Hf as (Hm & y & x & Hin & Hc).
    repeat split; [exact Hm | right; reflexivity |].
    cbn [In] in Hin.
    destruct Hin as [E | [E | []]]; injection E as <- <-.
    + exists 0%Z, 0%Z. rewrite !Z.add_0_r. split; [cbn; auto | exact Hc].
    + exists (-1)%Z, 0%Z. rewrite Z.add_0_r. split; [cbn; auto | exact Hc].
Qed.

(** ** The traversal loop *)

(** What the loop leaves behind: the position it stops at is classified
    as a hit, from the fresh [hitDetails] the column started with. *)
Lemma whileNotHit_final (fuel : nat) (worldMap : Grid) (i : Z)
    (hits : list hitDetails) (r : Ray) (t0 t : Traversal) :
  whileNotHit fuel worldMap i hits r t0 = Some t ->
  exists raw,
    checkForHit (IZR (mapX t) / 32) (IZR (mapY t) / 32) (temp t0) worldMap
    = Some (true, raw) /\
    inheritAlignment i hits raw = Some (temp t).
Proof.
  revert t0. induction fuel as [| fuel IH]; intros t0; cbn [whileNotHit];
    [discriminate |].
  unfold loopBody.
  destruct (advance (mapX t0) _ (rayDeltaX r)) as [x' |];
    cbv beta iota delta [bind]; [| discriminate].
  destruct (advance (mapY t0) _ (rayDeltaY r)) as [y' |];
    cbv beta iota delta [bind]; [| discriminate].
  destruct (checkForHit (IZR x' / 32) (IZR y' / 32) (temp t0) worldMap)
    as [[hit raw] |] eqn:Hc; cbv beta iota delta [bind]; [| discriminate].
  destruct hit.
  - rewrite andb_true_r.
    destruct (if negb (i =? 0)%Z && Alignment_eqb (alignment raw) unknown
              then _ else _) as [h |] eqn:Hi; cbv beta iota delta [bind];
      [| discriminate].
    intros H. injection H as <-. cbn [mapX mapY temp].
    exists raw. split; [exact Hc | exact Hi].
  - rewrite andb_false_r. cbv beta iota delta [andb bind].
    apply checkForHit_miss in Hc. subst raw.
    intros H. apply IH in H. cbn [temp] in H. exact H.
Qed.

Lemma whileNotHit_more_fuel (fuel extra : nat) (worldMap : Grid) (i : Z)
    (hits : list hitDetails) (r : Ray) (t0 t : Traversal) :
  whileNotHit fuel worldMap i hits r t0 = Some t ->
  whileNotHit (fuel + extra) worldMap i hits r t0 = Some t.
Proof.
  revert t0. induction fuel as [| fuel IH]; intros t0; cbn [whileNotHit Nat.add];
    [discriminate |].
  destruct (loopBody worldMap i hits r t0) as [[hit t'] |];
    cbv beta iota delta [bind]; [| discriminate].
  destruct hit; [auto | apply IH].
Qed.

(** ** One column *)

Lemma castColumn_result (fuel : nat) (c : Character) (screenWidth : Z)
    (worldMap : Grid) (i : Z) (hits : list hitDetails)
    (p : Vector2f) (h : hitDetails) :
  castColumn fuel c screenWidth worldMap i hits = Some (p, h) ->
  screenWidth <> 0%Z /\
  exists (x y : Z) (raw recorded : hitDetails),
    p = mkVec (IZR x) (IZR y) /\
    checkForHit (IZR x / 32) (IZR y / 32) defaultHit worldMap = Some (true, raw) /\
    inheritAlignment i hits raw = Some recorded /\
    h = set_distance recorded
          (euclid (vx (center c)) (vy (center c)) (IZR x) (IZR y)).
Proof.
  unfold castColumn.
  destruct (screenWidth =? 0)%Z eqn:Hsw; [discriminate |].
  apply Z.eqb_neq in Hsw.
  destruct (to_int (vx (center c))) as [x0 |]; cbv beta iota delta [bind];
    [| discriminate].
  destruct (to_int (vy (center c))) as [y0 |]; cbv beta iota delta [bind];
    [| discriminate].
  cbv zeta. destruct (inRange _ _); [| discriminate].
  destruct (whileNotHit _ _ _ _ _ _) as [t |] eqn:Hw; [| discriminate].
  intros H. injection H as <- <-.
  apply whileNotHit_final in Hw as (raw & Hc & Hi). cbn [temp] in Hc.
  split; [exact Hsw |].
  exists (mapX t), (mapY t), raw, (temp t). auto.
Qed.

(** ** The whole pass *)

Lemma pushColumn_none (fuel : nat) (c : Character) (screenWidth : Z)
    (worldMap : Grid) (cols : list Z) :
  fold_left (pushColumn fuel c screenWidth worldMap) cols None = None.
Proof. induction cols as [| i cols IH]; [reflexivity | exact IH]. Qed.

(** After the first [n] columns, [rayCasts] and [hits] hold one entry per
    column, in column order, and entry [i] is what column [i] computed from
    the entries before it. *)
Lemma calcRays_prefix (fuel : nat) (c : Character) (screenWidth : Z)
    (worldMap : Grid) (n : nat) (rays : list Vector2f) (hs : list hitDetails) :
  fold_left (pushColumn fuel c screenWidth worldMap)
    (map Z.of_nat (seq 0 n)) (Some ([], [])) = Some (rays, hs) ->
  length rays = n /\ length hs = n /\
  forall i, (i < n)%nat ->
    exists p h,
      nth_error rays i = Some p /\ nth_error hs i = Some h /\
      castColumn fuel c screenWidth worldMap (Z.of_nat i) (firstn i hs)
      = Some (p, h).
Proof.
  revert rays hs. induction n as [| n IH]; intros rays hs.
  - cbn. intros H. injection H as <- <-. repeat split; intros; lia.
  - rewrite seq_S, map_app, fold_left_app. cbn [map fold_left Nat.add].
    destruct (fold_left _ (map Z.of_nat (seq 0 n)) (Some ([], [])))
      as [[rays0 hs0] |] eqn:Hfold; [| discriminate].
    destruct (IH rays0 hs0 eq_refl) as (Hlr & Hlh & Hcols).
    unfold pushColumn at 1. cbv beta iota delta [bind].
    destruct (castColumn fuel c screenWidth worldMap (Z.of_nat n) hs0)
      as [[p h] |] eqn:Hcast; [| discriminate].
    intros H. injection H as <- <-.
    rewrite !length_app, Hlr, Hlh. cbn [length].
    repeat split; try lia.
    intros i Hi. destruct (Nat.eq_dec i n) as [-> | Hne].
    + exists p, h.
      rewrite !nth_error_app2 by lia. rewrite Hlr, Hlh, Nat.sub_diag.
      repeat split.
      rewrite firstn_app, Hlh, Nat.sub_diag, firstn_O, app_nil_r.
      rewrite firstn_all2 by lia. exact Hcast.
    + destruct (Hcols i ltac:(lia)) as (p' & h' & Hp & Hh & Hc).
      exists p', h'.
      rewrite !nth_error_app1 by lia. repeat split; try assumption.
      rewrite firstn_app, Hlh.
      replace (i - n)%nat with 0%nat by lia.
      rewrite firstn_O, app_nil_r.
      rewrite <- Hc. f_equal.
Qed.

Lemma calcRays_columns (fuel : nat) (c : Character) (screenWidth : Z)
    (worldMap : Grid) (rays : list Vector2f) (hs : list hitDetails) :
  calcRays fuel c screenWidth worldMap = Some (rays, hs) ->
  length rays = Z.to_nat (screenWidth + 1) /\
  length hs = Z.to_nat (screenWidth + 1) /\
  forall i, (i < Z.to_nat (screenWidth + 1))%nat ->
    exists p h,
      nth_error rays i = Some p /\ nth_error hs i = Some h /\
      castColumn fuel c screenWidth worldMap (Z.of_nat i) (firstn i hs)
      = Some (p, h).
Proof. unfold calcRays, columns. apply calcRays_prefix. Qed.

(** C6: the distance recorded for a column is the straight-line distance
    sqrt((startX-endX)^2 + (startY-endY)^2) from the viewpoint's position
    to the struck position pushed on [rayCasts] for that column. *)
Theorem calcRays_distance_is_euclidean (fuel : nat) (c : Character)
    (screenWidth : Z) (worldMap : Grid)
    (rays : list Vector2f) (hs : list hitDetails) :
  calcRays fuel c screenWidth worldMap = Some (rays, hs) ->
  forall (i : nat) (p : Vector2f) (h : hitDetails),
    nth_error rays i = Some p -> nth_error hs i = Some h ->
    distance h
    = sqrt ((vx (center c) - vx p) * (vx (center c) - vx p)
            + (vy (center c) - vy p) * (vy (center c) - vy p)).
Proof.
  intros Hcalc i p h Hp Hh.
  destruct (calcRays_columns _ _ _ _ _ _ Hcalc) as (Hlr & _ & Hcols).
  assert (Hi : (i < Z.to_nat (screenWidth + 1))%nat).
  { rewrite <- Hlr. apply nth_error_Some. rewrite Hp. discriminate. }
  destruct (Hcols i Hi) as (p' & h' & Hp' & Hh' & Hcast).
  rewrite Hp in Hp'. injection Hp' as <-.
  rewrite Hh in Hh'. injection Hh' as <-.
  apply castColumn_result in Hcast
    as (_ & x & y & raw & recorded & -> & _ & _ & ->).
  reflexivity.
Qed.

(** C7: when the struck position of column [i] is classified as a hit with
    orientation still unknown, column 0 records unknown and a column
    [i > 0] records the orientation of the result of column [i - 1]. *)
Theorem calcRays_unknown_inherits_previous (fuel : nat) (c : Character)
    (screenWidth : Z) (worldMap : Grid)
    (rays : list Vector2f) (hs : list hitDetails) :
  calcRays fuel c screenWidth worldMap = Some (rays, hs) ->
  forall (i : nat) (p : Vector2f) (h raw : hitDetails),
    nth_error rays i = Some p -> nth_error hs i = Some h ->
    checkForHit (vx p / 32) (vy p / 32) defaultHit worldMap = Some (true, raw) ->
    alignment raw = unknown ->
    (i = 0%nat -> alignment h = unknown) /\
    ((0 < i)%nat ->
     exists prev, nth_error hs (i - 1) = Some prev /\
                  alignment h = alignment prev).
Proof.
  intros Hcalc i p h raw Hp Hh Hraw Hunk.
  destruct (calcRays_columns _ _ _ _ _ _ Hcalc) as (Hlr & _ & Hcols).
  assert (Hi : (i < Z.to_nat (screenWidth + 1))%nat).
  { rewrite <- Hlr. apply nth_error_Some. rewrite Hp. discriminate. }
  destruct (Hcols i Hi) as (p' & h' & Hp' & Hh' & Hcast).
  rewrite Hp in Hp'. injection Hp' as <-.
  rewrite Hh in Hh'. injection Hh' as <-.
  apply castColumn_result in Hcast
    as (_ & x & y & raw' & recorded & -> & Hc & Hin & ->).
  cbn [vx vy] in Hraw. rewrite Hc in Hraw. injection Hraw as ->.
  unfold inheritAlignment in Hin. rewrite Hunk in Hin.
  cbn [Alignment_eqb] in Hin. rewrite andb_true_r in Hin.
  split.
  - intros ->. cbn in Hin. injection Hin as <-. exact Hunk.
  - intros Hpos.
    replace (Z.of_nat i =? 0)%Z with false in Hin
      by (symmetry; apply Z.eqb_neq; lia).
    cbv beta iota delta [negb] in Hin.
    replace (Z.to_nat (Z.of_nat i - 1)) with (i - 1)%nat in Hin by lia.
    rewrite nth_error_firstn in Hin.
    replace (i - 1 <? i)%nat with true in Hin
      by (symmetry; apply Nat.ltb_lt; lia).
    destruct (nth_error hs (i - 1)) as [prev |]; [| discriminate].
    cbv beta iota delta [bind] in Hin. injection Hin as <-.
    exists prev. split; reflexivity.
Qed.

(** ** Positions in world units and cells *)

Lemma IZR_div32_split (a : Z) :
  IZR a = 32 * IZR (a / 32) + IZR (a mod 32) /\ 0 <= IZR (a mod 32) < 32.
Proof.
  pose proof (Z.div_mod a 32 ltac:(lia)) as Hdm.
  pose proof (Z.mod_pos_bound a 32 ltac:(lia)) as [Hlo Hhi].
  split.
  - rewrite Hdm at 1. rewrite plus_IZR, mult_IZR. reflexivity.
  - apply IZR_le in Hlo. apply IZR_lt in Hhi. lra.
Qed.

Lemma Zfloor_div32 (a : Z) : Zfloor (IZR a / 32) = (a / 32)%Z.
Proof.
  destruct (IZR_div32_split a) as [Heq Hb].
  apply Zfloor_eq. lra.
Qed.

Lemma onGridLine_div32 (a : Z) :
  onGridLine (IZR a / 32) = (a mod 32 =? 0)%Z.
Proof.
  unfold onGridLine, floor. rewrite Zfloor_div32.
  destruct (IZR_div32_split a) as [Heq Hb].
  destruct (Z.eqb_spec (a mod 32) 0) as [Hz | Hnz].
  - apply Reqb_true. rewrite Hz in Heq. lra.
  - apply Reqb_false. intros H.
    assert (H0 : IZR (a mod 32) = IZR 0) by lra.
    apply eq_IZR in H0. contradiction.
Qed.

Lemma IZR_div32_exact (a : Z) :
  (a mod 32 = 0)%Z -> IZR a / 32 = IZR (a / 32).
Proof.
  intros Hz. destruct (IZR_div32_split a) as [Heq _].
  rewrite Hz in Heq. lra.
Qed.

Lemma to_int_floor_div32 (a : Z) :
  (INT_MIN <= a / 32 <= INT_MAX)%Z ->
  to_int (floor (IZR a / 32)) = Some (a / 32)%Z.
Proof.
  intros H. unfold floor. rewrite Zfloor_div32. apply to_int_IZR; exact H.
Qed.

Lemma to_int_div32 (a : Z) :
  (a mod 32 = 0)%Z -> (INT_MIN <= a / 32 <= INT_MAX)%Z ->
  to_int (IZR a / 32) = Some (a / 32)%Z.
Proof.
  intros Hz H. rewrite IZR_div32_exact by exact Hz. apply to_int_IZR; exact H.
Qed.

Lemma to_int_plus (m n : Z) :
  (INT_MIN <= m + n <= INT_MAX)%Z ->
  to_int (IZR m + IZR n) = Some (m + n)%Z.
Proof. intros H. rewrite <- plus_IZR. apply to_int_IZR; exact H. Qed.

(** ** Rounding *)

Lemma round_magnitude (a : R) (k : Z) :
  0 <= a <= IZR k ->
  exists n : Z,
    (0 <= n <= k)%Z /\ round a = IZR n /\ round (a * -1) = IZR (- n) /\
    (a = IZR k -> n = k).
Proof.
  intros [Ha Hk].
  exists (Zfloor (a + / 2)).
  pose proof (Zfloor_bound (a + / 2)) as [Hlo Hhi].
  assert (Hn0 : (0 <= Zfloor (a + / 2))%Z) by (apply Zfloor_lub; lra).
  assert (Hnk : (Zfloor (a + / 2) <= k)%Z).
  { apply Z.lt_succ_r. apply lt_IZR. rewrite succ_IZR. lra. }
  repeat split; try assumption.
  - unfold round. rewrite Rleb_true by exact Ha. reflexivity.
  - unfold round. destruct (Rleb_spec 0 (a * -1)) as [H | H].
    + assert (a = 0) by lra. subst a.
      replace (0 * -1 + / 2) with (0 + / 2) by lra.
      assert (Hz : Zfloor (0 + / 2) = 0%Z) by (apply Zfloor_eq; lra).
      rewrite Hz. reflexivity.
    + unfold Zceil. f_equal. f_equal. f_equal. lra.
  - intros ->. apply Zfloor_eq. lra.
Qed.

(** ** Advancing one coordinate *)

Lemma adjustment_magnitude (adj dd : R) (k : Z) :
  dd <> 0 -> Rabs adj <= IZR k / 32 * Rabs dd ->
  0 <= Rabs (adj / dd * 32) <= IZR k.
Proof.
  intros Hdd Hadj. split; [apply Rabs_pos |].
  pose proof (Rabs_pos_lt dd Hdd) as Hpos.
  unfold Rdiv. rewrite !Rabs_mult, Rabs_inv, (Rabs_right 32) by lra.
  apply Rmult_le_reg_r with (r := Rabs dd / 32); [lra |].
  replace (Rabs adj * / Rabs dd * 32 * (Rabs dd / 32)) with (Rabs adj)
    by (field; lra).
  lra.
Qed.

Lemma adjustment_exact (dd : R) (k : Z) :
  dd <> 0 -> (0 <= k)%Z -> Rabs (IZR k / 32 * dd / dd * 32) = IZR k.
Proof.
  intros Hdd Hk. apply IZR_le in Hk.
  replace (IZR k / 32 * dd / dd * 32) with (IZR k) by (field; exact Hdd).
  apply Rabs_right. lra.
Qed.

Lemma advance_within (m : Z) (adj dd : R) (k : Z) :
  dd <> 0 -> (0 <= k)%Z -> Rabs adj <= IZR k / 32 * Rabs dd ->
  exists n : Z,
    (0 <= n <= k)%Z /\
    advance m adj dd = to_int (IZR m + IZR (stepSign dd * n)) /\
    (adj = IZR k / 32 * dd -> n = k).
Proof.
  intros Hdd Hk Hadj.
  pose proof (adjustment_magnitude adj dd k Hdd Hadj) as Hmag.
  destruct (round_magnitude _ k Hmag) as (n & Hn & Hr & Hrn & Hexact).
  exists n. split; [exact Hn |]. split.
  - unfold advance, stepSign. destruct (Rltb 0 dd).
    + rewrite Rmult_1_r, Hr. replace (1 * n)%Z with n by lia. reflexivity.
    + rewrite Hrn. replace (-1 * n)%Z with (- n)%Z by lia. reflexivity.
  - intros ->. apply Hexact. apply adjustment_exact; assumption.
Qed.

(** ** Solid borders *)

Lemma in_indices (n i : Z) : In i (indices n) <-> (0 <= i < n)%Z.
Proof.
  unfold indices. rewrite in_map_iff. split.
  - intros (k & <- & Hk). apply in_seq in Hk. lia.
  - intros H. exists (Z.to_nat i). split; [lia | apply in_seq; lia].
Qed.

Lemma closedGrid_cell (worldMap : Grid) (width height y x : Z) :
  closedGrid worldMap width height = true ->
  (0 <= y < height)%Z -> (0 <= x < width)%Z ->
  exists v, cell worldMap y x = Some v /\
            (onBorder width height y x = true -> v <> 0%Z).
Proof.
  unfold closedGrid. intros Hg Hy Hx.
  rewrite forallb_forall in Hg.
  specialize (Hg y (proj2 (in_indices _ _) Hy)).
  rewrite forallb_forall in Hg.
  specialize (Hg x (proj2 (in_indices _ _) Hx)).
  destruct (cell worldMap y x) as [v |]; [| discriminate].
  exists v. split; [reflexivity |].
  intros Hb. rewrite Hb in Hg. apply nonzero_true; exact Hg.
Qed.

(** ** One coordinate of the traversal *)

Lemma stepSign_cases (rayDir dd : R) :
  directed rayDir dd ->
  (rayDir < 0 /\ dd < 0 /\ stepSign dd = (-1)%Z /\ Rltb 0 dd = false) \/
  (0 <= rayDir /\ 0 < dd /\ stepSign dd = 1%Z /\ Rltb 0 dd = true).
Proof.
  intros [Hnz Hs]. unfold stepSign.
  destruct (Rlt_le_dec rayDir 0) as [Hneg | Hpos].
  - left. assert (dd < 0) by (apply Hs; exact Hneg).
    rewrite Rltb_false by lra. auto.
  - right. assert (0 < dd).
    { destruct (Rtotal_order dd 0) as [H | [H | H]]; [| contradiction | exact H].
      apply Hs in H. lra. }
    rewrite Rltb_true by assumption. auto.
Qed.

Lemma axisInv_initial (size : Z) (rayDir dd : R) (m : Z) :
  directed rayDir dd ->
  (32 <= m < 32 * (size - 1))%Z ->
  axisInv 0 size dd m (initialSideDist m rayDir dd).
Proof.
  intros Hd Hm.
  assert (Hrem : Z.rem m 32 = (m mod 32)%Z)
    by (apply Z.rem_mod_nonneg; lia).
  pose proof (Z.mod_pos_bound m 32 ltac:(lia)) as Hb.
  pose proof (Z.div_mod m 32 ltac:(lia)) as Hdm.
  unfold initialSideDist, axisInv. rewrite Hrem.
  destruct (stepSign_cases _ _ Hd) as [(Hr & Hdd & -> & _) | (Hr & Hdd & -> & _)].
  - rewrite Rltb_true by exact Hr.
    exists (m mod 32)%Z. repeat split; try lia.
    replace (m + -1 * (m mod 32))%Z with (32 * (m / 32))%Z by lia.
    rewrite Z.mul_comm. apply Z_mod_mult.
  - rewrite Rltb_false by exact Hr.
    exists (32 - m mod 32)%Z. repeat split; try lia.
    + rewrite minus_IZR. reflexivity.
    + replace (m + 1 * (32 - m mod 32))%Z with ((m / 32 + 1) * 32)%Z by lia.
      apply Z_mod_mult.
Qed.

Lemma axisInv_recomputed (size : Z) (rayDir dd : R) (m : Z) :
  directed rayDir dd ->
  (32 < m < 32 * (size - 1))%Z ->
  axisInv 1 size dd m (calcNewDistance m rayDir dd).
Proof.
  intros Hd Hm.
  destruct (calcNewDistance_steps m rayDir dd ltac:(lia))
    as (k & Hk & Heq & Hneg & Hpos).
  exists k. split; [exact Hk |]. split; [exact Heq |]. split; [lia |].
  destruct (stepSign_cases _ _ Hd) as [(Hr & Hdd & -> & _) | (Hr & Hdd & -> & _)].
  - specialize (Hneg Hr).
    replace (m + -1 * k)%Z with (m - k)%Z by lia.
    split; [exact Hneg |].
    apply Z.mod_divide in Hneg; [| lia]. destruct Hneg as [q Hq]. lia.
  - specialize (Hpos Hr).
    replace (m + 1 * k)%Z with (m + k)%Z by lia.
    split; [exact Hpos |].
    apply Z.mod_divide in Hpos; [| lia]. destruct Hpos as [q Hq]. lia.
Qed.

(** Advancing by at most the side distance stays between the border
    lines; advancing by exactly the side distance reaches a grid line. *)
Lemma axisInv_advance (lo size : Z) (rayDir dd : R) (m : Z) (sd adj : R) :
  directed rayDir dd ->
  (0 <= lo)%Z -> (32 * size <= INT_MAX)%Z ->
  axisInv lo size dd m sd ->
  Rabs adj <= Rabs sd ->
  exists m' : Z,
    advance m adj dd = Some m' /\
    (32 <= m' <= 32 * (size - 1))%Z /\
    (axisRemaining size dd m' <= axisRemaining size dd m)%Z /\
    (0 <= axisRemaining size dd m')%Z /\
    (adj = sd ->
     (m' mod 32 = 0)%Z /\
     (axisRemaining size dd m' + lo <= axisRemaining size dd m)%Z).
Proof.
  intros Hd Hlo Hmax (k & Hk & Hsd & Hm & Hmod & Htgt) Hadj.
  assert (Hdd : dd <> 0) by (destruct Hd; assumption).
  assert (Hk0 : (0 <= k)%Z) by lia.
  assert (Habs : Rabs adj <= IZR k / 32 * Rabs dd).
  { rewrite Hsd, Rabs_mult in Hadj.
    rewrite (Rabs_right (IZR k / 32)) in Hadj; [exact Hadj |].
    apply IZR_le in Hk0. lra. }
  destruct (advance_within m adj dd k Hdd Hk0 Habs) as (n & Hn & Hadv & Hex).
  exists (m + stepSign dd * n)%Z.
  unfold axisRemaining.
  unfold INT_MAX in Hmax.
  destruct (stepSign_cases _ _ Hd) as [(Hr & Hdd' & Hs & Hb) | (Hr & Hdd' & Hs & Hb)];
    rewrite Hs in *; rewrite Hb.
  - split.
    { rewrite Hadv. rewrite to_int_plus; [reflexivity |].
      unfold INT_MIN, INT_MAX. lia. }
    repeat split; try lia.
    + rewrite Hsd in H. specialize (Hex H). subst n. exact Hmod.
    + rewrite Hsd in H. specialize (Hex H). lia.
  - split.
    { rewrite Hadv. rewrite to_int_plus; [reflexivity |].
      unfold INT_MIN, INT_MAX. lia. }
    repeat split; try lia.
    + rewrite Hsd in H. specialize (Hex H). subst n. exact Hmod.
    + rewrite Hsd in H. specialize (Hex H). lia.
Qed.

(** ** Hit classification inside a closed grid *)

Lemma firstNonzero_in_bounds (worldMap : Grid) (cells : list (Z * Z)) :
  (forall y x, In (y, x) cells -> exists v, cell worldMap y x = Some v) ->
  exists found,
    firstNonzero worldMap cells = Some found /\
    (found = None ->
     forall y x, In (y, x) cells -> cell worldMap y x = Some 0%Z).
Proof.
  induction cells as [| [y x] rest IH]; intros Hall; cbn [firstNonzero].
  - exists None. split; [reflexivity |]. intros _ y x [].
  - destruct (Hall y x (or_introl eq_refl)) as [v Hv].
    rewrite Hv. cbv beta iota delta [bind].
    destruct (nonzero v) eqn:Hnz.
    + exists (Some v). split; [reflexivity | discriminate].
    + destruct IH as (found & Hf & Hnone).
      { intros y' x' Hin. apply Hall. right; exact Hin. }
      exists found. split; [exact Hf |].
      intros Hfound y' x' [E | Hin].
      * injection E as <- <-. rewrite Hv. f_equal.
        unfold nonzero in Hnz. apply negb_false_iff, Z.eqb_eq in Hnz. exact Hnz.
      * apply Hnone; assumption.
Qed.

Lemma closedGrid_empty_cell (worldMap : Grid) (width height y x : Z) :
  closedGrid worldMap width height = true ->
  (0 <= y < height)%Z -> (0 <= x < width)%Z ->
  cell worldMap y x = Some 0%Z ->
  (0 < y < height - 1)%Z /\ (0 < x < width - 1)%Z.
Proof.
  intros Hg Hy Hx Hc.
  destruct (closedGrid_cell _ _ _ _ _ Hg Hy Hx) as (v & Hv & Hb).
  rewrite Hc in Hv. injection Hv as <-.
  unfold onBorder in Hb.
  destruct (Z.eqb_spec y 0); [exfalso; apply Hb; reflexivity |].
  destruct (Z.eqb_spec y (height - 1)); [exfalso; apply Hb; reflexivity |].
  destruct (Z.eqb_spec x 0); [exfalso; apply Hb; reflexivity |].
  destruct (Z.eqb_spec x (width - 1)); [exfalso; apply Hb; reflexivity |].
  lia.
Qed.

(** Between the border lines every classification has a result, and a
    position that is not a hit lies strictly between them. *)
Lemma checkForHit_closed (worldMap : Grid) (width height x' y' : Z)
    (hitDetail : hitDetails) :
  closedGrid worldMap width height = true ->
  (32 * width <= INT_MAX)%Z -> (32 * height <= INT_MAX)%Z ->
  (32 <= x' <= 32 * (width - 1))%Z ->
  (32 <= y' <= 32 * (height - 1))%Z ->
  exists hit h,
    checkForHit (IZR x' / 32) (IZR y' / 32) hitDetail worldMap = Some (hit, h) /\
    (hit = false ->
     (32 < x' < 32 * (width - 1))%Z /\ (32 < y' < 32 * (height - 1))%Z).
Proof.
  intros Hg Hw Hh Hx Hy. unfold INT_MAX in Hw, Hh.
  pose proof (Z.div_mod x' 32 ltac:(lia)) as Hdx.
  pose proof (Z.mod_pos_bound x' 32 ltac:(lia)) as Hbx.
  pose proof (Z.div_mod y' 32 ltac:(lia)) as Hdy.
  pose proof (Z.mod_pos_bound y' 32 ltac:(lia)) as Hby.
  assert (Hrx : (INT_MIN <= x' / 32 <= INT_MAX)%Z)
    by (unfold INT_MIN, INT_MAX; lia).
  assert (Hry : (INT_MIN <= y' / 32 <= INT_MAX)%Z)
    by (unfold INT_MIN, INT_MAX; lia).
  rewrite checkForHit_classifyHit. unfold classifyHit.
  rewrite !onGridLine_div32.
  assert (Hcell : forall y x, (0 <= y < height)%Z -> (0 <= x < width)%Z ->
                              exists v, cell worldMap y x = Some v).
  { intros y x Hy' Hx'.
    destruct (closedGrid_cell _ _ _ _ _ Hg Hy' Hx') as (v & Hv & _).
    exists v; exact Hv. }
  destruct (Z.eqb_spec (x' mod 32) 0) as [Hmx | Hmx];
    destruct (Z.eqb_spec (y' mod 32) 0) as [Hmy | Hmy];
    cbv beta iota delta [andb].
  - rewrite (to_int_div32 x' Hmx Hrx), (to_int_div32 y' Hmy Hry).
    cbv beta iota delta [bind].
    destruct (firstNonzero_in_bounds worldMap
                [(y' / 32, x' / 32); (y' / 32 - 1, x' / 32 - 1);
                 (y' / 32, x' / 32 - 1); (y' / 32 - 1, x' / 32)]%Z)
      as (found & -> & Hnone).
    { intros y x Hin. cbn [In] in Hin.
      destruct Hin as [E | [E | [E | [E | []]]]]; injection E as <- <-;
        apply Hcell; lia. }
    destruct found as [m |]; cbn [report].
    + eexists _, _. split; [reflexivity | discriminate].
    + eexists _, _. split; [reflexivity |]. intros _.
      specialize (Hnone eq_refl).
      pose proof (Hnone _ _ (or_introl eq_refl)) as H1.
      pose proof (Hnone _ _ (or_intror (or_introl eq_refl))) as H2.
      apply (closedGrid_empty_cell _ _ _ _ _ Hg) in H1; [| lia | lia].
      apply (closedGrid_empty_cell _ _ _ _ _ Hg) in H2; [| lia | lia].
      lia.
  - rewrite (to_int_div32 x' Hmx Hrx), (to_int_floor_div32 y' Hry).
    cbv beta iota delta [bind].
    destruct (firstNonzero_in_bounds worldMap
                [(y' / 32, x' / 32); (y' / 32, x' / 32 - 1)]%Z)
      as (found & -> & Hnone).
    { intros y x Hin. cbn [In] in Hin.
      destruct Hin as [E | [E | []]]; injection E as <- <-; apply Hcell; lia. }
    destruct found as [m |]; cbn [report].
    + eexists _, _. split; [reflexivity | discriminate].
    + eexists _, _. split; [reflexivity |]. intros _.
      specialize (Hnone eq_refl).
      pose proof (Hnone _ _ (or_introl eq_refl)) as H1.
      pose proof (Hnone _ _ (or_intror (or_introl eq_refl))) as H2.
      apply (closedGrid_empty_cell _ _ _ _ _ Hg) in H1; [| lia | lia].
      apply (closedGrid_empty_cell _ _ _ _ _ Hg) in H2; [| lia | lia].
      lia.
  - rewrite (to_int_div32 y' Hmy Hry), (to_int_floor_div32 x' Hrx).
    cbv beta iota delta [bind].
    destruct (firstNonzero_in_bounds worldMap
                [(y' / 32, x' / 32); (y' / 32 - 1, x' / 32)]%Z)
      as (found & -> & Hnone).
    { intros y x Hin. cbn [In] in Hin.
      destruct Hin as [E | [E | []]]; injection E as <- <-; apply Hcell; lia. }
    destruct found as [m |]; cbn [report].
    + eexists _, _. split; [reflexivity | discriminate].
    + eexists _, _. split; [reflexivity |]. intros _.
      specialize (Hnone eq_refl).
      pose proof (Hnone _ _ (or_introl eq_refl)) as H1.
      pose proof (Hnone _ _ (or_intror (or_introl eq_refl))) as H2.
      apply (closedGrid_empty_cell _ _ _ _ _ Hg) in H1; [| lia | lia].
      apply (closedGrid_empty_cell _ _ _ _ _ Hg) in H2; [| lia | lia].
      lia.
  - exists false, hitDetail. split; [reflexivity |]. intros _. lia.
Qed.

(** ** The traversal inside a closed grid *)

Lemma axisInv_remaining (lo size : Z) (dd : R) (m : Z) (sd : R) :
  axisInv lo size dd m sd -> (0 <= axisRemaining size dd m)%Z.
Proof.
  intros (k & _ & _ & Hm & _). unfold axisRemaining.
  destruct (Rltb 0 dd); lia.
Qed.

Lemma rayOf_wellDirected (c : Character) (cameraX : R) :
  wellDirected (rayOf c cameraX).
Proof.
  unfold wellDirected, directed, rayOf; cbn [rayDirX rayDirY rayDeltaX rayDeltaY].
  split.
  - destruct (deltaDistX_sign (dirX c + cameraPlaneX c * cameraX)
                              (dirY c + cameraPlaneY c * cameraX))
      as (Hnz & Hneg & _). auto.
  - destruct (deltaDistY_sign (dirX c + cameraPlaneX c * cameraX)
                              (dirY c + cameraPlaneY c * cameraX))
      as (Hnz & Hneg & _). auto.
Qed.

Section ClosedGrid.

Variables (worldMap : Grid) (width height : Z).
Hypothesis closed : closedGrid worldMap width height = true.
Hypothesis widthFits : (32 * width <= INT_MAX)%Z.
Hypothesis heightFits : (32 * height <= INT_MAX)%Z.

Variables (i : Z) (hs : list hitDetails) (r : Ray).
Hypothesis column : (0 <= i <= Z.of_nat (length hs))%Z.
Hypothesis directedRay : wellDirected r.

(** One iteration has a result; when it is not a hit the invariant holds
    again with side distances of at least one world unit, and the
    variant has decreased by the smaller side distance. *)
Lemma loopBody_closed (lo : Z) (t : Traversal) :
  (0 <= lo)%Z ->
  inside lo width height r t ->
  exists hit t',
    loopBody worldMap i hs r t = Some (hit, t') /\
    (hit = false ->
     inside 1 width height r t' /\
     (remaining width height r t' + lo <= remaining width height r t)%Z).
Proof.
  intros Hlo [Hx Hy]. destruct directedRay as [Hdx Hdy].
  unfold loopBody.
  set (adj := if Rleb (Rabs (sideDistX t)) (Rabs (sideDistY t))
              then sideDistX t else sideDistY t).
  assert (Hadj : Rabs adj <= Rabs (sideDistX t) /\
                 Rabs adj <= Rabs (sideDistY t) /\
                 (adj = sideDistX t \/ adj = sideDistY t)).
  { unfold adj.
    destruct (Rleb_spec (Rabs (sideDistX t)) (Rabs (sideDistY t)));
      repeat split; auto; lra. }
  clearbody adj. destruct Hadj as (Hax & Hay & Hpick).
  destruct (axisInv_advance lo width _ _ _ _ adj Hdx Hlo widthFits Hx Hax)
    as (x' & -> & Hx' & Hrx & Hrx0 & Hxex).
  destruct (axisInv_advance lo height _ _ _ _ adj Hdy Hlo heightFits Hy Hay)
    as (y' & -> & Hy' & Hry & Hry0 & Hyex).
  cbv beta iota delta [bind].
  destruct (checkForHit_closed worldMap width height x' y' (temp t)
              closed widthFits heightFits Hx' Hy')
    as (hit & h & -> & Hmiss).
  cbv beta iota delta [bind].
  destruct hit.
  - destruct (negb (i =? 0)%Z && true && Alignment_eqb (alignment h) unknown)
      eqn:Hinh.
    + apply andb_true_iff in Hinh as [Hinh _].
      apply andb_true_iff in Hinh as [Hinh _].
      apply negb_true_iff, Z.eqb_neq in Hinh.
      destruct (nth_error hs (Z.to_nat (i - 1))) as [prev |] eqn:Hprev.
      * cbv beta iota delta [bind]. eexists _, _.
        split; [reflexivity | discriminate].
      * apply nth_error_None in Hprev. lia.
    + cbv beta iota delta [bind]. eexists _, _.
      split; [reflexivity | discriminate].
  - rewrite andb_false_r. cbv beta iota delta [andb bind].
    eexists _, _. split; [reflexivity |]. intros _.
    destruct (Hmiss eq_refl) as [Hsx Hsy].
    split.
    + split; cbn [mapX mapY sideDistX sideDistY].
      * apply axisInv_recomputed; assumption.
      * apply axisInv_recomputed; assumption.
    + unfold remaining; cbn [mapX mapY].
      destruct Hpick as [E | E].
      * destruct (Hxex E) as [_ Hdec]. lia.
      * destruct (Hyex E) as [_ Hdec]. lia.
Qed.

Lemma whileNotHit_closed (fuel : nat) (t : Traversal) :
  inside 1 width height r t ->
  (remaining width height r t < Z.of_nat fuel)%Z ->
  exists t', whileNotHit fuel worldMap i hs r t = Some t'.
Proof.
  revert t. induction fuel as [| fuel IH]; intros t Hin Hrem.
  - destruct Hin as [Hx Hy].
    apply axisInv_remaining in Hx, Hy. unfold remaining in Hrem. lia.
  - cbn [whileNotHit].
    destruct (loopBody_closed 1 t ltac:(lia) Hin) as (hit & t' & -> & Hmiss).
    cbv beta iota delta [bind].
    destruct hit; [exists t'; reflexivity |].
    destruct (Hmiss eq_refl) as [Hin' Hdec].
    apply IH; [exact Hin' | lia].
Qed.

(** From the start of a column the first iteration may leave the
    position where it is; every later one advances. *)
Lemma whileNotHit_closed_initial (fuel : nat) (t : Traversal) :
  inside 0 width height r t ->
  (remaining width height r t < Z.of_nat fuel)%Z ->
  exists t', whileNotHit (S fuel) worldMap i hs r t = Some t'.
Proof.
  intros Hin Hrem. cbn [whileNotHit].
  destruct (loopBody_closed 0 t ltac:(lia) Hin) as (hit & t' & -> & Hmiss).
  cbv beta iota delta [bind].
  destruct hit; [exists t'; reflexivity |].
  destruct (Hmiss eq_refl) as [Hin' Hdec].
  apply whileNotHit_closed; [exact Hin' | lia].
Qed.

End ClosedGrid.

(** ** Results of a column *)

Lemma euclid_zero (startX startY endX endY : R) :
  0 <= euclid startX startY endX endY /\
  (euclid startX startY endX endY = 0 <-> endX = startX /\ endY = startY).
Proof.
  unfold euclid. split; [apply sqrt_pos |]. split.
  - intros H.
    assert (Hnn : 0 <= (startX - endX) * (startX - endX)
                       + (startY - endY) * (startY - endY)).
    { apply Rplus_le_le_0_compat; apply Rle_0_sqr. }
    apply (sqrt_eq_0 _ Hnn) in H.
    apply Rplus_sqr_eq_0 in H as [Hx Hy]. split; lra.
  - intros [-> ->].
    replace ((startX - startX) * (startX - startX)
             + (startY - startY) * (startY - startY)) with 0 by ring.
    apply sqrt_0.
Qed.

Lemma inheritAlignment_color (i : Z) (hs : list hitDetails)
    (raw recorded : hitDetails) :
  inheritAlignment i hs raw = Some recorded ->
  color recorded = color raw /\ distance recorded = distance raw.
Proof.
  unfold inheritAlignment.
  destruct (negb (i =? 0)%Z && Alignment_eqb (alignment raw) unknown).
  - destruct (nth_error hs (Z.to_nat (i - 1))); cbv beta iota delta [bind];
      [| discriminate].
    intros H. injection H as <-. split; reflexivity.
  - intros H. injection H as <-. split; reflexivity.
Qed.

Lemma castColumn_valid (fuel : nat) (c : Character) (screenWidth : Z)
    (worldMap : Grid) (i : Z) (hs : list hitDetails)
    (p : Vector2f) (h : hitDetails) :
  castColumn fuel c screenWidth worldMap i hs = Some (p, h) ->
  validHit c worldMap p h.
Proof.
  intros H.
  apply castColumn_result in H
    as (_ & x & y & raw & recorded & -> & Hc & Hin & ->).
  apply checkForHit_hit in Hc as (_ & Hcol & _ & dy & dx & Hoff & Hcell).
  apply inheritAlignment_color in Hin as [Hcr _].
  unfold validHit; cbn [vx vy color distance set_distance]. rewrite Hcr.
  split; [exact Hcol |]. split; [exists dy, dx; auto |].
  apply euclid_zero.
Qed.

Lemma castColumn_more_fuel (fuel extra : nat) (c : Character)
    (screenWidth : Z) (worldMap : Grid) (i : Z) (hs : list hitDetails)
    (res : Vector2f * hitDetails) :
  castColumn fuel c screenWidth worldMap i hs = Some res ->
  castColumn (fuel + extra) c screenWidth worldMap i hs = Some res.
Proof.
  unfold castColumn.
  destruct (screenWidth =? 0)%Z; [discriminate |].
  destruct (to_int (vx (center c))) as [x0 |]; cbv beta iota delta [bind];
    [| discriminate].
  destruct (to_int (vy (center c))) as [y0 |]; cbv beta iota delta [bind];
    [| discriminate].
  cbv zeta. destruct (inRange _ _); [| discriminate].
  destruct (whileNotHit fuel _ _ _ _ _) as [t |] eqn:Hw; [| discriminate].
  rewrite (whileNotHit_more_fuel _ extra _ _ _ _ _ _ Hw). auto.
Qed.

Lemma castColumn_closed (worldMap : Grid) (width height : Z) (c : Character)
    (screenWidth i : Z) (hs : list hitDetails) :
  closedGrid worldMap width height = true ->
  (32 * width <= INT_MAX)%Z -> (32 * height <= INT_MAX)%Z ->
  insideBorder c width height ->
  screenWidth <> 0%Z ->
  columnInRange c screenWidth i = true ->
  (0 <= i <= Z.of_nat (length hs))%Z ->
  exists p h,
    castColumn (fuelFor width height) c screenWidth worldMap i hs = Some (p, h).
Proof.
  intros Hg Hw Hh (x0 & y0 & Hx0 & Hy0 & Hbx & Hby) Hsw Hr Hi.
  unfold castColumn.
  apply Z.eqb_neq in Hsw. rewrite Hsw, Hx0, Hy0.
  cbv beta iota delta [bind].
  unfold columnInRange in Hr. cbv zeta in Hr. cbv zeta. rewrite Hr.
  set (r := rayOf c (cameraXOf i screenWidth)).
  pose proof (rayOf_wellDirected c (cameraXOf i screenWidth)) as Hdir.
  fold r in Hdir. destruct Hdir as [Hdx Hdy].
  set (t0 := mkTraversal x0 y0 _ _ defaultHit).
  assert (Hin : inside 0 width height r t0).
  { split; cbn [mapX mapY sideDistX sideDistY t0].
    - apply axisInv_initial; assumption.
    - apply axisInv_initial; assumption. }
  assert (Hrem : (remaining width height r t0
                  < Z.of_nat (Nat.pred (fuelFor width height)))%Z).
  { unfold remaining, axisRemaining, fuelFor; cbn [mapX mapY t0].
    destruct (Rltb 0 (rayDeltaX r)), (Rltb 0 (rayDeltaY r)); lia. }
  assert (Hfuel : fuelFor width height = S (Nat.pred (fuelFor width height))).
  { unfold fuelFor. lia. }
  rewrite Hfuel.
  destruct (whileNotHit_closed_initial worldMap width height Hg Hw Hh
              i hs r Hi (conj Hdx Hdy) _ t0 Hin Hrem) as [t' ->].
  eexists _, _. reflexivity.
Qed.

(** C3, as the code has it: in a grid with a solid border whose pixel
    coordinates fit an [int], for a viewpoint in a cell that is not a
    border cell, a nonzero [screenWidth] and a column whose ray is within
    the range of [double], the traversal loop terminates (within
    [fuelFor width height] iterations, and with the same result for any
    larger bound) and yields a valid result: the material of a nonzero
    cell at the struck position, and a distance that is not negative,
    zero exactly when the struck position is the viewpoint's own.  A ray
    along a grid-line axis, with [rayDirX = 0] or [rayDirY = 0], is one
    case: the range asks nothing of the quotient of a zero component. *)
Theorem castColumn_terminates (worldMap : Grid) (width height : Z)
    (c : Character) (screenWidth i : Z) (hs : list hitDetails) :
  closedGrid worldMap width height = true ->
  (32 * width <= INT_MAX)%Z -> (32 * height <= INT_MAX)%Z ->
  insideBorder c width height ->
  screenWidth <> 0%Z ->
  columnInRange c screenWidth i = true ->
  (0 <= i <= Z.of_nat (length hs))%Z ->
  exists p h,
    (forall extra : nat,
        castColumn (fuelFor width height + extra) c screenWidth worldMap i hs
        = Some (p, h)) /\
    validHit c worldMap p h.
Proof.
  intros Hg Hw Hh Hc Hsw Hr Hi.
  destruct (castColumn_closed worldMap width height c screenWidth i hs
              Hg Hw Hh Hc Hsw Hr Hi) as (p & h & Hcast).
  exists p, h. split.
  - intros extra. apply castColumn_more_fuel. exact Hcast.
  - apply castColumn_valid in Hcast. exact Hcast.
Qed.

(** ** Results of the whole pass *)

(** Whatever the grid, a pass that returns has one valid result per
    column, in column order. *)
Lemma calcRays_sound (fuel : nat) (c : Character) (screenWidth : Z)
    (worldMap : Grid) (rays : list Vector2f) (hs : list hitDetails) :
  calcRays fuel c screenWidth worldMap = Some (rays, hs) ->
  length rays = Z.to_nat (screenWidth + 1) /\
  length hs = Z.to_nat (screenWidth + 1) /\
  forall i, (i < Z.to_nat (screenWidth + 1))%nat ->
    exists p h,
      nth_error rays i = Some p /\ nth_error hs i = Some h /\
      castColumn fuel c screenWidth worldMap (Z.of_nat i) (firstn i hs)
      = Some (p, h) /\
      validHit c worldMap p h.
Proof.
  intros H. destruct (calcRays_columns _ _ _ _ _ _ H) as (Hlr & Hlh & Hcols).
  split; [exact Hlr |]. split; [exact Hlh |].
  intros i Hi. destruct (Hcols i Hi) as (p & h & Hp & Hh & Hcast).
  exists p, h.
  split; [exact Hp |]. split; [exact Hh |]. split; [exact Hcast |].
  apply castColumn_valid in Hcast. exact Hcast.
Qed.

Lemma calcRays_prefix_more_fuel (fuel extra : nat) (c : Character)
    (screenWidth : Z) (worldMap : Grid) (cols : list Z)
    (acc res : list Vector2f * list hitDetails) :
  fold_left (pushColumn fuel c screenWidth worldMap) cols (Some acc) = Some res ->
  fold_left (pushColumn (fuel + extra) c screenWidth worldMap) cols (Some acc)
  = Some res.
Proof.
  revert acc. induction cols as [| i cols IH]; intros [rays hs]; cbn [fold_left].
  - auto.
  - unfold pushColumn at 2 4. cbv beta iota delta [bind].
    destruct (castColumn fuel c screenWidth worldMap i hs) as [[p h] |] eqn:Hc.
    + rewrite (castColumn_more_fuel _ extra _ _ _ _ _ _ Hc). apply IH.
    + rewrite pushColumn_none. discriminate.
Qed.

Lemma calcRays_prefix_closed (worldMap : Grid) (width height : Z)
    (c : Character) (screenWidth : Z) (n : nat) :
  closedGrid worldMap width height = true ->
  (32 * width <= INT_MAX)%Z -> (32 * height <= INT_MAX)%Z ->
  insideBorder c width height ->
  screenWidth <> 0%Z ->
  (forall k, (k < n)%nat ->
             columnInRange c screenWidth (Z.of_nat k) = true) ->
  exists rays hs,
    fold_left (pushColumn (fuelFor width height) c screenWidth worldMap)
      (map Z.of_nat (seq 0 n)) (Some ([], [])) = Some (rays, hs) /\
    length hs = n.
Proof.
  intros Hg Hw Hh Hc Hsw Hr. induction n as [| n IH].
  - exists [], []. split; reflexivity.
  - destruct IH as (rays & hs & Hfold & Hlen);
      [intros k Hk; apply Hr; lia |].
    rewrite seq_S, map_app, fold_left_app, Hfold. cbn [map fold_left Nat.add].
    unfold pushColumn. cbv beta iota delta [bind].
    destruct (castColumn_closed worldMap width height c screenWidth
                (Z.of_nat n) hs Hg Hw Hh Hc Hsw (Hr n (Nat.lt_succ_diag_r n))
                ltac:(lia)) as (p & h & ->).
    exists (rays ++ [p]), (hs ++ [h]). split; [reflexivity |].
    rewrite length_app, Hlen. cbn [length]. lia.
Qed.

(** C1, as the code has it: in a grid with a solid border whose pixel
    coordinates fit an [int], for a viewpoint in a cell that is not a
    border cell, a nonzero [screenWidth] and rays that all stay within the
    range of [double], one pass returns (within [fuelFor width height]
    iterations per column, and with the same result for any larger bound)
    exactly [screenWidth + 1] results, entry [i] being the result of
    column [i]; each has a material that is a nonzero cell of the grid at
    the struck position or at one of its three neighbours of the corner
    rule, and a distance that is not negative, zero exactly when the
    struck position is the viewpoint's own. *)
Theorem calcRays_one_result_per_column (worldMap : Grid) (width height : Z)
    (c : Character) (screenWidth : Z) :
  closedGrid worldMap width height = true ->
  (32 * width <= INT_MAX)%Z -> (32 * height <= INT_MAX)%Z ->
  insideBorder c width height ->
  screenWidth <> 0%Z ->
  raysInRange c screenWidth = true ->
  exists rays hs,
    (forall extra : nat,
        calcRays (fuelFor width height + extra) c screenWidth worldMap
        = Some (rays, hs)) /\
    length rays = Z.to_nat (screenWidth + 1) /\
    length hs = Z.to_nat (screenWidth + 1) /\
    forall i, (i < Z.to_nat (screenWidth + 1))%nat ->
      exists p h,
        nth_error rays i = Some p /\ nth_error hs i = Some h /\
        castColumn (fuelFor width height) c screenWidth worldMap
          (Z.of_nat i) (firstn i hs) = Some (p, h) /\
        validHit c worldMap p h.
Proof.
  intros Hg Hw Hh Hc Hsw Hr.
  destruct (calcRays_prefix_closed worldMap width height c screenWidth
              (Z.to_nat (screenWidth + 1)) Hg Hw Hh Hc Hsw
              (fun k Hk => raysInRange_column c screenWidth k Hr Hk))
    as (rays & hs & Hfold & _).
  exists rays, hs. split.
  - intros extra. unfold calcRays, columns.
    apply calcRays_prefix_more_fuel. exact Hfold.
  - apply calcRays_sound. exact Hfold.
Qed.

(** ** Evaluating the traversal *)

Lemma checkForHit_at (mapX mapY : Z) (hitDetail : hitDetails)
    (worldMap : Grid) :
  (INT_MIN <= mapX <= INT_MAX)%Z -> (INT_MIN <= mapY <= INT_MAX)%Z ->
  checkForHit (IZR mapX / 32) (IZR mapY / 32) hitDetail worldMap
  = classifyAt mapX mapY hitDetail worldMap.
Proof.
  intros Hx Hy. unfold INT_MIN, INT_MAX in Hx, Hy.
  pose proof (Z.div_mod mapX 32 ltac:(lia)) as Hdx.
  pose proof (Z.mod_pos_bound mapX 32 ltac:(lia)) as Hbx.
  pose proof (Z.div_mod mapY 32 ltac:(lia)) as Hdy.
  pose proof (Z.mod_pos_bound mapY 32 ltac:(lia)) as Hby.
  assert (Hrx : (INT_MIN <= mapX / 32 <= INT_MAX)%Z)
    by (unfold INT_MIN, INT_MAX; lia).
  assert (Hry : (INT_MIN <= mapY / 32 <= INT_MAX)%Z)
    by (unfold INT_MIN, INT_MAX; lia).
  rewrite checkForHit_classifyHit. unfold classifyHit, classifyAt.
  rewrite !onGridLine_div32.
  destruct (Z.eqb_spec (mapX mod 32) 0) as [Hmx | Hmx];
    destruct (Z.eqb_spec (mapY mod 32) 0) as [Hmy | Hmy];
    cbv beta iota zeta delta [andb].
  - rewrite (to_int_div32 _ Hmx Hrx), (to_int_div32 _ Hmy Hry). reflexivity.
  - rewrite (to_int_div32 _ Hmx Hrx), (to_int_floor_div32 _ Hry). reflexivity.
  - rewrite (to_int_div32 _ Hmy Hry), (to_int_floor_div32 _ Hrx). reflexivity.
  - reflexivity.
Qed.

Lemma round_eval (a : R) (n : Z) :
  0 <= a -> IZR n - / 2 <= a < IZR n + / 2 ->
  round a = IZR n /\ round (a * -1) = IZR (- n).
Proof.
  intros Ha Hn.
  assert (Hf : Zfloor (a + / 2) = n) by (apply Zfloor_eq; lra).
  split.
  - unfold round. rewrite Rleb_true by exact Ha. rewrite Hf. reflexivity.
  - unfold round. destruct (Rleb_spec 0 (a * -1)) as [H | H].
    + assert (a = 0) by lra. subst a.
      assert (Hlt : (n < 1)%Z) by (apply lt_IZR; lra).
      assert (Hgt : (-1 < n)%Z) by (apply lt_IZR; lra).
      assert (Hn0 : n = 0%Z) by lia.
      replace (0 * -1 + / 2) with (0 + / 2) by lra. rewrite Hf, Hn0.
      reflexivity.
    + unfold Zceil. rewrite <- Hf. f_equal. f_equal. f_equal. lra.
Qed.

(** The coordinate moves by [n] world units when the adjustment rounds
    to [n]. *)
Lemma advance_eval (m : Z) (adj dd : R) (n : Z) :
  IZR n - / 2 <= Rabs (adj / dd * 32) < IZR n + / 2 ->
  (INT_MIN <= m + stepSign dd * n <= INT_MAX)%Z ->
  advance m adj dd = Some (m + stepSign dd * n)%Z.
Proof.
  intros Hn Hrange.
  destruct (round_eval _ n (Rabs_pos _) Hn) as [Hr Hrn].
  unfold advance. rewrite <- (to_int_plus _ _ Hrange).
  unfold stepSign. destruct (Rltb 0 dd).
  - rewrite Rmult_1_r, Hr. replace (1 * n)%Z with n by lia. reflexivity.
  - rewrite Hrn. replace (-1 * n)%Z with (- n)%Z by lia. reflexivity.
Qed.

(** A zero adjustment leaves the coordinate where it is. *)
Lemma advance_zero (m : Z) (dd : R) :
  (INT_MIN <= m <= INT_MAX)%Z -> advance m 0 dd = Some m.
Proof.
  intros Hm.
  rewrite (advance_eval m 0 dd 0).
  - f_equal. lia.
  - replace (0 / dd * 32) with 0 by (unfold Rdiv; ring).
    rewrite Rabs_R0. lra.
  - lia.
Qed.

Lemma loopBody_eval (worldMap : Grid) (i : Z) (hs : list hitDetails)
    (r : Ray) (t : Traversal) (adj : R) (x' y' : Z) (hit : bool)
    (raw h : hitDetails) :
  (if Rleb (Rabs (sideDistX t)) (Rabs (sideDistY t))
   then sideDistX t else sideDistY t) = adj ->
  advance (mapX t) adj (rayDeltaX r) = Some x' ->
  advance (mapY t) adj (rayDeltaY r) = Some y' ->
  checkForHit (IZR x' / 32) (IZR y' / 32) (temp t) worldMap = Some (hit, raw) ->
  (if hit then inheritAlignment i hs raw else Some raw) = Some h ->
  loopBody worldMap i hs r t
  = Some (hit, mkTraversal x' y'
                 (calcNewDistance x' (rayDirX r) (rayDeltaX r))
                 (calcNewDistance y' (rayDirY r) (rayDeltaY r)) h).
Proof.
  intros Hadj Hx Hy Hc Hi. unfold loopBody.
  rewrite Hadj, Hx. cbv beta iota delta [bind].
  rewrite Hy. cbv beta iota delta [bind].
  rewrite Hc. cbv beta iota delta [bind].
  destruct hit.
  - rewrite andb_true_r.
    cbv beta iota delta [inheritAlignment bind] in Hi. rewrite Hi. reflexivity.
  - rewrite andb_false_r. cbv beta iota delta [andb bind].
    injection Hi as <-. reflexivity.
Qed.

(** A column whose first iteration is a hit. *)
Lemma castColumn_first_hit (fuel : nat) (c : Character) (screenWidth : Z)
    (worldMap : Grid) (i : Z) (hs : list hitDetails) (x0 y0 : Z)
    (t : Traversal) :
  screenWidth <> 0%Z ->
  to_int (vx (center c)) = Some x0 -> to_int (vy (center c)) = Some y0 ->
  columnInRange c screenWidth i = true ->
  (let r := rayOf c (cameraXOf i screenWidth) in
   loopBody worldMap i hs r
     (mkTraversal x0 y0
        (initialSideDist x0 (rayDirX r) (rayDeltaX r))
        (initialSideDist y0 (rayDirY r) (rayDeltaY r)) defaultHit)
   = Some (true, t)) ->
  castColumn (S fuel) c screenWidth worldMap i hs
  = Some (mkVec (IZR (mapX t)) (IZR (mapY t)),
          set_distance (temp t)
            (euclid (vx (center c)) (vy (center c))
                    (IZR (mapX t)) (IZR (mapY t)))).
Proof.
  intros Hsw Hx Hy Hr Hbody. cbv zeta in Hbody.
  unfold columnInRange in Hr. cbv zeta in Hr.
  unfold castColumn. apply Z.eqb_neq in Hsw. rewrite Hsw, Hx, Hy.
  cbv beta iota zeta delta [bind whileNotHit].
  rewrite Hr, Hbody. reflexivity.
Qed.

(** A viewpoint on a vertical grid line whose ray points left is
    classified where it stands: the first iteration does not move. *)
Lemma loopBody_on_line (worldMap : Grid) (i : Z) (hs : list hitDetails)
    (r : Ray) (x0 y0 : Z) (hit : bool) (raw h : hitDetails) :
  Z.rem x0 32 = 0%Z -> rayDirX r < 0 ->
  (INT_MIN <= x0 <= INT_MAX)%Z -> (INT_MIN <= y0 <= INT_MAX)%Z ->
  checkForHit (IZR x0 / 32) (IZR y0 / 32) defaultHit worldMap = Some (hit, raw) ->
  (if hit then inheritAlignment i hs raw else Some raw) = Some h ->
  loopBody worldMap i hs r
    (mkTraversal x0 y0
       (initialSideDist x0 (rayDirX r) (rayDeltaX r))
       (initialSideDist y0 (rayDirY r) (rayDeltaY r)) defaultHit)
  = Some (hit, mkTraversal x0 y0
                 (calcNewDistance x0 (rayDirX r) (rayDeltaX r))
                 (calcNewDistance y0 (rayDirY r) (rayDeltaY r)) h).
Proof.
  intros Hrem Hneg Hx Hy Hc Hi.
  assert (Hsd : initialSideDist x0 (rayDirX r) (rayDeltaX r) = 0).
  { unfold initialSideDist. rewrite Rltb_true by exact Hneg.
    rewrite Hrem. unfold Rdiv. ring. }
  apply loopBody_eval with (adj := 0) (raw := raw);
    cbv beta iota delta [mapX mapY sideDistX sideDistY temp].
  - rewrite Hsd, Rabs_R0, Rleb_true by apply Rabs_pos. reflexivity.
  - apply advance_zero; exact Hx.
  - apply advance_zero; exact Hy.
  - exact Hc.
  - exact Hi.
Qed.

(** ** The scenario, evaluated *)

Lemma int_range_small (z : Z) :
  (-1000 <= z <= 1000)%Z -> (INT_MIN <= z <= INT_MAX)%Z.
Proof. unfold INT_MIN, INT_MAX. lia. Qed.

Lemma euclid_same (x y : R) : euclid x y x y = 0.
Proof. apply euclid_zero. split; reflexivity. Qed.

Lemma euclid_vertical (x y1 y2 : R) : y1 <= y2 -> euclid x y1 x y2 = y2 - y1.
Proof.
  intros H. unfold euclid.
  replace ((x - x) * (x - x) + (y1 - y2) * (y1 - y2))
    with ((y2 - y1) * (y2 - y1)) by ring.
  apply sqrt_square. lra.
Qed.

(** The rays of the scenarios have components that are whole numbers of
    twentieths: all are in range. *)
Lemma columnInRange_twentieths (c : Character) (screenWidth i kx ky : Z) :
  dirX c + cameraPlaneX c * cameraXOf i screenWidth = IZR kx / 20 ->
  dirY c + cameraPlaneY c * cameraXOf i screenWidth = IZR ky / 20 ->
  (-1000 <= kx <= 1000)%Z -> (-1000 <= ky <= 1000)%Z ->
  columnInRange c screenWidth i = true.
Proof.
  intros Hx Hy Hkx Hky. unfold columnInRange, rayOf.
  cbv beta iota zeta delta [rayDirX rayDirY]. rewrite Hx, Hy.
  apply inRange_bounded; apply twentieths_bounded; assumption.
Qed.

Lemma viewer_columnInRange (i : Z) :
  (0 <= i <= 2)%Z -> columnInRange viewer 2 i = true.
Proof.
  intros Hi.
  apply (columnInRange_twentieths viewer 2 i (320 * i - 640) (320 * i));
    try lia;
    cbv beta iota delta [viewer dirX dirY cameraPlaneX cameraPlaneY cameraXOf];
    rewrite ?minus_IZR, ?mult_IZR; lra.
Qed.

Lemma viewer_column_left (i : Z) (hs : list hitDetails) :
  (i = 0 \/ i = 1)%Z ->
  castColumn 1 viewer 2 ring3 i hs = Some (mkVec 32 48, mkHit 0 1 vertical).
Proof.
  intros Hi.
  assert (Hneg : rayDirX (rayOf viewer (cameraXOf i 2)) < 0).
  { cbv beta iota zeta delta
      [rayOf rayDirX cameraXOf viewer dirX cameraPlaneX].
    destruct Hi as [-> | ->]; lra. }
  rewrite (castColumn_first_hit 0 viewer 2 ring3 i hs 32 48
             (mkTraversal 32 48
                (calcNewDistance 32 (rayDirX (rayOf viewer (cameraXOf i 2)))
                   (rayDeltaX (rayOf viewer (cameraXOf i 2))))
                (calcNewDistance 48 (rayDirY (rayOf viewer (cameraXOf i 2)))
                   (rayDeltaY (rayOf viewer (cameraXOf i 2))))
                (mkHit 0 1 vertical))).
  - cbv beta iota delta [mapX mapY temp set_distance color alignment
                         viewer center vx vy].
    rewrite euclid_same. reflexivity.
  - discriminate.
  - apply (to_int_IZR 32), int_range_small; lia.
  - apply (to_int_IZR 48), int_range_small; lia.
  - apply viewer_columnInRange. lia.
  - cbv zeta.
    apply loopBody_on_line with (raw := mkHit 0 1 vertical).
    + reflexivity.
    + exact Hneg.
    + apply int_range_small; lia.
    + apply int_range_small; lia.
    + rewrite checkForHit_at by (apply int_range_small; lia). reflexivity.
    + unfold inheritAlignment. destruct Hi as [-> | ->]; reflexivity.
Qed.

(** The ray of the last column points straight down: [rayDirX = 0]. *)
Lemma viewer_ray_down :
  rayOf viewer (cameraXOf 2 2) = mkRay 0 32 SENTINEL 32.
Proof.
  assert (Hx : dirX viewer + cameraPlaneX viewer * cameraXOf 2 2 = 0).
  { cbv beta iota delta [viewer dirX cameraPlaneX cameraXOf]. lra. }
  assert (Hy : dirY viewer + cameraPlaneY viewer * cameraXOf 2 2 = 32).
  { cbv beta iota delta [viewer dirY cameraPlaneY cameraXOf]. lra. }
  unfold rayOf. cbv zeta. rewrite Hx, Hy.
  unfold deltaDistX, deltaDistY. rewrite stepDistance_zero.
  assert (Hh : hypoLength 0 32 = 32).
  { unfold hypoLength. replace (0 * 0 + 32 * 32) with (32 * 32) by ring.
    apply sqrt_square. lra. }
  assert (Hs : stepDistance 32 (hypoLength 0 32) = 32).
  { rewrite Hh. unfold stepDistance, multiplier.
    rewrite Reqb_false, Rltb_false by lra.
    rewrite Rabs_right by lra. field. }
  rewrite Hs. reflexivity.
Qed.

Lemma viewer_column_down (h0 h1 : hitDetails) :
  alignment h1 = vertical ->
  castColumn 1 viewer 2 ring3 2 [h0; h1]
  = Some (mkVec 32 64, mkHit 16 1 vertical).
Proof.
  intros Hprev.
  rewrite (castColumn_first_hit 0 viewer 2 ring3 2 [h0; h1] 32 48
             (mkTraversal 32 64
                (calcNewDistance 32 0 SENTINEL) (calcNewDistance 64 32 32)
                (mkHit 0 1 vertical))).
  - cbv beta iota delta [mapX mapY temp set_distance color alignment
                         viewer center vx vy].
    rewrite euclid_vertical by lra.
    replace (64 - 48) with 16 by lra. reflexivity.
  - discriminate.
  - apply (to_int_IZR 32), int_range_small; lia.
  - apply (to_int_IZR 48), int_range_small; lia.
  - apply viewer_columnInRange. lia.
  - cbv zeta. rewrite viewer_ray_down.
    cbv beta iota delta [rayDirX rayDirY rayDeltaX rayDeltaY].
    assert (Hsx : initialSideDist 32 0 SENTINEL = SENTINEL).
    { unfold initialSideDist. rewrite Rltb_false by lra.
      change (Z.rem 32 32) with 0%Z. field. }
    assert (Hsy : initialSideDist 48 32 32 = 16).
    { unfold initialSideDist. rewrite Rltb_false by lra.
      change (Z.rem 48 32) with 16%Z. field. }
    rewrite Hsx, Hsy.
    pose proof SENTINEL_pos as Hpos.
    assert (Hbig : 16 < SENTINEL) by (unfold SENTINEL; lra).
    apply loopBody_eval with (adj := 16) (raw := mkHit 0 1 unknown)
                             (r := mkRay 0 32 SENTINEL 32);
      cbv beta iota delta [mapX mapY sideDistX sideDistY temp
                           rayDirX rayDirY rayDeltaX rayDeltaY].
    + rewrite !Rabs_right by lra. rewrite Rleb_false by lra. reflexivity.
    + rewrite (advance_eval 32 16 SENTINEL 0).
      * f_equal. lia.
      * rewrite Rabs_right.
        -- unfold SENTINEL. lra.
        -- unfold SENTINEL. lra.
      * apply int_range_small. unfold stepSign. destruct (Rltb 0 SENTINEL); lia.
    + rewrite (advance_eval 48 16 32 16).
      * unfold stepSign. rewrite Rltb_true by lra. reflexivity.
      * replace (16 / 32 * 32) with 16 by field.
        rewrite Rabs_right by lra. lra.
      * apply int_range_small. unfold stepSign. destruct (Rltb 0 32); lia.
    + rewrite checkForHit_at by (apply int_range_small; lia). reflexivity.
    + unfold inheritAlignment.
      change (negb (2 =? 0)%Z && Alignment_eqb (alignment (mkHit 0 1 unknown)) unknown)
        with true.
      change (nth_error [h0; h1] (Z.to_nat (2 - 1))) with (Some h1).
      cbv beta iota delta [bind]. rewrite Hprev. reflexivity.
Qed.

Lemma viewer_calcRays :
  calcRays 1 viewer 2 ring3 = Some (scenarioRays, scenarioHits).
Proof.
  unfold calcRays. change (columns 2) with [0; 1; 2]%Z.
  cbv beta iota delta [fold_left].
  unfold pushColumn at 3. cbv beta iota delta [bind].
  rewrite (viewer_column_left 0 []) by (left; reflexivity).
  unfold pushColumn at 2. cbv beta iota delta [bind app].
  rewrite (viewer_column_left 1) by (right; reflexivity).
  unfold pushColumn. cbv beta iota delta [bind app].
  rewrite viewer_column_down by reflexivity.
  reflexivity.
Qed.

(** ** Without a border *)

Lemma loopBody_outside (worldMap : Grid) (i : Z) (hs : list hitDetails)
    (r : Ray) (t : Traversal) (adj : R) (x' y' : Z) :
  (if Rleb (Rabs (sideDistX t)) (Rabs (sideDistY t))
   then sideDistX t else sideDistY t) = adj ->
  advance (mapX t) adj (rayDeltaX r) = Some x' ->
  advance (mapY t) adj (rayDeltaY r) = Some y' ->
  checkForHit (IZR x' / 32) (IZR y' / 32) (temp t) worldMap = None ->
  loopBody worldMap i hs r t = None.
Proof.
  intros Hadj Hx Hy Hc. unfold loopBody.
  rewrite Hadj, Hx. cbv beta iota delta [bind].
  rewrite Hy. cbv beta iota delta [bind].
  rewrite Hc. reflexivity.
Qed.

(** The ray of the first column points straight left: [rayDirY = 0]. *)
Lemma viewer_ray_left :
  rayOf viewer (cameraXOf 0 2) = mkRay (-32) 0 (-32) SENTINEL.
Proof.
  assert (Hx : dirX viewer + cameraPlaneX viewer * cameraXOf 0 2 = -32).
  { cbv beta iota delta [viewer dirX cameraPlaneX cameraXOf]. lra. }
  assert (Hy : dirY viewer + cameraPlaneY viewer * cameraXOf 0 2 = 0).
  { cbv beta iota delta [viewer dirY cameraPlaneY cameraXOf]. lra. }
  unfold rayOf. cbv zeta. rewrite Hx, Hy.
  unfold deltaDistX, deltaDistY. rewrite stepDistance_zero.
  assert (Hh : hypoLength (-32) 0 = 32).
  { unfold hypoLength. replace (-32 * -32 + 0 * 0) with (32 * 32) by ring.
    apply sqrt_square. lra. }
  assert (Hs : stepDistance (-32) (hypoLength (-32) 0) = -32).
  { rewrite Hh. unfold stepDistance, multiplier.
    rewrite Reqb_false, Rltb_true by lra.
    rewrite Rabs_left by lra. field. }
  rewrite Hs. reflexivity.
Qed.

(** In the grid without a border the first column leaves the grid at its
    second iteration: there is no result, whatever the bound. *)
Lemma viewer_open_column (fuel : nat) :
  castColumn fuel viewer 2 open3 0 [] = None.
Proof.
  unfold castColumn. change (2 =? 0)%Z with false. cbv beta iota.
  change (vx (center viewer)) with (IZR 32).
  change (vy (center viewer)) with (IZR 48).
  rewrite (to_int_IZR 32), (to_int_IZR 48) by (apply int_range_small; lia).
  cbv beta iota zeta delta [bind].
  pose proof (viewer_columnInRange 0 ltac:(lia)) as Hr.
  unfold columnInRange in Hr. cbv zeta in Hr. rewrite Hr.
  destruct fuel as [| fuel]; [reflexivity |].
  cbv beta iota delta [whileNotHit]. fold whileNotHit.
  rewrite (loopBody_on_line open3 0 [] _ 32 48 false defaultHit defaultHit).
  - cbv beta iota delta [bind].
    destruct fuel as [| fuel]; [reflexivity |].
    cbv beta iota delta [whileNotHit]. fold whileNotHit.
    rewrite viewer_ray_left.
    cbv beta iota delta [rayDirX rayDirY rayDeltaX rayDeltaY].
    assert (Hsx : calcNewDistance 32 (-32) (-32) = -32).
    { unfold calcNewDistance, BLOCK_WIDTH. change (Z.rem 32 32) with 0%Z.
      rewrite Rltb_true, (Reqb_true 0 0) by lra.
      cbv beta iota delta [andb]. field. }
    assert (Hsy : calcNewDistance 48 0 SENTINEL = / 2 * SENTINEL).
    { unfold calcNewDistance, BLOCK_WIDTH. change (Z.rem 48 32) with 16%Z.
      rewrite Rltb_false by lra. cbv beta iota delta [andb].
      rewrite Rleb_true by lra. rewrite Reqb_false by lra. field. }
    rewrite Hsx, Hsy.
    pose proof SENTINEL_pos as Hpos.
    assert (Hbig : 64 < SENTINEL) by (unfold SENTINEL; lra).
    rewrite (loopBody_outside open3 0 [] (mkRay (-32) 0 (-32) SENTINEL)
               _ (-32) 0 48); [reflexivity | | | |];
      cbv beta iota delta [mapX mapY sideDistX sideDistY temp
                           rayDirX rayDirY rayDeltaX rayDeltaY].
    + rewrite Rabs_left by lra. rewrite Rabs_right by lra.
      rewrite Rleb_true by lra. reflexivity.
    + rewrite (advance_eval 32 (-32) (-32) 32).
      * unfold stepSign. rewrite Rltb_false by lra. reflexivity.
      * replace (-32 / -32 * 32) with 32 by field.
        rewrite Rabs_right by lra. lra.
      * apply int_range_small. unfold stepSign. destruct (Rltb 0 (-32)); lia.
    + rewrite (advance_eval 48 (-32) SENTINEL 0).
      * f_equal. lia.
      * replace (-32 / SENTINEL * 32) with (- (1024 / SENTINEL))
          by (field; lra).
        rewrite Rabs_Ropp, Rabs_right.
        -- unfold SENTINEL. lra.
        -- unfold SENTINEL. lra.
      * apply int_range_small. unfold stepSign. destruct (Rltb 0 SENTINEL); lia.
    + rewrite checkForHit_at by (apply int_range_small; lia). reflexivity.
  - reflexivity.
  - rewrite viewer_ray_left. cbv beta iota delta [rayDirX]. lra.
  - apply int_range_small; lia.
  - apply int_range_small; lia.
  - rewrite checkForHit_at by (apply int_range_small; lia). reflexivity.
  - reflexivity.
Qed.

Lemma viewer_open_calcRays (fuel : nat) : calcRays fuel viewer 2 open3 = None.
Proof.
  unfold calcRays. change (columns 2) with [0; 1; 2]%Z.
  cbv beta iota delta [fold_left].
  unfold pushColumn at 3. cbv beta iota delta [bind].
  rewrite viewer_open_column. reflexivity.
Qed.

(** ** Every iteration after the first advances *)

Lemma loopBody_positions (worldMap : Grid) (i : Z) (hs : list hitDetails)
    (r : Ray) (t t' : Traversal) (hit : bool) :
  loopBody worldMap i hs r t = Some (hit, t') ->
  exists adj,
    (adj = sideDistX t \/ adj = sideDistY t) /\
    Rabs adj <= Rabs (sideDistX t) /\ Rabs adj <= Rabs (sideDistY t) /\
    advance (mapX t) adj (rayDeltaX r) = Some (mapX t') /\
    advance (mapY t) adj (rayDeltaY r) = Some (mapY t').
Proof.
  unfold loopBody.
  set (adj := if Rleb (Rabs (sideDistX t)) (Rabs (sideDistY t))
              then sideDistX t else sideDistY t).
  assert (Hadj : (adj = sideDistX t \/ adj = sideDistY t) /\
                 Rabs adj <= Rabs (sideDistX t) /\
                 Rabs adj <= Rabs (sideDistY t)).
  { unfold adj.
    destruct (Rleb_spec (Rabs (sideDistX t)) (Rabs (sideDistY t)));
      repeat split; auto; lra. }
  clearbody adj.
  destruct (advance (mapX t) adj (rayDeltaX r)) as [x' |] eqn:Hax;
    cbv beta iota delta [bind]; [| discriminate].
  destruct (advance (mapY t) adj (rayDeltaY r)) as [y' |] eqn:Hay;
    cbv beta iota delta [bind]; [| discriminate].
  destruct (checkForHit _ _ _ _) as [[hit' raw] |];
    cbv beta iota delta [bind]; [| discriminate].
  destruct (if negb (i =? 0)%Z && hit' && Alignment_eqb (alignment raw) unknown
            then _ else _) as [h |]; cbv beta iota delta [bind];
    [| discriminate].
  intros H. injection H as _ <-. cbn [mapX mapY].
  exists adj. destruct Hadj as (Hp & Hx & Hy).
  repeat split; assumption.
Qed.

Lemma advance_exact_moves (m m' : Z) (rayDir dd : R) :
  (0 <= m)%Z -> directed rayDir dd ->
  advance m (calcNewDistance m rayDir dd) dd = Some m' ->
  m' <> m.
Proof.
  intros Hm [Hdd _] Hadv.
  destruct (calcNewDistance_steps m rayDir dd Hm) as (k & Hk & Heq & _).
  assert (Habs : Rabs (calcNewDistance m rayDir dd) <= IZR k / 32 * Rabs dd).
  { rewrite Heq, Rabs_mult, (Rabs_right (IZR k / 32)); [lra |].
    destruct Hk as [Hk _]. apply IZR_le in Hk. lra. }
  destruct (advance_within m _ dd k Hdd ltac:(lia) Habs) as (n & Hn & Hto & Hex).
  specialize (Hex Heq). subst n.
  rewrite Hto, <- plus_IZR in Hadv.
  apply to_int_range in Hadv as [-> _]. rewrite truncate_IZR.
  unfold stepSign. destruct (Rltb 0 dd); lia.
Qed.

(** C9, as the code has it: for a non-negative coordinate and a nonzero
    step distance, [calcNewDistance] is nonzero, has the sign of
    [deltaDist], and its magnitude lies in (0, |deltaDist|]: a recomputed
    side distance is never zero.  Hence an iteration that starts from
    recomputed side distances, as every iteration after the first does,
    moves the position.  The first iteration starts from the side
    distances of lines 333-336, which can be zero. *)
Theorem calcNewDistance_nonzero :
  (forall (vertex : Z) (rayDir deltaDist : R),
      (0 <= vertex)%Z -> deltaDist <> 0 ->
      calcNewDistance vertex rayDir deltaDist <> 0 /\
      (0 < calcNewDistance vertex rayDir deltaDist <-> 0 < deltaDist) /\
      (calcNewDistance vertex rayDir deltaDist < 0 <-> deltaDist < 0) /\
      0 < Rabs (calcNewDistance vertex rayDir deltaDist) <= Rabs deltaDist) /\
  (forall (worldMap : Grid) (i : Z) (hs : list hitDetails) (r : Ray)
          (t t' : Traversal) (hit : bool),
      wellDirected r ->
      (0 <= mapX t)%Z -> (0 <= mapY t)%Z ->
      sideDistX t = calcNewDistance (mapX t) (rayDirX r) (rayDeltaX r) ->
      sideDistY t = calcNewDistance (mapY t) (rayDirY r) (rayDeltaY r) ->
      loopBody worldMap i hs r t = Some (hit, t') ->
      mapX t' <> mapX t \/ mapY t' <> mapY t).
Proof.
  split; [exact calcNewDistance_sign |].
  intros worldMap i hs r t t' hit [Hdx Hdy] Hx Hy Hsx Hsy Hbody.
  apply loopBody_positions in Hbody as (adj & Hpick & _ & _ & Hax & Hay).
  destruct Hpick as [-> | ->].
  - left. rewrite Hsx in Hax.
    exact (advance_exact_moves _ _ (rayDirX r) (rayDeltaX r) Hx Hdx Hax).
  - right. rewrite Hsy in Hay.
    exact (advance_exact_moves _ _ (rayDirY r) (rayDeltaY r) Hy Hdy Hay).
Qed.

Lemma calcNewDistance_nonzero_witness :
  (0 <= 40)%Z /\ -32 <> 0 /\
  calcNewDistance 40 (-1) (-32) <> 0 /\
  (0 < calcNewDistance 40 (-1) (-32) <-> 0 < -32) /\
  (calcNewDistance 40 (-1) (-32) < 0 <-> -32 < 0) /\
  0 < Rabs (calcNewDistance 40 (-1) (-32)) <= Rabs (-32).
Proof.
  assert (Hv : (0 <= 40)%Z) by lia.
  assert (Hd : -32 <> 0) by lra.
  split; [exact Hv |]. split; [exact Hd |].
  exact (proj1 calcNewDistance_nonzero 40%Z (-1) (-32) Hv Hd).
Defined.

(** Against C9 as stated: the first iteration of a column need not
    advance.  For the character of [main] on the grid line X = 64, column
    320 has the ray (-16, 0); its initial side distance in X is zero, the
    iteration finds no wall at (64, 48) in [hall] and leaves the position
    where it was. *)
Lemma first_iteration_does_not_advance :
  to_int (vx (center onLine)) = Some 64%Z /\
  to_int (vy (center onLine)) = Some 48%Z /\
  columnInRange onLine screenWidth 320 = true /\
  rayDirX (rayOf onLine (cameraXOf 320 screenWidth)) = -16 /\
  rayDirY (rayOf onLine (cameraXOf 320 screenWidth)) = 0 /\
  initialSideDist 64 (rayDirX (rayOf onLine (cameraXOf 320 screenWidth)))
    (rayDeltaX (rayOf onLine (cameraXOf 320 screenWidth))) = 0 /\
  forall hs : list hitDetails,
  exists t1,
    loopBody hall 320 hs
      (rayOf onLine (cameraXOf 320 screenWidth))
      (mkTraversal 64 48
         (initialSideDist 64
            (rayDirX (rayOf onLine (cameraXOf 320 screenWidth)))
            (rayDeltaX (rayOf onLine (cameraXOf 320 screenWidth))))
         (initialSideDist 48
            (rayDirY (rayOf onLine (cameraXOf 320 screenWidth)))
            (rayDeltaY (rayOf onLine (cameraXOf 320 screenWidth))))
         defaultHit)
    = Some (false, t1) /\
    mapX t1 = 64%Z /\ mapY t1 = 48%Z.
Proof.
  assert (Hx : dirX onLine + cameraPlaneX onLine * cameraXOf 320 screenWidth
               = -16).
  { change (dirX onLine) with (-16). change (cameraPlaneX onLine) with 0.
    ring. }
  assert (Hy : dirY onLine + cameraPlaneY onLine * cameraXOf 320 screenWidth
               = 0).
  { change (dirY onLine) with 0. change (cameraPlaneY onLine) with 16.
    unfold cameraXOf, screenWidth. lra. }
  assert (Hrx : rayDirX (rayOf onLine (cameraXOf 320 screenWidth)) = -16)
    by exact Hx.
  assert (Hry : rayDirY (rayOf onLine (cameraXOf 320 screenWidth)) = 0)
    by exact Hy.
  split; [apply (to_int_IZR 64), int_range_small; lia |].
  split; [apply (to_int_IZR 48), int_range_small; lia |].
  split.
  { apply (columnInRange_twentieths onLine screenWidth 320 (-320) 0);
      try lia; [rewrite Hx | rewrite Hy]; lra. }
  split; [exact Hrx |]. split; [exact Hry |].
  split.
  { unfold initialSideDist. rewrite Hrx, Rltb_true by lra.
    change (Z.rem 64 32) with 0%Z. unfold Rdiv. ring. }
  intros hs. eexists. split.
  - apply loopBody_on_line with (raw := defaultHit).
    + reflexivity.
    + rewrite Hrx. lra.
    + apply int_range_small; lia.
    + apply int_range_small; lia.
    + rewrite checkForHit_at by (apply int_range_small; lia). reflexivity.
    + reflexivity.
  - split; reflexivity.
Qed.

(** ** The claims at the scenario *)

Lemma ring3_closed : closedGrid ring3 3 3 = true.
Proof. reflexivity. Qed.

Lemma viewer_raysInRange : raysInRange viewer 2 = true.
Proof.
  apply raysInRange_intro. intros k Hk.
  apply viewer_columnInRange. change (Z.to_nat (2 + 1)) with 3%nat in Hk. lia.
Qed.

Lemma viewer_insideBorder : insideBorder viewer 3 3.
Proof.
  exists 32%Z, 48%Z.
  split; [apply (to_int_IZR 32), int_range_small; lia |].
  split; [apply (to_int_IZR 48), int_range_small; lia |].
  lia.
Qed.

Lemma calcRays_one_result_per_column_witness :
  closedGrid ring3 3 3 = true /\ (32 * 3 <= INT_MAX)%Z /\
  insideBorder viewer 3 3 /\ 2%Z <> 0%Z /\ raysInRange viewer 2 = true /\
  exists rays hs,
    (forall extra : nat,
        calcRays (fuelFor 3 3 + extra) viewer 2 ring3 = Some (rays, hs)) /\
    length rays = Z.to_nat (2 + 1) /\
    length hs = Z.to_nat (2 + 1) /\
    forall i, (i < Z.to_nat (2 + 1))%nat ->
      exists p h,
        nth_error rays i = Some p /\ nth_error hs i = Some h /\
        castColumn (fuelFor 3 3) viewer 2 ring3 (Z.of_nat i) (firstn i hs)
        = Some (p, h) /\
        validHit viewer ring3 p h.
Proof.
  assert (Hfit : (32 * 3 <= INT_MAX)%Z) by (unfold INT_MAX; lia).
  assert (Hsw : 2%Z <> 0%Z) by discriminate.
  split; [exact ring3_closed |]. split; [exact Hfit |].
  split; [exact viewer_insideBorder |]. split; [exact Hsw |].
  split; [exact viewer_raysInRange |].
  exact (calcRays_one_result_per_column ring3 3 3 viewer 2
           ring3_closed Hfit Hfit viewer_insideBorder Hsw viewer_raysInRange).
Defined.

Lemma calcRays_more_fuel (fuel extra : nat) (c : Character)
    (screenWidth : Z) (worldMap : Grid)
    (res : list Vector2f * list hitDetails) :
  calcRays fuel c screenWidth worldMap = Some res ->
  calcRays (fuel + extra) c screenWidth worldMap = Some res.
Proof. unfold calcRays. apply calcRays_prefix_more_fuel. Qed.

Lemma calcRays_zero_width (fuel : nat) (c : Character) (worldMap : Grid) :
  calcRays fuel c 0 worldMap = None.
Proof.
  unfold calcRays. change (columns 0) with [0%Z].
  cbv beta iota delta [fold_left pushColumn bind castColumn].
  change (0 =? 0)%Z with true. reflexivity.
Qed.

(** Against C1 as stated.  In the closed grid [ring3] the viewpoint stands
    on the grid line of the left border cell: the pass returns its three
    results, and the first has distance 0, not a positive one.  In the
    grid [open3] without a border the pass returns no result at all,
    whatever the bound on the iterations; nor does it with
    [screenWidth = 0]. *)
Lemma calcRays_zero_distance_and_no_result :
  closedGrid ring3 3 3 = true /\ insideBorder viewer 3 3 /\
  (forall extra : nat,
      calcRays (1 + extra) viewer 2 ring3 = Some (scenarioRays, scenarioHits)) /\
  nth_error scenarioHits 0 = Some (mkHit 0 1 vertical) /\
  ~ 0 < distance (mkHit 0 1 vertical) /\
  (forall fuel : nat, calcRays fuel viewer 2 open3 = None) /\
  (forall fuel : nat, calcRays fuel viewer 0 ring3 = None).
Proof.
  split; [exact ring3_closed |]. split; [exact viewer_insideBorder |].
  split; [intros extra; apply calcRays_more_fuel, viewer_calcRays |].
  split; [reflexivity |].
  split; [cbn [distance]; lra |].
  split; [exact viewer_open_calcRays |].
  intros fuel. apply calcRays_zero_width.
Qed.

Lemma castColumn_terminates_witness :
  closedGrid ring3 3 3 = true /\ (32 * 3 <= INT_MAX)%Z /\
  insideBorder viewer 3 3 /\ 2%Z <> 0%Z /\
  columnInRange viewer 2 2 = true /\
  (0 <= 2 <= Z.of_nat (length [defaultHit; defaultHit]))%Z /\
  rayDirX (rayOf viewer (cameraXOf 2 2)) = 0 /\
  exists p h,
    (forall extra : nat,
        castColumn (fuelFor 3 3 + extra) viewer 2 ring3 2
          [defaultHit; defaultHit] = Some (p, h)) /\
    validHit viewer ring3 p h.
Proof.
  assert (Hfit : (32 * 3 <= INT_MAX)%Z) by (unfold INT_MAX; lia).
  assert (Hsw : 2%Z <> 0%Z) by discriminate.
  assert (Hi : (0 <= 2 <= Z.of_nat (length [defaultHit; defaultHit]))%Z)
    by (cbn [length]; lia).
  assert (Hr : columnInRange viewer 2 2 = true)
    by (apply viewer_columnInRange; lia).
  split; [exact ring3_closed |]. split; [exact Hfit |].
  split; [exact viewer_insideBorder |]. split; [exact Hsw |].
  split; [exact Hr |]. split; [exact Hi |].
  split; [rewrite viewer_ray_down; reflexivity |].
  exact (castColumn_terminates ring3 3 3 viewer 2 2 [defaultHit; defaultHit]
           ring3_closed Hfit Hfit viewer_insideBorder Hsw Hr Hi).
Defined.

Lemma farSighted_out_of_range : columnInRange farSighted 2 1 = false.
Proof.
  unfold columnInRange, rayOf. cbv beta iota zeta delta [rayDirX rayDirY].
  assert (Hx : dirX farSighted + cameraPlaneX farSighted * cameraXOf 1 2
               = 1e200).
  { change (dirX farSighted) with 1e200.
    change (cameraPlaneX farSighted) with 16. unfold cameraXOf. lra. }
  assert (Hy : dirY farSighted + cameraPlaneY farSighted * cameraXOf 1 2
               = 1e200).
  { change (dirY farSighted) with 1e200.
    change (cameraPlaneY farSighted) with 16. unfold cameraXOf. lra. }
  rewrite Hx, Hy.
  assert (Hsum : normal (1e200 * 1e200 + 1e200 * 1e200) = false).
  { unfold normal. rewrite Reqb_false by lra.
    rewrite Rabs_right by lra.
    rewrite (Rleb_false _ DBL_MAX) by (unfold DBL_MAX; lra).
    rewrite andb_false_r. reflexivity. }
  unfold inRange. rewrite Hsum, andb_false_r. reflexivity.
Qed.

(** Against C3 as stated.  In the closed grid [ring3], column 0 of the
    viewer has a ray along the X axis ([rayDirY = 0]): the loop ends, and
    the result has distance 0, not a positive one.  With [screenWidth = 0]
    the column has no result, whatever the bound on the iterations; and a
    column whose ray leaves the range of [double] has none either. *)
Lemma castColumn_axis_ray_zero_distance :
  closedGrid ring3 3 3 = true /\ insideBorder viewer 3 3 /\
  rayDirY (rayOf viewer (cameraXOf 0 2)) = 0 /\
  (forall extra : nat,
      castColumn (1 + extra) viewer 2 ring3 0 []
      = Some (mkVec 32 48, mkHit 0 1 vertical)) /\
  ~ 0 < distance (mkHit 0 1 vertical) /\
  (forall fuel : nat, castColumn fuel viewer 0 ring3 0 [] = None) /\
  insideBorder farSighted 3 3 /\
  (forall fuel : nat, castColumn fuel farSighted 2 ring3 1 [defaultHit] = None).
Proof.
  split; [exact ring3_closed |]. split; [exact viewer_insideBorder |].
  split; [rewrite viewer_ray_left; reflexivity |].
  split.
  { intros extra. apply castColumn_more_fuel, viewer_column_left.
    left. reflexivity. }
  split; [cbn [distance]; lra |].
  split; [intros fuel; reflexivity |].
  split; [exact viewer_insideBorder |].
  intros fuel. unfold castColumn. change (2 =? 0)%Z with false.
  cbv beta iota.
  change (vx (center farSighted)) with (IZR 32).
  change (vy (center farSighted)) with (IZR 48).
  rewrite (to_int_IZR 32), (to_int_IZR 48) by (apply int_range_small; lia).
  cbv beta iota zeta delta [bind].
  pose proof farSighted_out_of_range as Hr.
  unfold columnInRange in Hr. cbv zeta in Hr. rewrite Hr. reflexivity.
Qed.

Lemma calcRays_distance_is_euclidean_witness :
  calcRays 1 viewer 2 ring3 = Some (scenarioRays, scenarioHits) /\
  nth_error scenarioRays 2 = Some (mkVec 32 64) /\
  nth_error scenarioHits 2 = Some (mkHit 16 1 vertical) /\
  distance (mkHit 16 1 vertical)
  = sqrt ((vx (center viewer) - vx (mkVec 32 64))
          * (vx (center viewer) - vx (mkVec 32 64))
          + (vy (center viewer) - vy (mkVec 32 64))
            * (vy (center viewer) - vy (mkVec 32 64))).
Proof.
  split; [exact viewer_calcRays |]. split; [reflexivity |].
  split; [reflexivity |].
  exact (calcRays_distance_is_euclidean 1 viewer 2 ring3 scenarioRays
           scenarioHits viewer_calcRays 2 (mkVec 32 64) (mkHit 16 1 vertical)
           eq_refl eq_refl).
Defined.

Lemma viewer_corner_classified :
  checkForHit (vx (mkVec 32 64) / 32) (vy (mkVec 32 64) / 32) defaultHit ring3
  = Some (true, mkHit 0 1 unknown).
Proof.
  change (vx (mkVec 32 64)) with (IZR 32).
  change (vy (mkVec 32 64)) with (IZR 64).
  rewrite checkForHit_at by (apply int_range_small; lia). reflexivity.
Qed.

Lemma calcRays_unknown_inherits_previous_witness :
  calcRays 1 viewer 2 ring3 = Some (scenarioRays, scenarioHits) /\
  nth_error scenarioRays 2 = Some (mkVec 32 64) /\
  nth_error scenarioHits 2 = Some (mkHit 16 1 vertical) /\
  checkForHit (vx (mkVec 32 64) / 32) (vy (mkVec 32 64) / 32) defaultHit ring3
  = Some (true, mkHit 0 1 unknown) /\
  alignment (mkHit 0 1 unknown) = unknown /\
  (2%nat = 0%nat -> alignment (mkHit 16 1 vertical) = unknown) /\
  ((0 < 2)%nat ->
   exists prev, nth_error scenarioHits (2 - 1) = Some prev /\
                alignment (mkHit 16 1 vertical) = alignment prev).
Proof.
  split; [exact viewer_calcRays |]. split; [reflexivity |].
  split; [reflexivity |]. split; [exact viewer_corner_classified |].
  split; [reflexivity |].
  exact (calcRays_unknown_inherits_previous 1 viewer 2 ring3 scenarioRays
           scenarioHits viewer_calcRays 2 (mkVec 32 64) (mkHit 16 1 vertical)
           (mkHit 0 1 unknown) eq_refl eq_refl viewer_corner_classified
           eq_refl).
Defined.

(** ** Small evaluations *)

Example checkForHit_ring3_corner :
  checkForHit (32 / 32) (32 / 32) defaultHit ring3
  = Some (true, mkHit 0 1 unknown).
Proof. rewrite checkForHit_at by (apply int_range_small; lia). reflexivity. Qed.

Example checkForHit_ring3_vertical :
  checkForHit (32 / 32) (48 / 32) defaultHit ring3
  = Some (true, mkHit 0 1 vertical).
Proof. rewrite checkForHit_at by (apply int_range_small; lia). reflexivity. Qed.

Example checkForHit_ring3_horizontal :
  checkForHit (48 / 32) (64 / 32) defaultHit ring3
  = Some (true, mkHit 0 1 horizontal).
Proof. rewrite checkForHit_at by (apply int_range_small; lia). reflexivity. Qed.

Example checkForHit_ring3_inside :
  checkForHit (48 / 32) (48 / 32) defaultHit ring3 = Some (false, defaultHit).
Proof. rewrite checkForHit_at by (apply int_range_small; lia). reflexivity. Qed.

(** Outside the grid the classification reads a cell that is not there. *)
Example checkForHit_open3_outside :
  checkForHit (0 / 32) (48 / 32) defaultHit open3 = None.
Proof. rewrite checkForHit_at by (apply int_range_small; lia). reflexivity. Qed.

Example calcNewDistance_left :
  calcNewDistance 40 (-1) (-32) = -8.
Proof.
  unfold calcNewDistance, BLOCK_WIDTH. change (Z.rem 40 32) with 8%Z.
  rewrite Rltb_true, Reqb_false by lra. cbv beta iota delta [andb].
  rewrite Rleb_false by lra. field.
Qed.

Example calcNewDistance_right_on_line :
  calcNewDistance 64 1 32 = 32.
Proof.
  unfold calcNewDistance, BLOCK_WIDTH. change (Z.rem 64 32) with 0%Z.
  rewrite Rltb_false by lra. cbv beta iota delta [andb].
  rewrite Rleb_true by lra. rewrite Reqb_false by lra. field.
Qed.

(** The viewpoint of [Main.cpp]: facing (-16, 0) with the camera plane
    (0, 16), perpendicular to it. *)
Lemma rotate_preserves_magnitude_and_angle_witness :
  facingDotPlane (newCharacter 16 (-16) 0 0 16) = 0 /\
  facingDotPlane (rotateAll (newCharacter 16 (-16) 0 0 16) [LEFT; RIGHT; LEFT])
  = 0.
Proof.
  assert (H0 : facingDotPlane (newCharacter 16 (-16) 0 0 16) = 0).
  { cbv beta iota zeta delta
      [facingDotPlane newCharacter dirX dirY cameraPlaneX cameraPlaneY].
    ring. }
  split; [exact H0 |].
  exact (proj2 (proj2 (proj2
           (rotate_preserves_magnitude_and_angle [LEFT; RIGHT; LEFT]
              (newCharacter 16 (-16) 0 0 16)))) H0).
Defined.

(** * Further properties of the code *)

(** ** The character under the input loop *)

Lemma handleEvent_perform (c : Character) (e : Event) :
  handleEvent c e = perform c (actionOf e).
Proof.
  unfold handleEvent, actionOf.
  destruct (isClosed e); [reflexivity |].
  destruct (keyLeft e); [reflexivity |].
  destruct (keyRight e); [reflexivity |].
  destruct (keyUp e); [reflexivity |].
  destruct (keyDown e); [reflexivity |].
  destruct (keyQ e); [reflexivity |].
  destruct (keyW e); reflexivity.
Qed.

Ltac unfold_character :=
  cbv beta iota zeta delta
    [updateMovement rotate move set_center vadd getCharacterCenter
     newCharacter directionTip perform
     characterRadius directionRay cameraPlane charObject dirX dirY
     cameraPlaneX cameraPlaneY center hits rayCasts vx vy fst snd].

(** What a translation changes: the centre, the circle and the four drawn
    vertices move by the same offset; the vectors stay. *)
Lemma updateMovement_fields (c : Character) (d : movementDirection) :
  let dx := match d with LEFT => - MOVEMENT_SPEED | RIGHT => MOVEMENT_SPEED
                       | _ => 0 end in
  let dy := match d with UP => - MOVEMENT_SPEED | DOWN => MOVEMENT_SPEED
                       | _ => 0 end in
  center (updateMovement c d) = vadd (center c) dx dy /\
  charObject (updateMovement c d) = vadd (charObject c) dx dy /\
  fst (directionRay (updateMovement c d)) = vadd (fst (directionRay c)) dx dy /\
  snd (directionRay (updateMovement c d)) = vadd (snd (directionRay c)) dx dy /\
  fst (cameraPlane (updateMovement c d)) = vadd (fst (cameraPlane c)) dx dy /\
  snd (cameraPlane (updateMovement c d)) = vadd (snd (cameraPlane c)) dx dy /\
  dirX (updateMovement c d) = dirX c /\ dirY (updateMovement c d) = dirY c /\
  cameraPlaneX (updateMovement c d) = cameraPlaneX c /\
  cameraPlaneY (updateMovement c d) = cameraPlaneY c /\
  characterRadius (updateMovement c d) = characterRadius c.
Proof.
  destruct c as [rad [[d0x d0y] [d1x d1y]] [[p0x p0y] [p1x p1y]] [ox oy]
                   dx dy px py [cx cy] hs rs].
  destruct d; unfold_character; unfold MOVEMENT_SPEED;
    repeat split; try reflexivity; f_equal; ring.
Qed.

Lemma newCharacter_synced (size dx dy px py : R) :
  synced (newCharacter size dx dy px py).
Proof. unfold synced. unfold_character. repeat split. Qed.

Lemma perform_synced (c : Character) (a : Action) :
  synced c -> synced (perform c a).
Proof.
  destruct c as [rad [[d0x d0y] [d1x d1y]] [[p0x p0y] [p1x p1y]] [ox oy]
                   dx dy px py [cx cy] hs rs].
  unfold synced. unfold_character. intros (Hc & H0 & H1 & Hp).
  injection Hc as -> ->. injection H0 as -> ->. injection H1 as -> ->.
  injection Hp as -> ->.
  destruct a as [[| | |] | | |]; unfold_character; unfold MOVEMENT_SPEED;
    repeat split; f_equal; ring.
Qed.

Lemma pollEvents_snoc (c : Character) (events : list Event) (e : Event) :
  pollEvents c (events ++ [e]) = perform (pollEvents c events) (actionOf e).
Proof.
  unfold pollEvents. rewrite fold_left_app. cbn [fold_left].
  apply handleEvent_perform.
Qed.

Lemma pollEvents_synced (c : Character) (events : list Event) :
  synced c -> synced (pollEvents c events).
Proof.
  intros Hc. induction events as [| e events IH] using rev_ind.
  - exact Hc.
  - rewrite pollEvents_snoc. apply perform_synced. exact IH.
Qed.

(** X1: whatever the constructor's arguments and the events polled
    afterwards, the cached centre is the circle's position plus the
    radius, the drawn direction ray runs from the centre to the centre
    plus the facing vector, and the drawn camera plane ends at that tip
    plus the plane vector. *)
Theorem pollEvents_keeps_drawing_in_sync (size dx dy px py : R)
    (events : list Event) :
  let c := pollEvents (newCharacter size dx dy px py) events in
  center c = getCharacterCenter c /\
  directionRay c = (center c, vadd (center c) (dirX c) (dirY c)) /\
  snd (cameraPlane c)
  = vadd (vadd (center c) (dirX c) (dirY c)) (cameraPlaneX c) (cameraPlaneY c).
Proof.
  intros c.
  destruct (pollEvents_synced _ events (newCharacter_synced size dx dy px py))
    as (Hc & H0 & H1 & Hp).
  fold c in Hc, H0, H1, Hp. unfold directionTip in H1, Hp.
  split; [exact Hc |]. split; [| exact Hp].
  destruct (directionRay c) as [a b]. cbn [fst snd] in H0, H1.
  rewrite H0, H1. reflexivity.
Qed.

Lemma perform_plane_start (c : Character) (a : Action) (turned : bool) :
  synced c ->
  fst (cameraPlane c)
  = (if turned then directionTip c
     else vadd (directionTip c) (- cameraPlaneX c) (- cameraPlaneY c)) ->
  fst (cameraPlane (perform c a))
  = (if turned || (Action_eqb a RotateLeft || Action_eqb a RotateRight)
     then directionTip (perform c a)
     else vadd (directionTip (perform c a))
            (- cameraPlaneX (perform c a)) (- cameraPlaneY (perform c a))).
Proof.
  destruct c as [rad [[d0x d0y] [d1x d1y]] [[p0x p0y] [p1x p1y]] [ox oy]
                   dx dy px py [cx cy] hs rs].
  unfold synced. unfold_character. intros (Hc & H0 & H1 & Hp) Hs.
  injection Hc as -> ->. injection H0 as -> ->. injection H1 as -> ->.
  injection Hp as -> ->.
  destruct turned; injection Hs as -> ->;
    destruct a as [[| | |] | | |];
    cbv beta iota delta [orb Action_eqb movementDirection_eqb];
    unfold_character; unfold MOVEMENT_SPEED; f_equal; ring.
Qed.

(** X2: the camera plane is drawn from the tip of the direction ray minus
    the plane vector as long as no event has rotated the character, and
    from the tip itself once one has: the constructor centres the drawn
    plane on the tip, [rotate] starts it there. *)
Theorem pollEvents_camera_plane_start (size dx dy px py : R)
    (events : list Event) :
  let c := pollEvents (newCharacter size dx dy px py) events in
  fst (cameraPlane c)
  = (if existsb rotates events
     then vadd (center c) (dirX c) (dirY c)
     else vadd (vadd (center c) (dirX c) (dirY c))
            (- cameraPlaneX c) (- cameraPlaneY c)).
Proof.
  cbv zeta. induction events as [| e events IH] using rev_ind.
  - unfold pollEvents. unfold_character. cbn [existsb fold_left].
    unfold_character. f_equal; ring.
  - rewrite pollEvents_snoc, existsb_app. cbn [existsb]. rewrite orb_false_r.
    apply (perform_plane_start _ (actionOf e) (existsb rotates events)).
    + apply pollEvents_synced, newCharacter_synced.
    + exact IH.
Qed.

Lemma countAction_snoc (a : Action) (events : list Event) (e : Event) :
  INR (countAction a (events ++ [e]))
  = INR (countAction a events) + (if Action_eqb (actionOf e) a then 1 else 0).
Proof.
  unfold countAction. rewrite filter_app, length_app, plus_INR.
  cbn [filter]. destruct (Action_eqb (actionOf e) a); reflexivity.
Qed.

Lemma perform_center (c : Character) (a : Action) :
  center (perform c a)
  = match a with
    | Translate LEFT => vadd (center c) (- MOVEMENT_SPEED) 0
    | Translate RIGHT => vadd (center c) MOVEMENT_SPEED 0
    | Translate UP => vadd (center c) 0 (- MOVEMENT_SPEED)
    | Translate DOWN => vadd (center c) 0 MOVEMENT_SPEED
    | _ => center c
    end.
Proof.
  destruct a as [d | | |]; try reflexivity.
  destruct (updateMovement_fields c d) as (H & _).
  destruct d; exact H.
Qed.

(** X3: the centre after any events is the constructor's centre moved by
    [MOVEMENT_SPEED] times the number of effective Right events minus Left
    events horizontally, and Down minus Up vertically: the position
    depends on how many moves happened in each direction, not on their
    order, and rotations do not move it. *)
Theorem pollEvents_position_counts_moves (size dx dy px py : R)
    (events : list Event) :
  let c := pollEvents (newCharacter size dx dy px py) events in
  vx (center c)
  = size + MOVEMENT_SPEED * (INR (countAction (Translate RIGHT) events)
                             - INR (countAction (Translate LEFT) events)) /\
  vy (center c)
  = size + MOVEMENT_SPEED * (INR (countAction (Translate DOWN) events)
                             - INR (countAction (Translate UP) events)).
Proof.
  cbv zeta. induction events as [| e events [IHx IHy]] using rev_ind.
  - unfold pollEvents, countAction. cbn [fold_left filter length].
    unfold_character. change (INR 0) with 0. split; ring.
  - rewrite pollEvents_snoc, perform_center, !countAction_snoc.
    destruct (center (pollEvents (newCharacter size dx dy px py) events))
      as [cx cy].
    cbv beta iota delta [vx vy] in IHx, IHy. subst cx cy.
    destruct (actionOf e) as [[| | |] | | |];
      cbv beta iota delta [Action_eqb movementDirection_eqb vadd vx vy];
      split; ring.
Qed.

(** Two turns in a row are one turn by the sum of the angles. *)
Lemma turn_turn (a b x y : R) :
  turnX a (turnX b x y) (turnY b x y) = turnX (b + a) x y /\
  turnY a (turnX b x y) (turnY b x y) = turnY (b + a) x y.
Proof. unfold turnX, turnY. rewrite cos_plus, sin_plus. split; ring. Qed.

Lemma turn_zero (x y : R) : turnX 0 x y = x /\ turnY 0 x y = y.
Proof. unfold turnX, turnY. rewrite cos_0, sin_0. split; ring. Qed.

Lemma perform_vectors (c : Character) (a : Action) :
  let angle := match a with
               | RotateLeft => -1 * 0.01
               | RotateRight => 1 * 0.01
               | _ => 0
               end in
  dirX (perform c a) = turnX angle (dirX c) (dirY c) /\
  dirY (perform c a) = turnY angle (dirX c) (dirY c) /\
  cameraPlaneX (perform c a) = turnX angle (cameraPlaneX c) (cameraPlaneY c) /\
  cameraPlaneY (perform c a) = turnY angle (cameraPlaneX c) (cameraPlaneY c).
Proof.
  destruct a as [d | | |]; cbv beta iota zeta delta [perform].
  - destruct (updateMovement_fields c d) as (_ & _ & _ & _ & _ & _ & -> & -> & -> & -> & _).
    destruct (turn_zero (dirX c) (dirY c)) as [-> ->].
    destruct (turn_zero (cameraPlaneX c) (cameraPlaneY c)) as [-> ->]. auto.
  - repeat split.
  - repeat split.
  - destruct (turn_zero (dirX c) (dirY c)) as [-> ->].
    destruct (turn_zero (cameraPlaneX c) (cameraPlaneY c)) as [-> ->]. auto.
Qed.

Lemma netAngle_snoc (events : list Event) (e : Event) :
  netAngle (events ++ [e])
  = netAngle events + match actionOf e with
                      | RotateLeft => -1 * 0.01
                      | RotateRight => 1 * 0.01
                      | _ => 0
                      end.
Proof.
  unfold netAngle. rewrite !countAction_snoc.
  destruct (actionOf e) as [[| | |] | | |];
    cbv beta iota delta [Action_eqb movementDirection_eqb]; ring.
Qed.

(** X4: after any events the facing vector and the camera-plane vector are
    the constructor's vectors turned by one angle, 0.01 times the number
    of effective W events minus Q events: rotations compose by adding
    their angles, in any order and whatever moves lie between them. *)
Theorem pollEvents_facing_is_net_rotation (size dx dy px py : R)
    (events : list Event) :
  let c := pollEvents (newCharacter size dx dy px py) events in
  dirX c = turnX (netAngle events) dx dy /\
  dirY c = turnY (netAngle events) dx dy /\
  cameraPlaneX c = turnX (netAngle events) px py /\
  cameraPlaneY c = turnY (netAngle events) px py.
Proof.
  cbv zeta. induction events as [| e events (IH1 & IH2 & IH3 & IH4)] using rev_ind.
  - unfold netAngle, countAction. cbn [filter length]. change (INR 0) with 0.
    replace (0.01 * (0 - 0)) with 0 by ring.
    destruct (turn_zero dx dy) as [-> ->].
    destruct (turn_zero px py) as [-> ->].
    unfold pollEvents. cbn [fold_left]. repeat split.
  - rewrite pollEvents_snoc, netAngle_snoc.
    destruct (perform_vectors
                (pollEvents (newCharacter size dx dy px py) events)
                (actionOf e)) as (H1 & H2 & H3 & H4).
    cbv zeta in H1, H2, H3, H4.
    rewrite H1, H2, H3, H4, IH1, IH2, IH3, IH4.
    destruct (turn_turn
                (match actionOf e with
                 | RotateLeft => -1 * 0.01
                 | RotateRight => 1 * 0.01
                 | _ => 0
                 end) (netAngle events) dx dy) as [-> ->].
    destruct (turn_turn
                (match actionOf e with
                 | RotateLeft => -1 * 0.01
                 | RotateRight => 1 * 0.01
                 | _ => 0
                 end) (netAngle events) px py) as [-> ->].
    repeat split.
Qed.

(** ** Where a ray strikes *)

Lemma calcRays_entry (fuel : nat) (c : Character) (screenWidth : Z)
    (worldMap : Grid) (rays : list Vector2f) (hs : list hitDetails)
    (i : nat) (p : Vector2f) :
  calcRays fuel c screenWidth worldMap = Some (rays, hs) ->
  nth_error rays i = Some p ->
  exists h,
    nth_error hs i = Some h /\
    castColumn fuel c screenWidth worldMap (Z.of_nat i) (firstn i hs)
    = Some (p, h).
Proof.
  intros Hcalc Hp.
  destruct (calcRays_columns _ _ _ _ _ _ Hcalc) as (Hlr & _ & Hcols).
  assert (Hi : (i < Z.to_nat (screenWidth + 1))%nat).
  { rewrite <- Hlr. apply nth_error_Some. rewrite Hp. discriminate. }
  destruct (Hcols i Hi) as (p' & h & Hp' & Hh & Hcast).
  rewrite Hp in Hp'. injection Hp' as <-.
  exists h. split; assumption.
Qed.

(** X5: every struck position a pass returns has whole-number
    coordinates and lies on a grid line: its X or its Y coordinate is a
    multiple of the block width 32. *)
Theorem calcRays_strikes_on_grid_lines (fuel : nat) (c : Character)
    (screenWidth : Z) (worldMap : Grid)
    (rays : list Vector2f) (hs : list hitDetails) (i : nat) (p : Vector2f) :
  calcRays fuel c screenWidth worldMap = Some (rays, hs) ->
  nth_error rays i = Some p ->
  exists x y : Z,
    p = mkVec (IZR x) (IZR y) /\ ((x mod 32 = 0)%Z \/ (y mod 32 = 0)%Z).
Proof.
  intros Hcalc Hp.
  destruct (calcRays_entry _ _ _ _ _ _ _ _ Hcalc Hp) as (h & _ & Hcast).
  apply castColumn_result in Hcast
    as (_ & x & y & raw & recorded & -> & Hc & _ & _).
  exists x, y. split; [reflexivity |].
  apply checkForHit_hit in Hc as (_ & _ & Hline & _).
  rewrite !onGridLine_div32 in Hline.
  destruct Hline as [H | H]; apply Z.eqb_eq in H; auto.
Qed.

Lemma calcRays_strikes_on_grid_lines_witness :
  calcRays 1 viewer 2 ring3 = Some (scenarioRays, scenarioHits) /\
  nth_error scenarioRays 2 = Some (mkVec 32 64) /\
  exists x y : Z,
    mkVec 32 64 = mkVec (IZR x) (IZR y) /\
    ((x mod 32 = 0)%Z \/ (y mod 32 = 0)%Z).
Proof.
  split; [exact viewer_calcRays |]. split; [reflexivity |].
  exact (calcRays_strikes_on_grid_lines 1 viewer 2 ring3 scenarioRays
           scenarioHits 2 (mkVec 32 64) viewer_calcRays eq_refl).
Defined.

Lemma classify_line_alignment (x y : Z) (worldMap : Grid) (raw : hitDetails) :
  checkForHit (IZR x / 32) (IZR y / 32) defaultHit worldMap = Some (true, raw) ->
  ((x mod 32 = 0)%Z -> (y mod 32 <> 0)%Z -> alignment raw = vertical) /\
  ((x mod 32 <> 0)%Z -> (y mod 32 = 0)%Z -> alignment raw = horizontal).
Proof.
  rewrite checkForHit_classifyHit. unfold classifyHit.
  rewrite !onGridLine_div32.
  destruct (Z.eqb_spec (x mod 32) 0) as [Hx | Hx];
    destruct (Z.eqb_spec (y mod 32) 0) as [Hy | Hy];
    cbv beta iota delta [andb]; intros H;
    (split; intros H1 H2; try contradiction).
  - destruct (to_int (IZR x / 32)); [| discriminate].
    destruct (to_int (floor (IZR y / 32))); [| discriminate].
    cbv beta iota delta [bind] in H.
    destruct (firstNonzero _ _) as [[m |] |]; try discriminate.
    injection H as <-. reflexivity.
  - destruct (to_int (IZR y / 32)); [| discriminate].
    destruct (to_int (floor (IZR x / 32))); [| discriminate].
    cbv beta iota delta [bind] in H.
    destruct (firstNonzero _ _) as [[m |] |]; try discriminate.
    injection H as <-. reflexivity.
Qed.

(** X6: a result whose struck position lies on a vertical grid line only
    (X a multiple of 32, Y not) is recorded Vertical, and one on a
    horizontal grid line only is recorded Horizontal, in every column. *)
Theorem calcRays_alignment_follows_grid_line (fuel : nat) (c : Character)
    (screenWidth : Z) (worldMap : Grid)
    (rays : list Vector2f) (hs : list hitDetails)
    (i : nat) (x y : Z) (h : hitDetails) :
  calcRays fuel c screenWidth worldMap = Some (rays, hs) ->
  nth_error rays i = Some (mkVec (IZR x) (IZR y)) ->
  nth_error hs i = Some h ->
  ((x mod 32 = 0)%Z -> (y mod 32 <> 0)%Z -> alignment h = vertical) /\
  ((x mod 32 <> 0)%Z -> (y mod 32 = 0)%Z -> alignment h = horizontal).
Proof.
  intros Hcalc Hp Hh.
  destruct (calcRays_entry _ _ _ _ _ _ _ _ Hcalc Hp) as (h' & Hh' & Hcast).
  rewrite Hh in Hh'. injection Hh' as <-.
  apply castColumn_result in Hcast
    as (_ & x' & y' & raw & recorded & Hxy & Hc & Hin & ->).
  injection Hxy as Hx Hy. apply eq_IZR in Hx, Hy. subst x' y'.
  destruct (classify_line_alignment x y worldMap raw Hc) as [Hv Hz].
  assert (Hrec : alignment raw <> unknown -> alignment recorded = alignment raw).
  { intros Hne. unfold inheritAlignment in Hin.
    destruct (alignment raw) eqn:Ha; try contradiction;
      cbn [Alignment_eqb] in Hin; rewrite andb_false_r in Hin;
      injection Hin as <-; exact Ha. }
  cbn [alignment set_distance].
  split; intros H1 H2.
  - rewrite Hrec; rewrite (Hv H1 H2); [reflexivity | discriminate].
  - rewrite Hrec; rewrite (Hz H1 H2); [reflexivity | discriminate].
Qed.

Lemma calcRays_alignment_follows_grid_line_witness :
  calcRays 1 viewer 2 ring3 = Some (scenarioRays, scenarioHits) /\
  nth_error scenarioRays 0 = Some (mkVec (IZR 32) (IZR 48)) /\
  nth_error scenarioHits 0 = Some (mkHit 0 1 vertical) /\
  ((32 mod 32 = 0)%Z -> (48 mod 32 <> 0)%Z ->
   alignment (mkHit 0 1 vertical) = vertical) /\
  ((32 mod 32 <> 0)%Z -> (48 mod 32 = 0)%Z ->
   alignment (mkHit 0 1 vertical) = horizontal).
Proof.
  split; [exact viewer_calcRays |]. split; [reflexivity |].
  split; [reflexivity |].
  exact (calcRays_alignment_follows_grid_line 1 viewer 2 ring3 scenarioRays
           scenarioHits 0 32 48 (mkHit 0 1 vertical) viewer_calcRays
           eq_refl eq_refl).
Defined.

(** ** Rays travel forward *)

Lemma round_nonneg (a : R) :
  0 <= a ->
  exists n : Z, (0 <= n)%Z /\ round a = IZR n /\ round (a * -1) = IZR (- n).
Proof.
  intros Ha.
  destruct (archimed a) as [Hup _].
  destruct (round_magnitude a (up a) ltac:(lra)) as (n & [Hn _] & Hr & Hrn & _).
  exists n. auto.
Qed.

(** A coordinate never moves against the sign of its step distance. *)
Lemma advance_direction (m m' : Z) (adj dd : R) :
  advance m adj dd = Some m' ->
  (0 < dd -> (m <= m')%Z) /\ (dd <= 0 -> (m' <= m)%Z).
Proof.
  unfold advance. intros H.
  destruct (round_nonneg (Rabs (adj / dd * 32)) (Rabs_pos _))
    as (n & Hn & Hr & Hrn).
  destruct (Rltb_spec 0 dd) as [Hpos | Hneg].
  - rewrite Rmult_1_r, Hr, <- plus_IZR in H.
    apply to_int_range in H as [-> _]. rewrite truncate_IZR.
    split; intros; [lia | lra].
  - rewrite Hrn, <- plus_IZR in H.
    apply to_int_range in H as [-> _]. rewrite truncate_IZR.
    split; intros; [lra | lia].
Qed.

Lemma whileNotHit_direction (fuel : nat) (worldMap : Grid) (i : Z)
    (hs : list hitDetails) (r : Ray) (t0 t : Traversal) :
  whileNotHit fuel worldMap i hs r t0 = Some t ->
  (0 < rayDeltaX r -> (mapX t0 <= mapX t)%Z) /\
  (rayDeltaX r <= 0 -> (mapX t <= mapX t0)%Z) /\
  (0 < rayDeltaY r -> (mapY t0 <= mapY t)%Z) /\
  (rayDeltaY r <= 0 -> (mapY t <= mapY t0)%Z).
Proof.
  revert t0. induction fuel as [| fuel IH]; intros t0; cbn [whileNotHit];
    [discriminate |].
  destruct (loopBody worldMap i hs r t0) as [[hit t1] |] eqn:Hbody;
    cbv beta iota delta [bind]; [| discriminate].
  apply loopBody_positions in Hbody as (adj & _ & _ & _ & Hx & Hy).
  apply advance_direction in Hx as [Hx1 Hx2].
  apply advance_direction in Hy as [Hy1 Hy2].
  destruct hit.
  - intros H. injection H as <-. auto.
  - intros H. destruct (IH _ H) as (H1 & H2 & H3 & H4).
    repeat split; intros Hs.
    + specialize (Hx1 Hs). specialize (H1 Hs). lia.
    + specialize (Hx2 Hs). specialize (H2 Hs). lia.
    + specialize (Hy1 Hs). specialize (H3 Hs). lia.
    + specialize (Hy2 Hs). specialize (H4 Hs). lia.
Qed.

Lemma castColumn_traversal (fuel : nat) (c : Character) (screenWidth : Z)
    (worldMap : Grid) (i : Z) (hs : list hitDetails)
    (p : Vector2f) (h : hitDetails) :
  castColumn fuel c screenWidth worldMap i hs = Some (p, h) ->
  exists (x0 y0 : Z) (t : Traversal),
    to_int (vx (center c)) = Some x0 /\ to_int (vy (center c)) = Some y0 /\
    whileNotHit fuel worldMap i hs (rayOf c (cameraXOf i screenWidth))
      (mkTraversal x0 y0
         (initialSideDist x0 (rayDirX (rayOf c (cameraXOf i screenWidth)))
            (rayDeltaX (rayOf c (cameraXOf i screenWidth))))
         (initialSideDist y0 (rayDirY (rayOf c (cameraXOf i screenWidth)))
            (rayDeltaY (rayOf c (cameraXOf i screenWidth))))
         defaultHit) = Some t /\
    p = mkVec (IZR (mapX t)) (IZR (mapY t)) /\
    distance h = euclid (vx (center c)) (vy (center c))
                   (IZR (mapX t)) (IZR (mapY t)).
Proof.
  unfold castColumn.
  destruct (screenWidth =? 0)%Z; [discriminate |].
  destruct (to_int (vx (center c))) as [x0 |]; cbv beta iota delta [bind];
    [| discriminate].
  destruct (to_int (vy (center c))) as [y0 |]; cbv beta iota delta [bind];
    [| discriminate].
  cbv zeta. destruct (inRange _ _); [| discriminate].
  destruct (whileNotHit _ _ _ _ _ _) as [t |] eqn:Hw; [| discriminate].
  intros H. injection H as <- <-.
  exists x0, y0, t. repeat split. exact Hw.
Qed.

(** X7: the struck position of a column is never behind the viewpoint:
    with a negative X component of the ray its X coordinate is at most
    [int(center.x)], otherwise at least that; and likewise in Y. *)
Theorem calcRays_strikes_ahead (fuel : nat) (c : Character)
    (screenWidth : Z) (worldMap : Grid)
    (rays : list Vector2f) (hs : list hitDetails) (i : nat) (p : Vector2f) :
  calcRays fuel c screenWidth worldMap = Some (rays, hs) ->
  nth_error rays i = Some p ->
  exists x0 y0 : Z,
    to_int (vx (center c)) = Some x0 /\ to_int (vy (center c)) = Some y0 /\
    let r := rayOf c (cameraXOf (Z.of_nat i) screenWidth) in
    (rayDirX r < 0 -> vx p <= IZR x0) /\ (0 <= rayDirX r -> IZR x0 <= vx p) /\
    (rayDirY r < 0 -> vy p <= IZR y0) /\ (0 <= rayDirY r -> IZR y0 <= vy p).
Proof.
  intros Hcalc Hp.
  destruct (calcRays_entry _ _ _ _ _ _ _ _ Hcalc Hp) as (h & _ & Hcast).
  apply castColumn_traversal in Hcast
    as (x0 & y0 & t & Hx0 & Hy0 & Hw & -> & _).
  exists x0, y0. split; [exact Hx0 |]. split; [exact Hy0 |]. cbv zeta.
  apply whileNotHit_direction in Hw as (H1 & H2 & H3 & H4).
  cbn [mapX mapY] in H1, H2, H3, H4.
  destruct (rayOf_wellDirected c (cameraXOf (Z.of_nat i) screenWidth))
    as [[Hnx Hsx] [Hny Hsy]].
  cbn [vx vy].
  repeat split; intros Hs; apply IZR_le.
  - apply H2. apply Hsx in Hs. lra.
  - apply H1. destruct (Rtotal_order (rayDeltaX (rayOf c (cameraXOf (Z.of_nat i) screenWidth))) 0)
      as [Hlt | [Heq | Hgt]]; [apply Hsx in Hlt; lra | contradiction | exact Hgt].
  - apply H4. apply Hsy in Hs. lra.
  - apply H3. destruct (Rtotal_order (rayDeltaY (rayOf c (cameraXOf (Z.of_nat i) screenWidth))) 0)
      as [Hlt | [Heq | Hgt]]; [apply Hsy in Hlt; lra | contradiction | exact Hgt].
Qed.

Lemma calcRays_strikes_ahead_witness :
  calcRays 1 viewer 2 ring3 = Some (scenarioRays, scenarioHits) /\
  nth_error scenarioRays 2 = Some (mkVec 32 64) /\
  exists x0 y0 : Z,
    to_int (vx (center viewer)) = Some x0 /\
    to_int (vy (center viewer)) = Some y0 /\
    let r := rayOf viewer (cameraXOf (Z.of_nat 2) 2) in
    (rayDirX r < 0 -> vx (mkVec 32 64) <= IZR x0) /\
    (0 <= rayDirX r -> IZR x0 <= vx (mkVec 32 64)) /\
    (rayDirY r < 0 -> vy (mkVec 32 64) <= IZR y0) /\
    (0 <= rayDirY r -> IZR y0 <= vy (mkVec 32 64)).
Proof.
  split; [exact viewer_calcRays |]. split; [reflexivity |].
  exact (calcRays_strikes_ahead 1 viewer 2 ring3 scenarioRays scenarioHits
           2 (mkVec 32 64) viewer_calcRays eq_refl).
Defined.

(** ** Strikes inside a closed grid *)

Lemma loopBody_closed_bounds (worldMap : Grid) (width height : Z)
    (i : Z) (hs : list hitDetails) (r : Ray) (lo : Z)
    (t t' : Traversal) (hit : bool) :
  closedGrid worldMap width height = true ->
  (32 * width <= INT_MAX)%Z -> (32 * height <= INT_MAX)%Z ->
  (0 <= i <= Z.of_nat (length hs))%Z ->
  wellDirected r -> (0 <= lo)%Z ->
  inside lo width height r t ->
  loopBody worldMap i hs r t = Some (hit, t') ->
  (32 <= mapX t' <= 32 * (width - 1))%Z /\
  (32 <= mapY t' <= 32 * (height - 1))%Z /\
  (hit = false -> inside 1 width height r t').
Proof.
  intros Hg Hw Hh Hi Hdir Hlo Hin Hbody.
  destruct (loopBody_closed worldMap width height Hg Hw Hh i hs r Hi Hdir
              lo t Hlo Hin) as (hit0 & t0 & Hbody0 & Hmiss).
  rewrite Hbody in Hbody0. injection Hbody0 as <- <-.
  apply loopBody_positions in Hbody as (adj & _ & Hax & Hay & Hx & Hy).
  destruct Hin as [Hix Hiy]. destruct Hdir as [Hdx Hdy].
  destruct (axisInv_advance lo width _ _ _ _ adj Hdx Hlo Hw Hix Hax)
    as (x' & Hx' & Hbx & _).
  destruct (axisInv_advance lo height _ _ _ _ adj Hdy Hlo Hh Hiy Hay)
    as (y' & Hy' & Hby & _).
  rewrite Hx in Hx'. injection Hx' as <-.
  rewrite Hy in Hy'. injection Hy' as <-.
  split; [exact Hbx |]. split; [exact Hby |].
  intros H. apply Hmiss. exact H.
Qed.

Lemma whileNotHit_closed_bounds (worldMap : Grid) (width height : Z)
    (i : Z) (hs : list hitDetails) (r : Ray) (fuel : nat) :
  closedGrid worldMap width height = true ->
  (32 * width <= INT_MAX)%Z -> (32 * height <= INT_MAX)%Z ->
  (0 <= i <= Z.of_nat (length hs))%Z ->
  wellDirected r ->
  forall (lo : Z) (t t' : Traversal),
    (0 <= lo)%Z ->
    inside lo width height r t ->
    whileNotHit fuel worldMap i hs r t = Some t' ->
    (32 <= mapX t' <= 32 * (width - 1))%Z /\
    (32 <= mapY t' <= 32 * (height - 1))%Z.
Proof.
  intros Hg Hw Hh Hi Hdir.
  induction fuel as [| fuel IH]; intros lo t t' Hlo Hin; cbn [whileNotHit];
    [discriminate |].
  destruct (loopBody worldMap i hs r t) as [[hit t1] |] eqn:Hbody;
    cbv beta iota delta [bind]; [| discriminate].
  destruct (loopBody_closed_bounds worldMap width height i hs r lo t t1 hit
              Hg Hw Hh Hi Hdir Hlo Hin Hbody) as (Hbx & Hby & Hmiss).
  destruct hit.
  - intros H. injection H as <-. auto.
  - intros H. apply (IH 1%Z t1 t' ltac:(lia) (Hmiss eq_refl) H).
Qed.

Lemma euclid_le (sx sy ex ey a b : R) :
  Rabs (sx - ex) <= a -> Rabs (sy - ey) <= b ->
  euclid sx sy ex ey <= a + b.
Proof.
  intros Ha Hb.
  pose proof (Rabs_pos (sx - ex)) as Hpa.
  pose proof (Rabs_pos (sy - ey)) as Hpb.
  assert (Hsq : forall u, u * u = Rabs u * Rabs u).
  { intros u. unfold Rabs. destruct (Rcase_abs u); ring. }
  unfold euclid. rewrite (Hsq (sx - ex)), (Hsq (sy - ey)).
  set (u := Rabs (sx - ex)) in *. set (v := Rabs (sy - ey)) in *.
  rewrite <- (sqrt_square (a + b)) by lra.
  apply sqrt_le_1_alt. nra.
Qed.

Lemma to_int_position (v : R) (z : Z) :
  to_int v = Some z -> (32 <= z)%Z -> IZR z <= v < IZR z + 1.
Proof.
  intros Hz Hpos. apply to_int_range in Hz as [Hz _]. unfold truncate in Hz.
  destruct (Rleb_spec 0 v) as [Hv | Hv].
  - subst z. apply Zfloor_bound.
  - exfalso. subst z.
    pose proof (Zceil_bound v) as [_ Hc].
    assert (Hle : (Zceil v <= 0)%Z).
    { apply Z.lt_succ_r, lt_IZR. rewrite succ_IZR.
      pose proof (Zceil_bound v) as [Hlo _]. lra. }
    lia.
Qed.

(** X8: in a grid with a solid border, for a viewpoint in a cell that is
    not a border cell, every struck position a pass returns lies between
    the border lines, [32 <= x <= 32 * (width - 1)] and
    [32 <= y <= 32 * (height - 1)], and every recorded distance is at most
    [32 * (width - 2) + 32 * (height - 2)]. *)
Theorem calcRays_strikes_within_border (worldMap : Grid) (width height : Z)
    (fuel : nat) (c : Character) (screenWidth : Z)
    (rays : list Vector2f) (hs : list hitDetails)
    (i : nat) (p : Vector2f) (h : hitDetails) :
  closedGrid worldMap width height = true ->
  (32 * width <= INT_MAX)%Z -> (32 * height <= INT_MAX)%Z ->
  insideBorder c width height ->
  calcRays fuel c screenWidth worldMap = Some (rays, hs) ->
  nth_error rays i = Some p -> nth_error hs i = Some h ->
  32 <= vx p <= 32 * (IZR width - 1) /\
  32 <= vy p <= 32 * (IZR height - 1) /\
  distance h <= 32 * (IZR width - 2) + 32 * (IZR height - 2).
Proof.
  intros Hg Hw Hh (x0 & y0 & Hx0 & Hy0 & Hbx & Hby) Hcalc Hp Hh'.
  destruct (calcRays_entry _ _ _ _ _ _ _ _ Hcalc Hp) as (h0 & Hh0 & Hcast).
  rewrite Hh' in Hh0. injection Hh0 as <-.
  assert (Hlen : (i < length hs)%nat).
  { apply nth_error_Some. rewrite Hh'. discriminate. }
  apply castColumn_traversal in Hcast
    as (x1 & y1 & t & Hx1 & Hy1 & Hwh & -> & ->).
  rewrite Hx0 in Hx1. injection Hx1 as <-.
  rewrite Hy0 in Hy1. injection Hy1 as <-.
  assert (Hcol : (0 <= Z.of_nat i <= Z.of_nat (length (firstn i hs)))%Z).
  { rewrite length_firstn. lia. }
  pose proof (rayOf_wellDirected c (cameraXOf (Z.of_nat i) screenWidth))
    as Hdir.
  assert (Hin : inside 0 width height
                  (rayOf c (cameraXOf (Z.of_nat i) screenWidth))
                  (mkTraversal x0 y0
                     (initialSideDist x0
                        (rayDirX (rayOf c (cameraXOf (Z.of_nat i) screenWidth)))
                        (rayDeltaX (rayOf c (cameraXOf (Z.of_nat i) screenWidth))))
                     (initialSideDist y0
                        (rayDirY (rayOf c (cameraXOf (Z.of_nat i) screenWidth)))
                        (rayDeltaY (rayOf c (cameraXOf (Z.of_nat i) screenWidth))))
                     defaultHit)).
  { destruct Hdir as [Hdx Hdy].
    split; cbn [mapX mapY sideDistX sideDistY];
      apply axisInv_initial; assumption. }
  destruct (whileNotHit_closed_bounds worldMap width height _ _ _ fuel
              Hg Hw Hh Hcol Hdir 0%Z _ t ltac:(lia) Hin Hwh) as [Htx Hty].
  destruct (to_int_position _ _ Hx0 ltac:(lia)) as [Hcx1 Hcx2].
  destruct (to_int_position _ _ Hy0 ltac:(lia)) as [Hcy1 Hcy2].
  assert (Hx0R : 32 <= IZR x0 /\ IZR x0 + 1 <= 32 * (IZR width - 1)).
  { split; [apply (IZR_le 32); lia |].
    rewrite <- (plus_IZR x0 1), <- (minus_IZR width 1), <- (mult_IZR 32).
    apply IZR_le. lia. }
  assert (Hy0R : 32 <= IZR y0 /\ IZR y0 + 1 <= 32 * (IZR height - 1)).
  { split; [apply (IZR_le 32); lia |].
    rewrite <- (plus_IZR y0 1), <- (minus_IZR height 1), <- (mult_IZR 32).
    apply IZR_le. lia. }
  assert (HtxR : 32 <= IZR (mapX t) <= 32 * (IZR width - 1)).
  { split; [apply (IZR_le 32); lia |].
    rewrite <- (minus_IZR width 1), <- (mult_IZR 32). apply IZR_le. lia. }
  assert (HtyR : 32 <= IZR (mapY t) <= 32 * (IZR height - 1)).
  { split; [apply (IZR_le 32); lia |].
    rewrite <- (minus_IZR height 1), <- (mult_IZR 32). apply IZR_le. lia. }
  cbn [vx vy]. split; [exact HtxR |]. split; [exact HtyR |].
  apply euclid_le; apply Rabs_le; lra.
Qed.

Lemma calcRays_strikes_within_border_witness :
  closedGrid ring3 3 3 = true /\ (32 * 3 <= INT_MAX)%Z /\
  insideBorder viewer 3 3 /\
  calcRays 1 viewer 2 ring3 = Some (scenarioRays, scenarioHits) /\
  nth_error scenarioRays 2 = Some (mkVec 32 64) /\
  nth_error scenarioHits 2 = Some (mkHit 16 1 vertical) /\
  32 <= vx (mkVec 32 64) <= 32 * (IZR 3 - 1) /\
  32 <= vy (mkVec 32 64) <= 32 * (IZR 3 - 1) /\
  distance (mkHit 16 1 vertical) <= 32 * (IZR 3 - 2) + 32 * (IZR 3 - 2).
Proof.
  assert (Hfit : (32 * 3 <= INT_MAX)%Z) by (unfold INT_MAX; lia).
  split; [exact ring3_closed |]. split; [exact Hfit |].
  split; [exact viewer_insideBorder |]. split; [exact viewer_calcRays |].
  split; [reflexivity |]. split; [reflexivity |].
  exact (calcRays_strikes_within_border ring3 3 3 1 viewer 2 scenarioRays
           scenarioHits 2 (mkVec 32 64) (mkHit 16 1 vertical)
           ring3_closed Hfit Hfit viewer_insideBorder viewer_calcRays
           eq_refl eq_refl).
Defined.

(** ** The left and the top edge of the grid *)

Lemma cell_negative_column (worldMap : Grid) (y x : Z) :
  (x < 0)%Z -> cell worldMap y x = None.
Proof.
  intros Hx. unfold cell. destruct (y <? 0)%Z; [reflexivity |].
  destruct (nth_error worldMap (Z.to_nat y)); cbv beta iota delta [bind];
    [| reflexivity].
  apply Z.ltb_lt in Hx. rewrite Hx. reflexivity.
Qed.

Lemma cell_negative_row (worldMap : Grid) (y x : Z) :
  (y < 0)%Z -> cell worldMap y x = None.
Proof. intros Hy. unfold cell. apply Z.ltb_lt in Hy. rewrite Hy. reflexivity. Qed.

Lemma onGridLine_zero : onGridLine 0 = true.
Proof. unfold onGridLine, floor. rewrite (ZfloorZ 0). apply Reqb_true. reflexivity. Qed.

Lemma to_int_zero : to_int 0 = Some 0%Z.
Proof. apply (to_int_IZR 0). unfold INT_MIN, INT_MAX. lia. Qed.

(** X10: on the left edge of the grid (X index 0) and on its top edge
    (Y index 0) [checkForHit] never reports a miss: it has a result only
    when the first cell it consults is occupied, which it then reports;
    with that cell empty it goes on to read column -1 or row -1, outside
    the grid. *)
Theorem checkForHit_edge_needs_wall (index : R) (hitDetail : hitDetails)
    (worldMap : Grid) :
  (forall res,
      checkForHit 0 index hitDetail worldMap = Some res ->
      fst res = true /\ color (snd res) <> 0%Z /\
      cell worldMap (Zfloor index) 0 = Some (color (snd res))) /\
  (forall res,
      checkForHit index 0 hitDetail worldMap = Some res ->
      fst res = true /\ color (snd res) <> 0%Z /\
      cell worldMap 0 (Zfloor index) = Some (color (snd res))).
Proof.
  split; intros res; unfold checkForHit, eitherNonzero;
    change (Reqb (floor 0) 0) with (onGridLine 0);
    change (Reqb (floor index) index) with (onGridLine index);
    rewrite onGridLine_zero, to_int_zero.
  - destruct (onGridLine index) eqn:Hg; cbv beta iota delta [andb bind].
    + destruct (to_int index) as [y |] eqn:Hy; [| discriminate].
      apply (onGridLine_to_int _ _ Hg) in Hy. subst y.
      destruct (cell worldMap (Zfloor index) 0) as [v |]; [| discriminate].
      destruct (nonzero v) eqn:Hv.
      * intros H. injection H as <-. cbn [fst snd color set_color].
        split; [reflexivity |]. split; [apply nonzero_true; exact Hv | reflexivity].
      * rewrite cell_negative_column by lia. discriminate.
    + destruct (to_int (floor index)) as [y |] eqn:Hy; [| discriminate].
      apply floor_to_int in Hy. subst y.
      destruct (cell worldMap (Zfloor index) 0) as [v |]; [| discriminate].
      destruct (nonzero v) eqn:Hv.
      * cbv beta iota zeta delta [bind]. intros H. injection H as <-.
        cbn [fst snd color set_color set_alignment].
        split; [reflexivity |]. split; [apply nonzero_true; exact Hv | reflexivity].
      * rewrite cell_negative_column by lia. discriminate.
  - destruct (onGridLine index) eqn:Hg; cbv beta iota delta [andb bind].
    + destruct (to_int index) as [x |] eqn:Hx; [| discriminate].
      apply (onGridLine_to_int _ _ Hg) in Hx. subst x.
      destruct (cell worldMap 0 (Zfloor index)) as [v |]; [| discriminate].
      destruct (nonzero v) eqn:Hv.
      * intros H. injection H as <-. cbn [fst snd color set_color].
        split; [reflexivity |]. split; [apply nonzero_true; exact Hv | reflexivity].
      * rewrite cell_negative_row by lia. discriminate.
    + destruct (to_int (floor index)) as [x |] eqn:Hx; [| discriminate].
      apply floor_to_int in Hx. subst x.
      destruct (cell worldMap 0 (Zfloor index)) as [v |]; [| discriminate].
      destruct (nonzero v) eqn:Hv.
      * cbv beta iota zeta delta [bind]. intros H. injection H as <-.
        cbn [fst snd color set_color set_alignment].
        split; [reflexivity |]. split; [apply nonzero_true; exact Hv | reflexivity].
      * rewrite cell_negative_row by lia. discriminate.
Qed.

Lemma checkForHit_left_edge_ring3 :
  checkForHit 0 (48 / 32) defaultHit ring3 = Some (true, mkHit 0 1 vertical).
Proof.
  assert (E : checkForHit 0 (48 / 32) defaultHit ring3
              = checkForHit (IZR 0 / 32) (IZR 48 / 32) defaultHit ring3).
  { f_equal. unfold Rdiv. ring. }
  rewrite E, checkForHit_at by (apply int_range_small; lia). reflexivity.
Qed.

Lemma checkForHit_edge_needs_wall_witness :
  checkForHit 0 (48 / 32) defaultHit ring3 = Some (true, mkHit 0 1 vertical) /\
  fst (true, mkHit 0 1 vertical) = true /\
  color (snd (true, mkHit 0 1 vertical)) <> 0%Z /\
  cell ring3 (Zfloor (48 / 32)) 0
  = Some (color (snd (true, mkHit 0 1 vertical))).
Proof.
  split; [exact checkForHit_left_edge_ring3 |].
  exact (proj1 (checkForHit_edge_needs_wall (48 / 32) defaultHit ring3)
           (true, mkHit 0 1 vertical) checkForHit_left_edge_ring3).
Defined.

(** ** Side distances at the edges of their domain *)

(** X11: for a negative coordinate that is not a multiple of 32 the
    remainder of [%] is negative, and [calcNewDistance] leaves the range it
    has for non-negative coordinates: with a negative ray component the
    result has the sign opposite to [deltaDist], with a non-negative one
    it is longer than [deltaDist]. *)
Theorem calcNewDistance_negative_vertex (vertex : Z) (rayDir deltaDist : R) :
  (vertex < 0)%Z -> Z.rem vertex 32 <> 0%Z -> deltaDist <> 0 ->
  (rayDir < 0 -> calcNewDistance vertex rayDir deltaDist * deltaDist < 0) /\
  (0 <= rayDir ->
   Rabs deltaDist < Rabs (calcNewDistance vertex rayDir deltaDist)).
Proof.
  intros Hv Hrem Hd.
  pose proof (Z.rem_bound_abs vertex 32 ltac:(lia)) as Hb.
  pose proof (Z.rem_nonpos vertex 32 ltac:(lia) ltac:(lia)) as Hn.
  assert (Hlo : -32 < IZR (Z.rem vertex 32)).
  { apply (IZR_lt (-32)). lia. }
  assert (Hhi : IZR (Z.rem vertex 32) < 0).
  { apply (IZR_lt _ 0). lia. }
  pose proof (Rabs_pos_lt deltaDist Hd) as Hpos.
  unfold calcNewDistance, BLOCK_WIDTH.
  set (m := IZR (Z.rem vertex 32)) in *.
  split; intros Hr.
  - rewrite Rltb_true, Reqb_false by lra. cbv beta iota delta [andb].
    rewrite Rleb_false by lra.
    replace (m / 32 * deltaDist * deltaDist)
      with (m / 32 * (deltaDist * deltaDist)) by ring.
    assert (0 < deltaDist * deltaDist) by nra. nra.
  - rewrite Rltb_false by lra. cbv beta iota delta [andb].
    rewrite Rleb_true by lra. rewrite Reqb_false by lra.
    rewrite Rabs_mult, (Rabs_right ((32 - m) / 32)) by lra. nra.
Qed.

Lemma calcNewDistance_negative_vertex_witness :
  (-40 < 0)%Z /\ Z.rem (-40) 32 <> 0%Z /\ -32 <> 0 /\
  (-1 < 0 -> calcNewDistance (-40) (-1) (-32) * -32 < 0) /\
  (0 <= -1 -> Rabs (-32) < Rabs (calcNewDistance (-40) (-1) (-32))).
Proof.
  assert (Hv : (-40 < 0)%Z) by lia.
  assert (Hr : Z.rem (-40) 32 <> 0%Z) by discriminate.
  assert (Hd : -32 <> 0) by lra.
  split; [exact Hv |]. split; [exact Hr |]. split; [exact Hd |].
  exact (calcNewDistance_negative_vertex (-40) (-1) (-32) Hv Hr Hd).
Defined.

(** X12: the side distance a column starts with is between zero and one
    step distance in magnitude, and it is zero exactly when the ray
    component is negative and the viewpoint's integer coordinate is on a
    grid line; on a grid line with a non-negative component it is one full
    step distance. *)
Theorem initialSideDist_range (centre : Z) (rayDir deltaDist : R) :
  (0 <= centre)%Z -> deltaDist <> 0 ->
  Rabs (initialSideDist centre rayDir deltaDist) <= Rabs deltaDist /\
  (initialSideDist centre rayDir deltaDist = 0
   <-> rayDir < 0 /\ (centre mod 32 = 0)%Z) /\
  (0 <= rayDir -> (centre mod 32 = 0)%Z ->
   initialSideDist centre rayDir deltaDist = deltaDist).
Proof.
  intros Hc Hd.
  assert (Hrem : Z.rem centre 32 = (centre mod 32)%Z)
    by (apply Z.rem_mod_nonneg; lia).
  pose proof (Z.mod_pos_bound centre 32 ltac:(lia)) as [Hlo Hhi].
  apply IZR_le in Hlo. apply IZR_lt in Hhi.
  pose proof (Rabs_pos_lt deltaDist Hd) as Hpos.
  unfold initialSideDist. rewrite Hrem.
  destruct (Rltb_spec rayDir 0) as [Hneg | Hnn].
  - split; [| split].
    + rewrite Rabs_mult, (Rabs_right (IZR (centre mod 32) / 32)) by lra. nra.
    + split.
      * intros H. split; [exact Hneg |].
        apply Rmult_integral in H as [H | H]; [| contradiction].
        apply eq_IZR. lra.
      * intros [_ ->]. unfold Rdiv. ring.
    + intros H. lra.
  - split; [| split].
    + rewrite Rabs_mult, (Rabs_right ((32 - IZR (centre mod 32)) / 32)) by lra.
      nra.
    + split.
      * intros H. apply Rmult_integral in H as [H | H]; [lra | contradiction].
      * intros [H _]. lra.
    + intros _ ->. field.
Qed.

Lemma initialSideDist_range_witness :
  (0 <= 32)%Z /\ -32 <> 0 /\
  Rabs (initialSideDist 32 (-1) (-32)) <= Rabs (-32) /\
  (initialSideDist 32 (-1) (-32) = 0 <-> -1 < 0 /\ (32 mod 32 = 0)%Z) /\
  (0 <= -1 -> (32 mod 32 = 0)%Z -> initialSideDist 32 (-1) (-32) = -32).
Proof.
  assert (Hc : (0 <= 32)%Z) by lia.
  assert (Hd : -32 <> 0) by lra.
  split; [exact Hc |]. split; [exact Hd |].
  exact (initialSideDist_range 32 (-1) (-32) Hc Hd).
Defined.

(** X13: the side distance computed before the loop and the one computed
    by [calcNewDistance] inside it agree at every coordinate, except on a
    grid line with a negative ray component: there the loop starts with
    zero where [calcNewDistance] gives one full step distance. *)
Theorem initialSideDist_calcNewDistance (centre : Z) (rayDir deltaDist : R) :
  (rayDir < 0 /\ Z.rem centre 32 = 0%Z ->
   initialSideDist centre rayDir deltaDist = 0 /\
   calcNewDistance centre rayDir deltaDist = deltaDist) /\
  (~ (rayDir < 0 /\ Z.rem centre 32 = 0%Z) ->
   initialSideDist centre rayDir deltaDist
   = calcNewDistance centre rayDir deltaDist).
Proof.
  pose proof (Z.rem_bound_abs centre 32 ltac:(lia)) as Hb.
  assert (Hhi : IZR (Z.rem centre 32) < 32) by (apply IZR_lt; lia).
  unfold initialSideDist, calcNewDistance, BLOCK_WIDTH.
  split.
  - intros [Hr ->]. rewrite Rltb_true, Reqb_true by lra.
    cbv beta iota delta [andb]. split; field.
  - intros Hn. destruct (Rltb_spec rayDir 0) as [Hr | Hr].
    + assert (Hz : IZR (Z.rem centre 32) <> 0).
      { intros H. apply Hn. split; [exact Hr |]. apply eq_IZR. exact H. }
      rewrite Reqb_false by exact Hz. cbv beta iota delta [andb].
      rewrite Rleb_false by lra. reflexivity.
    + cbv beta iota delta [andb]. rewrite Rleb_true by lra.
      rewrite Reqb_false by lra. reflexivity.
Qed.

(** ** Reading the world file *)

Lemma getline_shorter (stream : list ascii) :
  (length (snd (getline stream)) <= length stream)%nat.
Proof.
  induction stream as [| c rest IH]; cbn [getline]; [reflexivity |].
  destruct (Ascii.eqb c newline); cbn [snd length]; [lia |].
  destruct (getline rest) as [line rest']. cbn [snd] in *. lia.
Qed.

Lemma linesOf_nil (stream : list ascii) : linesOf stream = [] -> stream = [].
Proof.
  destruct stream as [| c rest]; [reflexivity |]. cbn [linesOf].
  destruct (Ascii.eqb c newline); [discriminate |].
  destruct (linesOf rest); discriminate.
Qed.

(** [linesOf] delivers the lines in the order of the calls of [getline]. *)
Lemma linesOf_getline (c : ascii) (rest : list ascii) :
  linesOf (c :: rest)
  = fst (getline (c :: rest)) :: linesOf (snd (getline (c :: rest))).
Proof.
  revert c. induction rest as [| c' rest IH]; intros c.
  - cbn [linesOf getline]. destruct (Ascii.eqb c newline); reflexivity.
  - change (linesOf (c :: c' :: rest))
      with (if Ascii.eqb c newline then [] :: linesOf (c' :: rest)
            else match linesOf (c' :: rest) with
                 | [] => [[c]]
                 | line :: lines => (c :: line) :: lines
                 end).
    change (getline (c :: c' :: rest))
      with (if Ascii.eqb c newline then ([], c' :: rest)
            else let '(line, rest') := getline (c' :: rest) in
                 (c :: line, rest')).
    destruct (Ascii.eqb c newline); [reflexivity |].
    rewrite (IH c'). destruct (getline (c' :: rest)) as [line rest'].
    reflexivity.
Qed.

Lemma fold_pushValue_None (line : list ascii) :
  fold_left pushValue line None = None.
Proof. induction line as [| c rest IH]; [reflexivity | exact IH]. Qed.

Lemma fold_pushValue (line : list ascii) (values : list Z) :
  fold_left pushValue line (Some values)
  = let? vs := digitsOf line in Some (values ++ vs).
Proof.
  revert values. induction line as [| c rest IH]; intros values.
  - cbn [fold_left digitsOf]. cbv beta iota delta [bind].
    rewrite app_nil_r. reflexivity.
  - cbn [fold_left digitsOf]. unfold pushValue at 2.
    cbv beta iota delta [bind]. destruct (stoi c) as [v |].
    + rewrite IH. cbv beta iota delta [bind].
      destruct (digitsOf rest) as [vs |]; [| reflexivity].
      rewrite <- app_assoc. reflexivity.
    + apply fold_pushValue_None.
Qed.

Lemma readRow_digitsOf (line : list ascii) :
  readRow line = digitsOf (removeCommas line).
Proof.
  unfold readRow. rewrite fold_pushValue. cbv beta iota delta [bind].
  destruct (digitsOf (removeCommas line)); reflexivity.
Qed.

Lemma whileGetline_rows (fuel : nat) (stream : list ascii) (returnMap : Grid) :
  (length stream < fuel)%nat ->
  whileGetline fuel stream returnMap
  = let? rows := rowsOf (linesOf stream) in Some (returnMap ++ rows).
Proof.
  revert stream returnMap.
  induction fuel as [| fuel IH]; intros stream returnMap Hlen; [lia |].
  destruct stream as [| c rest].
  - cbn [whileGetline linesOf rowsOf]. cbv beta iota delta [bind].
    rewrite app_nil_r. reflexivity.
  - rewrite linesOf_getline. cbn [whileGetline].
    pose proof (getline_shorter rest) as Hrest.
    assert (Hshort : (length (snd (getline (c :: rest))) < fuel)%nat).
    { cbn [getline]. destruct (Ascii.eqb c newline); cbn [snd length] in *;
        [lia |].
      destruct (getline rest) as [line rest']. cbn [snd length] in *. lia. }
    destruct (getline (c :: rest)) as [line stream'].
    cbn [fst snd] in *. cbn [rowsOf]. rewrite readRow_digitsOf.
    cbv beta iota delta [bind].
    destruct (digitsOf (removeCommas line)) as [values |]; [| reflexivity].
    rewrite (IH stream' _ Hshort). cbv beta iota delta [bind].
    destruct (rowsOf (linesOf stream')) as [rows |]; [| reflexivity].
    rewrite <- app_assoc. reflexivity.
Qed.

Lemma readWorldFile_rows (content : list ascii) :
  readWorldFile content = rowsOf (linesOf content).
Proof.
  unfold readWorldFile. rewrite whileGetline_rows by (cbn [length]; lia).
  cbv beta iota delta [bind].
  destruct (rowsOf (linesOf content)); reflexivity.
Qed.

Lemma digitsOf_None (line : list ascii) :
  digitsOf line = None <-> exists c, In c line /\ stoi c = None.
Proof.
  induction line as [| c rest IH]; cbn [digitsOf].
  - split; [discriminate | intros (c & [] & _)].
  - cbv beta iota delta [bind]. destruct (stoi c) as [v |] eqn:Hc.
    + destruct (digitsOf rest) as [vs |].
      * split; [discriminate |]. intros (c' & [<- | Hin] & Hs).
        -- rewrite Hc in Hs. discriminate.
        -- assert (H : @None (list Z) = None) by reflexivity.
           destruct IH as [_ IH]. discriminate IH. exists c'. auto.
      * split; [| reflexivity]. intros _.
        destruct IH as [IH _]. destruct (IH eq_refl) as (c' & Hin & Hs).
        exists c'. split; [right; exact Hin | exact Hs].
    + split; [| reflexivity]. intros _. exists c. split; [left |]; auto.
Qed.

Lemma digitsOf_Some (line : list ascii) (values : list Z) :
  digitsOf line = Some values ->
  length values = length line /\ forall v, In v values -> (0 <= v <= 9)%Z.
Proof.
  revert values. induction line as [| c rest IH]; intros values;
    cbn [digitsOf].
  - intros H. injection H as <-. split; [reflexivity | intros v []].
  - cbv beta iota delta [bind]. destruct (stoi c) as [v |] eqn:Hc;
      [| discriminate].
    destruct (digitsOf rest) as [vs |]; [| discriminate].
    intros H. injection H as <-. destruct (IH vs eq_refl) as [Hl Hv].
    split; [cbn [length]; lia |]. intros w [<- | Hin]; [| apply Hv; exact Hin].
    unfold stoi in Hc.
    destruct ((48 <=? Z.of_N (N_of_ascii c))
              && (Z.of_N (N_of_ascii c) <=? 57))%Z eqn:Hr; [| discriminate].
    injection Hc as <-. apply andb_prop in Hr as [H1 H2]. lia.
Qed.

Lemma rowsOf_None (lines : list (list ascii)) :
  rowsOf lines = None
  <-> exists line, In line lines /\ digitsOf (removeCommas line) = None.
Proof.
  induction lines as [| line rest IH]; cbn [rowsOf].
  - split; [discriminate | intros (l & [] & _)].
  - cbv beta iota delta [bind].
    destruct (digitsOf (removeCommas line)) as [values |] eqn:Hd.
    + destruct (rowsOf rest) as [rows |].
      * split; [discriminate |]. intros (l & [<- | Hin] & Hl).
        -- rewrite Hd in Hl. discriminate.
        -- destruct IH as [_ IH]. discriminate IH. exists l. auto.
      * split; [| reflexivity]. intros _.
        destruct IH as [IH _]. destruct (IH eq_refl) as (l & Hin & Hl).
        exists l. split; [right; exact Hin | exact Hl].
    + split; [| reflexivity]. intros _. exists line. split; [left |]; auto.
Qed.

Lemma rowsOf_Some (lines : list (list ascii)) (rows : Grid) :
  rowsOf lines = Some rows ->
  Forall2 (fun line row => digitsOf (removeCommas line) = Some row) lines rows.
Proof.
  revert rows. induction lines as [| line rest IH]; intros rows;
    cbn [rowsOf].
  - intros H. injection H as <-. constructor.
  - cbv beta iota delta [bind].
    destruct (digitsOf (removeCommas line)) as [values |] eqn:Hd;
      [| discriminate].
    destruct (rowsOf rest) as [rows' |]; [| discriminate].
    intros H. injection H as <-. constructor; [exact Hd | apply IH; reflexivity].
Qed.

Lemma newline_eqb (c : ascii) : Ascii.eqb c newline = true <-> c = newline.
Proof. apply Ascii.eqb_eq. Qed.

(** The characters of the lines are the characters of the stream other
    than the newlines. *)
Lemma linesOf_In (stream : list ascii) (c : ascii) :
  (exists line, In line (linesOf stream) /\ In c line)
  <-> In c stream /\ c <> newline.
Proof.
  induction stream as [| d rest IH].
  - cbn [linesOf In]. split; [intros (l & [] & _) | intros [[] _]].
  - cbn [linesOf]. destruct (Ascii.eqb d newline) eqn:Hd.
    + apply Ascii.eqb_eq in Hd. subst d. split.
      * intros (l & [<- | Hin] & Hc); [destruct Hc |].
        destruct IH as [IH _]. destruct IH as [H1 H2]; [exists l; auto |].
        split; [right; exact H1 | exact H2].
      * intros [[E | Hin] Hn]; [congruence |].
        destruct IH as [_ IH]. destruct (IH (conj Hin Hn)) as (l & Hl & Hc).
        exists l. split; [right; exact Hl | exact Hc].
    + apply Ascii.eqb_neq in Hd.
      destruct (linesOf rest) as [| line lines] eqn:Hlines.
      * apply linesOf_nil in Hlines. subst rest. split.
        -- intros (l & [<- | []] & [<- | []]). split; [left; reflexivity | exact Hd].
        -- intros [[<- | []] _]. exists [d]. split; left; reflexivity.
      * split.
        -- intros (l & [<- | Hin] & Hc).
           ++ destruct Hc as [<- | Hc]; [split; [left; reflexivity | exact Hd] |].
              destruct IH as [IH _].
              destruct IH as [H1 H2]; [exists line; split; [left |]; auto |].
              split; [right; exact H1 | exact H2].
           ++ destruct IH as [IH _].
              destruct IH as [H1 H2]; [exists l; split; [right |]; auto |].
              split; [right; exact H1 | exact H2].
        -- intros [[<- | Hin] Hn].
           ++ exists (d :: line). split; left; reflexivity.
           ++ destruct IH as [_ IH].
              destruct (IH (conj Hin Hn)) as (l & [<- | Hl] & Hc).
              ** exists (d :: line). split; [left; reflexivity | right; exact Hc].
              ** exists l. split; [right; exact Hl | exact Hc].
Qed.

Lemma removeCommas_In (line : list ascii) (c : ascii) :
  In c (removeCommas line) <-> In c line /\ c <> comma.
Proof.
  unfold removeCommas. rewrite filter_In. split; intros [H1 H2]; split; auto.
  - intros ->. rewrite Ascii.eqb_refl in H2. discriminate.
  - apply Ascii.eqb_neq in H2. rewrite H2. reflexivity.
Qed.

Lemma accepted_false (c : ascii) :
  accepted c = false <-> stoi c = None /\ c <> comma /\ c <> newline.
Proof.
  unfold accepted. destruct (stoi c) as [v |].
  - split; [discriminate | intros [H _]; discriminate].
  - rewrite orb_false_iff, !Ascii.eqb_neq. tauto.
Qed.

(** X14: [readWorldFile] has no result exactly when the file holds a
    character that is neither a decimal digit nor a comma nor a newline
    (a blank, a carriage return, a sign, a letter). *)
Theorem readWorldFile_rejects_other_characters (content : list ascii) :
  readWorldFile content = None
  <-> exists c, In c content /\ accepted c = false.
Proof.
  rewrite readWorldFile_rows, rowsOf_None. split.
  - intros (line & Hline & Hd). apply digitsOf_None in Hd as (c & Hc & Hs).
    apply removeCommas_In in Hc as [Hc Hcomma].
    destruct (proj1 (linesOf_In content c)) as [Hin Hnl];
      [exists line; auto |].
    exists c. split; [exact Hin |]. apply accepted_false. auto.
  - intros (c & Hin & Hacc). apply accepted_false in Hacc as (Hs & Hcomma & Hnl).
    destruct (proj2 (linesOf_In content c) (conj Hin Hnl)) as (line & Hl & Hc).
    exists line. split; [exact Hl |]. apply digitsOf_None.
    exists c. split; [| exact Hs]. apply removeCommas_In. auto.
Qed.

Lemma Forall2_In_right {A B : Type} (P : A -> B -> Prop)
    (xs : list A) (ys : list B) (y : B) :
  Forall2 P xs ys -> In y ys -> exists x, In x xs /\ P x y.
Proof.
  induction 1 as [| x y' xs ys Hxy _ IH]; intros Hin; [destruct Hin |].
  destruct Hin as [<- | Hin].
  - exists x. split; [left; reflexivity | exact Hxy].
  - destruct (IH Hin) as (x' & Hx' & Hp). exists x'. split; [right |]; auto.
Qed.

Lemma linesOf_length (stream : list ascii) :
  length (linesOf stream)
  = (count_occ ascii_dec stream newline
     + (if Ascii.eqb (last stream newline) newline then 0 else 1))%nat.
Proof.
  induction stream as [| c rest IH]; [reflexivity |].
  cbn [linesOf count_occ].
  destruct (ascii_dec c newline) as [-> | Hc].
  - rewrite Ascii.eqb_refl. cbn [length]. rewrite IH.
    destruct rest as [| d rest']; [reflexivity |].
    change (last (newline :: d :: rest') newline)
      with (last (d :: rest') newline). lia.
  - apply Ascii.eqb_neq in Hc. rewrite Hc.
    destruct rest as [| d rest'].
    + cbn [linesOf length count_occ last]. rewrite Hc. reflexivity.
    + change (last (c :: d :: rest') newline)
        with (last (d :: rest') newline).
      rewrite <- IH. destruct (linesOf (d :: rest')) as [| l ls] eqn:Hl.
      * apply linesOf_nil in Hl. discriminate.
      * reflexivity.
Qed.

(** X15: every cell [readWorldFile] delivers is a single decimal digit,
    between 0 and 9, and there is one row per line: one per newline, and
    one more when the last character is not a newline. *)
Theorem readWorldFile_cells_are_digits (content : list ascii)
    (worldMap : Grid) :
  readWorldFile content = Some worldMap ->
  cellsWithin 0 9 worldMap /\
  length worldMap
  = (count_occ ascii_dec content newline
     + (if Ascii.eqb (last content newline) newline then 0 else 1))%nat.
Proof.
  rewrite readWorldFile_rows. intros H. apply rowsOf_Some in H. split.
  - intros row v Hrow Hv.
    destruct (Forall2_In_right _ _ _ _ H Hrow) as (line & _ & Hd).
    apply digitsOf_Some in Hd as [_ Hd]. apply Hd. exact Hv.
  - rewrite <- linesOf_length. symmetry. apply (Forall2_length H).
Qed.

Lemma readWorldFile_cells_are_digits_witness :
  readWorldFile ["1"; ","; "0"; newline; "2"]%char = Some [[1; 0]; [2]]%Z /\
  cellsWithin 0 9 [[1; 0]; [2]]%Z /\
  length [[1; 0]; [2]]%Z
  = (count_occ ascii_dec ["1"; ","; "0"; newline; "2"]%char newline
     + (if Ascii.eqb (last ["1"; ","; "0"; newline; "2"]%char newline) newline
        then 0 else 1))%nat.
Proof.
  split; [reflexivity |].
  exact (readWorldFile_cells_are_digits ["1"; ","; "0"; newline; "2"]%char
           [[1; 0]; [2]]%Z eq_refl).
Defined.

Lemma rowsOf_removeCommas (lines lines' : list (list ascii)) :
  map removeCommas lines = map removeCommas lines' ->
  rowsOf lines = rowsOf lines'.
Proof.
  revert lines'. induction lines as [| l ls IH]; intros [| l' ls'];
    cbn [map]; try discriminate; [reflexivity |].
  intros H. injection H as Hl Hls. cbn [rowsOf].
  rewrite Hl, (IH ls' Hls). reflexivity.
Qed.

Lemma removeCommas_cons (c : ascii) (line : list ascii) :
  removeCommas (c :: line)
  = if Ascii.eqb c comma then removeCommas line else c :: removeCommas line.
Proof.
  unfold removeCommas. cbn [filter]. destruct (Ascii.eqb c comma); reflexivity.
Qed.

Lemma linesOf_without_comma (a b : list ascii) :
  b <> [] ->
  map removeCommas (linesOf (a ++ comma :: b))
  = map removeCommas (linesOf (a ++ b)).
Proof.
  intros Hb. induction a as [| c a IH].
  - cbn [app]. change (linesOf (comma :: b))
      with (match linesOf b with
            | [] => [[comma]]
            | line :: lines => (comma :: line) :: lines
            end).
    destruct (linesOf b) as [| line lines] eqn:Hl.
    + apply linesOf_nil in Hl. contradiction.
    + cbn [map]. rewrite removeCommas_cons, Ascii.eqb_refl. reflexivity.
  - cbn [app linesOf]. destruct (Ascii.eqb c newline).
    + cbn [map]. rewrite IH. reflexivity.
    + destruct (linesOf (a ++ comma :: b)) as [| l1 ls1] eqn:H1.
      { apply linesOf_nil in H1. destruct a; discriminate. }
      destruct (linesOf (a ++ b)) as [| l2 ls2] eqn:H2.
      { apply linesOf_nil in H2. apply app_eq_nil in H2 as [_ H2].
        contradiction. }
      cbn [map] in *. injection IH as Hl Hls.
      rewrite !removeCommas_cons, Hl, Hls. reflexivity.
Qed.

(** X16: commas do not separate cells.  A comma that is followed by any
    character can be dropped from the file without changing the result:
    the digits of a line are its cells, one digit each. *)
Theorem readWorldFile_commas_do_not_separate (a b : list ascii) :
  b <> [] -> readWorldFile (a ++ comma :: b) = readWorldFile (a ++ b).
Proof.
  intros Hb. rewrite !readWorldFile_rows.
  apply rowsOf_removeCommas, linesOf_without_comma. exact Hb.
Qed.

Lemma readWorldFile_commas_do_not_separate_witness :
  ["2"%char] <> [] /\
  readWorldFile (["1"%char] ++ comma :: ["2"%char])
  = readWorldFile (["1"%char] ++ ["2"%char]).
Proof.
  assert (Hb : ["2"%char] <> []) by discriminate.
  split; [exact Hb |].
  exact (readWorldFile_commas_do_not_separate ["1"%char] ["2"%char] Hb).
Defined.

Lemma digit_cases (v : Z) :
  (0 <= v <= 9)%Z ->
  stoi (digit v) = Some v /\
  Ascii.eqb (digit v) comma = false /\ Ascii.eqb (digit v) newline = false.
Proof.
  intros Hv.
  assert (H : (v = 0 \/ v = 1 \/ v = 2 \/ v = 3 \/ v = 4 \/ v = 5 \/ v = 6
               \/ v = 7 \/ v = 8 \/ v = 9)%Z) by lia.
  repeat (destruct H as [-> | H]); try subst v; repeat split.
Qed.

Lemma writeRow_cons (v : Z) (row : list Z) :
  exists tail,
    writeRow (v :: row) = digit v :: tail /\
    removeCommas tail = removeCommas (writeRow row) /\
    (forall c, In c tail -> c = comma \/ In c (writeRow row)).
Proof.
  destruct row as [| w row].
  - exists []. cbn [writeRow]. repeat split. intros c [].
  - exists (comma :: writeRow (w :: row)). split; [reflexivity |]. split.
    + rewrite removeCommas_cons, Ascii.eqb_refl. reflexivity.
    + intros c [<- | Hc]; [left; reflexivity | right; exact Hc].
Qed.

Lemma writeRow_digits (row : list Z) :
  (forall v, In v row -> (0 <= v <= 9)%Z) ->
  digitsOf (removeCommas (writeRow row)) = Some row /\
  ~ In newline (writeRow row).
Proof.
  induction row as [| v row IH]; intros Hrow.
  - split; [reflexivity | intros []].
  - destruct (digit_cases v (Hrow v (or_introl eq_refl)))
      as (Hs & Hcomma & Hnl).
    destruct IH as [IHd IHn]; [intros w Hw; apply Hrow; right; exact Hw |].
    destruct (writeRow_cons v row) as (tail & -> & Htail & Hin).
    split.
    + rewrite removeCommas_cons, Hcomma, Htail. cbn [digitsOf].
      rewrite Hs, IHd. reflexivity.
    + intros [E | Hc].
      * rewrite E, Ascii.eqb_refl in Hnl. discriminate.
      * destruct (Hin _ Hc) as [E | Hw]; [discriminate | contradiction].
Qed.

Lemma linesOf_line (line rest : list ascii) :
  ~ In newline line ->
  linesOf (line ++ newline :: rest) = line :: linesOf rest.
Proof.
  induction line as [| c line IH]; intros Hn.
  - cbn [app linesOf]. rewrite Ascii.eqb_refl. reflexivity.
  - cbn [app linesOf].
    assert (Hc : Ascii.eqb c newline = false).
    { apply Ascii.eqb_neq. intros ->. apply Hn. left. reflexivity. }
    rewrite Hc, IH by (intros H; apply Hn; right; exact H). reflexivity.
Qed.

(** X17: [readWorldFile] reads back what [writeWorldFile] lays out: a map
    whose cells are between 0 and 9, written as rows of comma-separated
    digits ended by newlines, is read as that same map. *)
Theorem readWorldFile_writeWorldFile (worldMap : Grid) :
  cellsWithin 0 9 worldMap ->
  readWorldFile (writeWorldFile worldMap) = Some worldMap.
Proof.
  rewrite readWorldFile_rows. unfold writeWorldFile, cellsWithin.
  induction worldMap as [| row rows IH]; intros Hcells; [reflexivity |].
  cbn [map concat]. rewrite <- app_assoc. cbn [app].
  destruct (writeRow_digits row) as [Hd Hn];
    [intros v Hv; apply (Hcells row v); [left; reflexivity | exact Hv] |].
  rewrite linesOf_line by exact Hn. cbn [rowsOf].
  rewrite Hd, IH by (intros r v Hr Hv; apply (Hcells r v); [right |]; auto).
  reflexivity.
Qed.

Lemma ring3_cells : cellsWithin 0 9 ring3.
Proof.
  intros row v Hrow Hv. unfold ring3 in Hrow. cbn [In] in Hrow.
  destruct Hrow as [<- | [<- | [<- | []]]]; cbn [In] in Hv;
    repeat (destruct Hv as [<- | Hv]; [lia |]); destruct Hv.
Qed.

Lemma readWorldFile_writeWorldFile_witness :
  cellsWithin 0 9 ring3 /\
  readWorldFile (writeWorldFile ring3) = Some ring3.
Proof.
  split; [exact ring3_cells |].
  exact (readWorldFile_writeWorldFile ring3 ring3_cells).
Defined.

(** ** The walls of the map window *)

Lemma fold_pushWall_None (worldMap : Grid) (i : Z) (js : list Z) :
  fold_left (pushWall worldMap i) js None = None.
Proof. induction js as [| j js IH]; [reflexivity | exact IH]. Qed.

Lemma fold_pushWall (worldMap : Grid) (i : Z) (js : list Z)
    (walls : list RectangleShape) :
  fold_left (pushWall worldMap i) js (Some walls)
  = if forallb (definedAt worldMap i) js
    then Some (walls ++ flat_map (cellWalls worldMap i) js)
    else None.
Proof.
  revert walls. induction js as [| j js IH]; intros walls.
  - cbn [fold_left forallb flat_map]. rewrite app_nil_r. reflexivity.
  - cbn [fold_left forallb flat_map]. unfold pushWall at 2.
    unfold definedAt at 1. unfold cellWalls at 1.
    cbv beta iota delta [bind].
    destruct (cell worldMap i j) as [material |].
    + cbv beta iota delta [andb]. destruct (nonzero material).
      * rewrite IH. destruct (forallb _ js); [| reflexivity].
        rewrite <- app_assoc. reflexivity.
      * rewrite IH. reflexivity.
    + apply fold_pushWall_None.
Qed.

Lemma fold_pushWallRow_None (worldMap : Grid) (rows : list Z) :
  fold_left (pushWallRow worldMap) rows None = None.
Proof.
  induction rows as [| i rows IH]; [reflexivity |].
  cbn [fold_left]. unfold pushWallRow at 2. rewrite fold_pushWall_None.
  exact IH.
Qed.

Lemma fold_pushWallRow (worldMap : Grid) (rows : list Z)
    (walls : list RectangleShape) :
  fold_left (pushWallRow worldMap) rows (Some walls)
  = if forallb (fun i => forallb (definedAt worldMap i)
                           (indices WORLD_BLOCK_WIDTH)) rows
    then Some (walls ++ flat_map (fun i => flat_map (cellWalls worldMap i)
                                             (indices WORLD_BLOCK_WIDTH)) rows)
    else None.
Proof.
  revert walls. induction rows as [| i rows IH]; intros walls.
  - cbn [fold_left forallb flat_map]. rewrite app_nil_r. reflexivity.
  - cbn [fold_left forallb flat_map]. unfold pushWallRow at 2.
    rewrite fold_pushWall.
    destruct (forallb (definedAt worldMap i) (indices WORLD_BLOCK_WIDTH)).
    + cbv beta iota delta [andb]. rewrite IH.
      destruct (forallb _ rows); [| reflexivity].
      rewrite <- app_assoc. reflexivity.
    + apply fold_pushWallRow_None.
Qed.

Lemma generateWalls_eq (worldMap : Grid) :
  generateWalls worldMap
  = if forallb (fun i => forallb (definedAt worldMap i)
                           (indices WORLD_BLOCK_WIDTH))
         (indices WORLD_BLOCK_HEIGHT)
    then Some (flat_map (fun i => flat_map (cellWalls worldMap i)
                                    (indices WORLD_BLOCK_WIDTH))
                 (indices WORLD_BLOCK_HEIGHT))
    else None.
Proof. unfold generateWalls. rewrite fold_pushWallRow. reflexivity. Qed.

Lemma cell_defined (worldMap : Grid) (i j : Z) :
  (0 <= i)%Z -> (0 <= j)%Z ->
  (definedAt worldMap i j = true
   <-> exists row, nth_error worldMap (Z.to_nat i) = Some row /\
                   (Z.to_nat j < length row)%nat).
Proof.
  intros Hi Hj. unfold definedAt, cell.
  rewrite (proj2 (Z.ltb_ge i 0) Hi).
  destruct (nth_error worldMap (Z.to_nat i)) as [row |];
    cbv beta iota delta [bind].
  - rewrite (proj2 (Z.ltb_ge j 0) Hj).
    destruct (nth_error row (Z.to_nat j)) as [v |] eqn:Hv.
    + split; [| reflexivity]. intros _. exists row. split; [reflexivity |].
      apply nth_error_Some. rewrite Hv. discriminate.
    + split; [discriminate |]. intros (row' & E & Hlt). injection E as <-.
      apply nth_error_None in Hv. lia.
  - split; [discriminate | intros (row & E & _); discriminate].
Qed.

Lemma window_defined (worldMap : Grid) :
  forallb (fun i => forallb (definedAt worldMap i)
                      (indices WORLD_BLOCK_WIDTH))
    (indices WORLD_BLOCK_HEIGHT) = true
  <-> (16 <= length worldMap)%nat /\
      Forall (fun row => (32 <= length row)%nat) (firstn 16 worldMap).
Proof.
  rewrite forallb_forall. unfold WORLD_BLOCK_WIDTH, WORLD_BLOCK_HEIGHT. split.
  - intros H.
    assert (Hcell : forall i j, (0 <= i < 16)%Z -> (0 <= j < 32)%Z ->
                      definedAt worldMap i j = true).
    { intros i j Hi Hj. specialize (H i (proj2 (in_indices _ _) Hi)).
      rewrite forallb_forall in H. apply H, in_indices. exact Hj. }
    split.
    + assert (Hc := Hcell 15%Z 0%Z ltac:(lia) ltac:(lia)).
      apply cell_defined in Hc as (row & Hrow & _); [| lia | lia].
      assert (Hn : nth_error worldMap (Z.to_nat 15) <> None)
        by (rewrite Hrow; discriminate).
      apply nth_error_Some in Hn. lia.
    + apply Forall_forall. intros row Hin.
      apply In_nth_error in Hin as (k & Hk).
      assert (Hlt : (k < 16)%nat).
      { assert (Hn : nth_error (firstn 16 worldMap) k <> None)
          by (rewrite Hk; discriminate).
        apply nth_error_Some in Hn. rewrite length_firstn in Hn. lia. }
      rewrite nth_error_firstn in Hk.
      destruct (Nat.ltb_spec k 16) as [_ |]; [| lia].
      assert (Hc := Hcell (Z.of_nat k) 31%Z ltac:(lia) ltac:(lia)).
      apply cell_defined in Hc as (row' & Hrow' & Hlen); [| lia | lia].
      rewrite Nat2Z.id, Hk in Hrow'. injection Hrow' as <-. lia.
  - intros [Hrows Hcols] i Hi. apply in_indices in Hi.
    apply forallb_forall. intros j Hj. apply in_indices in Hj.
    apply cell_defined; [lia | lia |].
    destruct (nth_error worldMap (Z.to_nat i)) as [row |] eqn:Hrow.
    + exists row. split; [reflexivity |].
      rewrite Forall_forall in Hcols.
      assert (Hin : In row (firstn 16 worldMap)).
      { apply (nth_error_In _ (Z.to_nat i)). rewrite nth_error_firstn.
        destruct (Nat.ltb_spec (Z.to_nat i) 16) as [_ |]; [exact Hrow | lia]. }
      specialize (Hcols row Hin). lia.
    + apply nth_error_None in Hrow. lia.
Qed.

(** X18: [generateWalls] reads a window of sixteen rows of thirty-two
    cells whatever the size of the map: it has a result exactly when the
    map has at least sixteen rows and each of the first sixteen has at
    least thirty-two cells; on a smaller map it reads outside a vector. *)
Theorem generateWalls_needs_full_window (worldMap : Grid) :
  generateWalls worldMap <> None
  <-> (16 <= length worldMap)%nat /\
      Forall (fun row => (32 <= length row)%nat) (firstn 16 worldMap).
Proof.
  rewrite generateWalls_eq, <- window_defined.
  destruct (forallb _ (indices WORLD_BLOCK_HEIGHT)).
  - split; [reflexivity | discriminate].
  - split; [intros H; contradiction | discriminate].
Qed.

Lemma NoDup_map_injective {A B : Type} (f : A -> B) (l : list A) :
  (forall x y, In x l -> In y l -> f x = f y -> x = y) ->
  NoDup l -> NoDup (map f l).
Proof.
  intros Hinj Hl. induction Hl as [| x l Hx Hl IH]; cbn [map]; constructor.
  - intros Hin. apply in_map_iff in Hin as (y & Hy & Hin).
    apply Hx. rewrite (Hinj x y); auto; [left | right]; auto.
  - apply IH. intros a b Ha Hb. apply Hinj; right; assumption.
Qed.

Lemma indices_NoDup (n : Z) : NoDup (indices n).
Proof.
  unfold indices. apply NoDup_map_injective; [| apply seq_NoDup].
  intros x y _ _. apply Nat2Z.inj.
Qed.

Lemma cellWalls_In (worldMap : Grid) (i j : Z) (wall : RectangleShape) :
  In wall (cellWalls worldMap i j)
  <-> exists material,
        cell worldMap i j = Some material /\ material <> 0%Z /\
        wall = wallAt material i j.
Proof.
  unfold cellWalls. destruct (cell worldMap i j) as [material |].
  - destruct (nonzero material) eqn:Hm.
    + apply nonzero_true in Hm. split.
      * intros [<- | []]. exists material. auto.
      * intros (m & E & _ & ->). injection E as <-. left. reflexivity.
    + split; [intros [] |]. intros (m & E & Hn & _). injection E as <-.
      unfold nonzero in Hm. destruct (Z.eqb_spec material 0);
        [contradiction | discriminate].
  - split; [intros [] | intros (m & E & _); discriminate].
Qed.

Lemma wallAt_position (material i j material' i' j' : Z) :
  getPosition (wallAt material i j) = getPosition (wallAt material' i' j') ->
  i = i' /\ j = j'.
Proof.
  unfold wallAt, BLOCK_WIDTH. cbn [getPosition]. intros H.
  injection H as Hj Hi. split; apply eq_IZR; lra.
Qed.

Lemma rowWalls_positions (worldMap : Grid) (i : Z) (js : list Z) :
  NoDup js ->
  NoDup (map getPosition (flat_map (cellWalls worldMap i) js)).
Proof.
  intros Hjs. induction Hjs as [| j js Hj Hjs IH]; [constructor |].
  cbn [flat_map]. rewrite map_app. apply NoDup_app; [| exact IH |].
  - unfold cellWalls. destruct (cell worldMap i j) as [m |];
      [destruct (nonzero m) |]; cbn [map]; repeat constructor; intros [].
  - intros p Hp Hp'.
    apply in_map_iff in Hp as (w1 & <- & H1).
    apply in_map_iff in Hp' as (w2 & E & H2).
    apply cellWalls_In in H1 as (m1 & _ & _ & ->).
    apply in_flat_map in H2 as (j' & Hj' & H2).
    apply cellWalls_In in H2 as (m2 & _ & _ & ->).
    apply wallAt_position in E as [_ ->]. contradiction.
Qed.

Lemma windowWalls_positions (worldMap : Grid) (rows js : list Z) :
  NoDup rows -> NoDup js ->
  NoDup (map getPosition
           (flat_map (fun i => flat_map (cellWalls worldMap i) js) rows)).
Proof.
  intros Hrows Hjs. induction Hrows as [| i rows Hi Hrows IH]; [constructor |].
  cbn [flat_map]. rewrite map_app. apply NoDup_app; [| exact IH |].
  - apply rowWalls_positions. exact Hjs.
  - intros p Hp Hp'.
    apply in_map_iff in Hp as (w1 & <- & H1).
    apply in_map_iff in Hp' as (w2 & E & H2).
    apply in_flat_map in H1 as (j1 & _ & H1).
    apply cellWalls_In in H1 as (m1 & _ & _ & ->).
    apply in_flat_map in H2 as (i' & Hi' & H2).
    apply in_flat_map in H2 as (j2 & _ & H2).
    apply cellWalls_In in H2 as (m2 & _ & _ & ->).
    apply wallAt_position in E as [-> _]. contradiction.
Qed.

Lemma generateWalls_Some (worldMap : Grid) (walls : list RectangleShape) :
  generateWalls worldMap = Some walls ->
  walls = flat_map (fun i => flat_map (cellWalls worldMap i)
                               (indices WORLD_BLOCK_WIDTH))
            (indices WORLD_BLOCK_HEIGHT).
Proof.
  rewrite generateWalls_eq. destruct (forallb _ _); [| discriminate].
  intros H.
  apply (f_equal (fun o => match o with Some x => x | None => walls end)) in H.
  symmetry. exact H.
Qed.

Lemma generateWalls_In (worldMap : Grid) (walls : list RectangleShape)
    (wall : RectangleShape) :
  generateWalls worldMap = Some walls ->
  (In wall walls
   <-> exists i j material,
         (0 <= i < 16)%Z /\ (0 <= j < 32)%Z /\
         cell worldMap i j = Some material /\ material <> 0%Z /\
         wall = wallAt material i j).
Proof.
  intros H. apply generateWalls_Some in H. subst walls. split.
  - intros Hin. apply in_flat_map in Hin as (i & Hi & Hin). apply in_flat_map in Hin as (j & Hj & Hin).
    apply in_indices in Hi, Hj. apply cellWalls_In in Hin as (m & Hc & Hm & ->).
    exists i, j, m. auto.
  - intros (i & j & m & Hi & Hj & Hc & Hm & ->).
    apply in_flat_map. exists i. split; [apply in_indices; exact Hi |].
    apply in_flat_map. exists j. split; [apply in_indices; exact Hj |].
    apply cellWalls_In. exists m. auto.
Qed.

(** X19: the walls [generateWalls] returns are one block-sized rectangle
    for every occupied cell of the window and nothing else: the wall of
    the cell in row [i] and column [j] is at [(32 j, 32 i)], it is filled
    by the material's colour when the material is 1, 2 or 3, and no two
    walls are at the same position. *)
Theorem generateWalls_one_wall_per_occupied_cell (worldMap : Grid)
    (walls : list RectangleShape) :
  generateWalls worldMap = Some walls ->
  (forall wall,
      In wall walls
      <-> exists i j material,
            (0 <= i < 16)%Z /\ (0 <= j < 32)%Z /\
            cell worldMap i j = Some material /\ material <> 0%Z /\
            wall = mkRectangleShape (mkVec 32 32) (wallColor material)
                     (mkVec (32 * IZR j) (32 * IZR i))) /\
  NoDup (map getPosition walls).
Proof.
  intros H. split.
  - intros wall. apply generateWalls_In. exact H.
  - apply generateWalls_Some in H. subst walls.
    apply windowWalls_positions; apply indices_NoDup.
Qed.

Lemma hall_window :
  (16 <= length hall)%nat /\
  Forall (fun row => (32 <= length row)%nat) (firstn 16 hall).
Proof.
  split; [vm_compute; lia |].
  apply Forall_forall. intros row Hin. vm_compute in Hin.
  repeat (destruct Hin as [<- | Hin]; [vm_compute; lia |]). destruct Hin.
Qed.

Lemma hall_generateWalls : exists walls, generateWalls hall = Some walls.
Proof.
  pose proof (proj2 (window_defined hall) hall_window) as H.
  rewrite generateWalls_eq, H. eexists. reflexivity.
Qed.

Lemma generateWalls_one_wall_per_occupied_cell_witness :
  exists walls,
    generateWalls hall = Some walls /\
    (forall wall,
        In wall walls
        <-> exists i j material,
              (0 <= i < 16)%Z /\ (0 <= j < 32)%Z /\
              cell hall i j = Some material /\ material <> 0%Z /\
              wall = mkRectangleShape (mkVec 32 32) (wallColor material)
                       (mkVec (32 * IZR j) (32 * IZR i))) /\
    NoDup (map getPosition walls).
Proof.
  destruct hall_generateWalls as [walls H].
  exists walls. split; [exact H |].
  exact (generateWalls_one_wall_per_occupied_cell hall walls H).
Defined.

(** ** Struck positions and the walls drawn *)

(** A reported hit names the material of a cell that touches the position:
    the cell the position lies in, or a neighbour above or to the left
    across a grid line the position is on. *)
Lemma checkForHit_touch (xIndex yIndex : R) (hitDetail h : hitDetails)
    (worldMap : Grid) :
  checkForHit xIndex yIndex hitDetail worldMap = Some (true, h) ->
  exists dy dx,
    (dy = 0%Z \/ dy = (-1)%Z /\ onGridLine yIndex = true) /\
    (dx = 0%Z \/ dx = (-1)%Z /\ onGridLine xIndex = true) /\
    cell worldMap (Zfloor yIndex + dy) (Zfloor xIndex + dx) = Some (color h).
Proof.
  rewrite checkForHit_classifyHit. unfold classifyHit, report.
  destruct (onGridLine xIndex) eqn:Hgx, (onGridLine yIndex) eqn:Hgy;
    cbv beta iota delta [andb]; try discriminate.
  - destruct (to_int xIndex) as [x |] eqn:Hx; [| discriminate].
    destruct (to_int yIndex) as [y |] eqn:Hy; [| discriminate].
    apply (onGridLine_to_int _ _ Hgx) in Hx.
    apply (onGridLine_to_int _ _ Hgy) in Hy. subst x y.
    cbv beta iota delta [bind].
    destruct (firstNonzero _ _) as [[m |] |] eqn:Hf; try discriminate.
    intros H. injection H as <-.
    apply firstNonzero_found in Hf as (Hm & y & x & Hin & Hc).
    cbn [In] in Hin.
    destruct Hin as [E | [E | [E | [E | []]]]]; injection E as <- <-.
    + exists 0%Z, 0%Z. rewrite !Z.add_0_r. auto.
    + exists (-1)%Z, (-1)%Z. auto.
    + exists 0%Z, (-1)%Z. rewrite Z.add_0_r. auto.
    + exists (-1)%Z, 0%Z. rewrite Z.add_0_r. auto.
  - destruct (to_int xIndex) as [x |] eqn:Hx; [| discriminate].
    destruct (to_int (floor yIndex)) as [y |] eqn:Hy; [| discriminate].
    apply (onGridLine_to_int _ _ Hgx) in Hx.
    apply floor_to_int in Hy. subst x y.
    cbv beta iota delta [bind].
    destruct (firstNonzero _ _) as [[m |] |] eqn:Hf; try discriminate.
    intros H. injection H as <-.
    apply firstNonzero_found in Hf as (Hm & y & x & Hin & Hc).
    cbn [In] in Hin.
    destruct Hin as [E | [E | []]]; injection E as <- <-.
    + exists 0%Z, 0%Z. rewrite !Z.add_0_r. auto.
    + exists 0%Z, (-1)%Z. rewrite Z.add_0_r. auto.
  - destruct (to_int yIndex) as [y |] eqn:Hy; [| discriminate].
    destruct (to_int (floor xIndex)) as [x |] eqn:Hx; [| discriminate].
    apply (onGridLine_to_int _ _ Hgy) in Hy.
    apply floor_to_int in Hx. subst x y.
    cbv beta iota delta [bind].
    destruct (firstNonzero _ _) as [[m |] |] eqn:Hf; try discriminate.
    intros H. injection H as <-.
    apply firstNonzero_found in Hf as (Hm & y & x & Hin & Hc).
    cbn [In] in Hin.
    destruct Hin as [E | [E | []]]; injection E as <- <-.
    + exists 0%Z, 0%Z. rewrite !Z.add_0_r. auto.
    + exists (-1)%Z, 0%Z. rewrite Z.add_0_r. auto.
Qed.

Lemma touch_bounds (a d : Z) :
  (d = 0 \/ d = -1 /\ a mod 32 = 0)%Z ->
  (32 * (a / 32 + d) <= a <= 32 * (a / 32 + d) + 32)%Z /\
  ((a mod 32 = 0)%Z ->
   (a = 32 * (a / 32 + d) \/ a = 32 * (a / 32 + d) + 32)%Z).
Proof.
  intros Hd.
  pose proof (Z.div_mod a 32 ltac:(lia)) as Hdm.
  pose proof (Z.mod_pos_bound a 32 ltac:(lia)) as Hb.
  destruct Hd as [-> | [-> Hm]]; lia.
Qed.

(** The position a column stops at, in whole world units, with a cell
    that touches it and holds the recorded material. *)
Lemma castColumn_touch (fuel : nat) (c : Character) (screenWidth : Z)
    (worldMap : Grid) (i : Z) (hs : list hitDetails)
    (p : Vector2f) (h : hitDetails) :
  castColumn fuel c screenWidth worldMap i hs = Some (p, h) ->
  exists x y cx cy : Z,
    p = mkVec (IZR x) (IZR y) /\
    cell worldMap cy cx = Some (color h) /\ color h <> 0%Z /\
    (32 * cx <= x <= 32 * cx + 32)%Z /\ (32 * cy <= y <= 32 * cy + 32)%Z /\
    (x = 32 * cx \/ x = 32 * cx + 32 \/ y = 32 * cy \/ y = 32 * cy + 32)%Z.
Proof.
  intros Hcast.
  apply castColumn_result in Hcast
    as (_ & x & y & raw & recorded & -> & Hc & Hin & ->).
  apply inheritAlignment_color in Hin as [Hin _].
  change (color (set_distance recorded
                   (euclid (vx (center c)) (vy (center c)) (IZR x) (IZR y))))
    with (color recorded).
  rewrite Hin.
  pose proof (checkForHit_hit _ _ _ _ _ Hc) as (_ & Hm & Hline & _).
  apply checkForHit_touch in Hc as (dy & dx & Hdy & Hdx & Hcell).
  rewrite !onGridLine_div32 in Hline. rewrite onGridLine_div32 in Hdy.
  rewrite onGridLine_div32 in Hdx.
  rewrite !Zfloor_div32 in Hcell. rewrite Z.eqb_eq in Hdy, Hdx.
  destruct (touch_bounds x dx Hdx) as [Hbx Hox].
  destruct (touch_bounds y dy Hdy) as [Hby Hoy].
  exists x, y, (x / 32 + dx)%Z, (y / 32 + dy)%Z.
  split; [reflexivity |]. split; [exact Hcell |]. split; [exact Hm |].
  split; [exact Hbx |]. split; [exact Hby |].
  destruct Hline as [H | H]; apply Z.eqb_eq in H.
  - destruct (Hox H); auto.
  - destruct (Hoy H); auto.
Qed.

(** X20: the position every column records is on the outline of a cell
    that holds the recorded material, which is not zero: the position is
    within the cell's closed square and on one of its four edges. *)
Theorem calcRays_strikes_touch_material (fuel : nat) (c : Character)
    (screenWidth : Z) (worldMap : Grid)
    (rays : list Vector2f) (hs : list hitDetails)
    (i : nat) (p : Vector2f) (h : hitDetails) :
  calcRays fuel c screenWidth worldMap = Some (rays, hs) ->
  nth_error rays i = Some p -> nth_error hs i = Some h ->
  exists cx cy : Z,
    cell worldMap cy cx = Some (color h) /\ color h <> 0%Z /\
    32 * IZR cx <= vx p <= 32 * IZR cx + 32 /\
    32 * IZR cy <= vy p <= 32 * IZR cy + 32 /\
    (vx p = 32 * IZR cx \/ vx p = 32 * IZR cx + 32 \/
     vy p = 32 * IZR cy \/ vy p = 32 * IZR cy + 32).
Proof.
  intros Hcalc Hp Hh.
  destruct (calcRays_entry _ _ _ _ _ _ _ _ Hcalc Hp) as (h0 & Hh0 & Hcast).
  rewrite Hh in Hh0. injection Hh0 as <-.
  apply castColumn_touch in Hcast
    as (x & y & cx & cy & -> & Hcell & Hm & Hx & Hy & Hedge).
  exists cx, cy. cbn [vx vy].
  split; [exact Hcell |]. split; [exact Hm |].
  assert (E32 : forall a : Z, 32 * IZR a + 32 = IZR (32 * a + 32))
    by (intros a; rewrite plus_IZR, mult_IZR; reflexivity).
  assert (M32 : forall a : Z, 32 * IZR a = IZR (32 * a))
    by (intros a; rewrite mult_IZR; reflexivity).
  rewrite !E32, !M32.
  split; [split; apply IZR_le; lia |].
  split; [split; apply IZR_le; lia |].
  destruct Hedge as [-> | [-> | [-> | ->]]]; auto.
Qed.

Lemma calcRays_strikes_touch_material_witness :
  calcRays 1 viewer 2 ring3 = Some (scenarioRays, scenarioHits) /\
  nth_error scenarioRays 2 = Some (mkVec 32 64) /\
  nth_error scenarioHits 2 = Some (mkHit 16 1 vertical) /\
  exists cx cy : Z,
    cell ring3 cy cx = Some (color (mkHit 16 1 vertical)) /\
    color (mkHit 16 1 vertical) <> 0%Z /\
    32 * IZR cx <= vx (mkVec 32 64) <= 32 * IZR cx + 32 /\
    32 * IZR cy <= vy (mkVec 32 64) <= 32 * IZR cy + 32 /\
    (vx (mkVec 32 64) = 32 * IZR cx \/ vx (mkVec 32 64) = 32 * IZR cx + 32 \/
     vy (mkVec 32 64) = 32 * IZR cy \/ vy (mkVec 32 64) = 32 * IZR cy + 32).
Proof.
  split; [exact viewer_calcRays |].
  split; [reflexivity |]. split; [reflexivity |].
  exact (calcRays_strikes_touch_material 1 viewer 2 ring3
           scenarioRays scenarioHits 2 (mkVec 32 64) (mkHit 16 1 vertical)
           viewer_calcRays eq_refl eq_refl).
Defined.

Lemma castColumn_within_border (worldMap : Grid) (width height : Z)
    (fuel : nat) (c : Character) (screenWidth i : Z) (hs : list hitDetails)
    (p : Vector2f) (h : hitDetails) :
  closedGrid worldMap width height = true ->
  (32 * width <= INT_MAX)%Z -> (32 * height <= INT_MAX)%Z ->
  insideBorder c width height ->
  (0 <= i <= Z.of_nat (length hs))%Z ->
  castColumn fuel c screenWidth worldMap i hs = Some (p, h) ->
  exists x y : Z,
    p = mkVec (IZR x) (IZR y) /\
    (32 <= x <= 32 * (width - 1))%Z /\ (32 <= y <= 32 * (height - 1))%Z.
Proof.
  intros Hg Hw Hh (x0 & y0 & Hx0 & Hy0 & Hbx & Hby) Hcol Hcast.
  apply castColumn_traversal in Hcast
    as (x1 & y1 & t & Hx1 & Hy1 & Hwh & -> & _).
  rewrite Hx0 in Hx1. injection Hx1 as <-.
  rewrite Hy0 in Hy1. injection Hy1 as <-.
  pose proof (rayOf_wellDirected c (cameraXOf i screenWidth)) as Hdir.
  assert (Hin : inside 0 width height
                  (rayOf c (cameraXOf i screenWidth))
                  (mkTraversal x0 y0
                     (initialSideDist x0
                        (rayDirX (rayOf c (cameraXOf i screenWidth)))
                        (rayDeltaX (rayOf c (cameraXOf i screenWidth))))
                     (initialSideDist y0
                        (rayDirY (rayOf c (cameraXOf i screenWidth)))
                        (rayDeltaY (rayOf c (cameraXOf i screenWidth))))
                     defaultHit)).
  { destruct Hdir as [Hdx Hdy].
    split; cbn [mapX mapY sideDistX sideDistY];
      apply axisInv_initial; assumption. }
  destruct (whileNotHit_closed_bounds worldMap width height _ _ _ fuel
              Hg Hw Hh Hcol Hdir 0%Z _ t ltac:(lia) Hin Hwh) as [Htx Hty].
  exists (mapX t), (mapY t). auto.
Qed.

(** X21: in a map of the window's size with a solid border, for a
    viewpoint in a cell that is not a border cell, every ray the map
    window draws ends on a wall that [generateWalls] has made: the struck
    position is covered by the wall's rectangle, and the wall is filled
    with the colour of the material the column records. *)
Theorem calcRays_strikes_on_generated_walls (worldMap : Grid) (fuel : nat)
    (c : Character) (screenWidth : Z) (walls : list RectangleShape)
    (rays : list Vector2f) (hs : list hitDetails)
    (i : nat) (p : Vector2f) (h : hitDetails) :
  closedGrid worldMap WORLD_BLOCK_WIDTH WORLD_BLOCK_HEIGHT = true ->
  insideBorder c WORLD_BLOCK_WIDTH WORLD_BLOCK_HEIGHT ->
  generateWalls worldMap = Some walls ->
  calcRays fuel c screenWidth worldMap = Some (rays, hs) ->
  nth_error rays i = Some p -> nth_error hs i = Some h ->
  exists wall,
    In wall walls /\ covers wall (vx p) (vy p) /\
    getFillColor wall = wallColor (color h).
Proof.
  intros Hg Hc Hwalls Hcalc Hp Hh.
  destruct (calcRays_entry _ _ _ _ _ _ _ _ Hcalc Hp) as (h0 & Hh0 & Hcast).
  rewrite Hh in Hh0. injection Hh0 as <-.
  assert (Hlen : (i < length hs)%nat).
  { apply nth_error_Some. rewrite Hh. discriminate. }
  assert (Hcol : (0 <= Z.of_nat i <= Z.of_nat (length (firstn i hs)))%Z).
  { rewrite length_firstn. lia. }
  assert (Hfw : (32 * WORLD_BLOCK_WIDTH <= INT_MAX)%Z)
    by (unfold WORLD_BLOCK_WIDTH, INT_MAX; lia).
  assert (Hfh : (32 * WORLD_BLOCK_HEIGHT <= INT_MAX)%Z)
    by (unfold WORLD_BLOCK_HEIGHT, INT_MAX; lia).
  destruct (castColumn_within_border _ _ _ _ _ _ _ _ _ _
              Hg Hfw Hfh Hc Hcol Hcast) as (x' & y' & Ep & Hbx & Hby).
  apply castColumn_touch in Hcast
    as (x & y & cx & cy & -> & Hcell & Hm & Hx & Hy & _).
  injection Ep as Ex Ey. apply eq_IZR in Ex, Ey. subst x' y'.
  unfold WORLD_BLOCK_WIDTH in Hbx. unfold WORLD_BLOCK_HEIGHT in Hby.
  exists (wallAt (color h) cy cx). split; [| split].
  - apply (generateWalls_In _ _ _ Hwalls).
    exists cy, cx, (color h).
    split; [lia |]. split; [lia |]. auto.
  - unfold covers, wallAt, BLOCK_WIDTH. cbn [getPosition getSize vx vy].
    assert (E32 : forall a : Z, 32 * IZR a + 32 = IZR (32 * a + 32))
      by (intros a; rewrite plus_IZR, mult_IZR; reflexivity).
    assert (M32 : forall a : Z, 32 * IZR a = IZR (32 * a))
      by (intros a; rewrite mult_IZR; reflexivity).
    rewrite !E32, !M32. repeat split; apply IZR_le; lia.
  - reflexivity.
Qed.

Lemma hall_closed :
  closedGrid hall WORLD_BLOCK_WIDTH WORLD_BLOCK_HEIGHT = true.
Proof. vm_compute. reflexivity. Qed.

Lemma viewer_in_hall :
  insideBorder viewer WORLD_BLOCK_WIDTH WORLD_BLOCK_HEIGHT.
Proof.
  exists 32%Z, 48%Z.
  split; [apply (to_int_IZR 32), int_range_small; lia |].
  split; [apply (to_int_IZR 48), int_range_small; lia |].
  unfold WORLD_BLOCK_WIDTH, WORLD_BLOCK_HEIGHT. lia.
Qed.

(** With the vectors of the viewer, the rays of the 641 columns of the
    window have components [(i - 640) / 20] and [i / 20]. *)
Lemma facing_columnInRange (c : Character) (i : Z) :
  dirX c = -16 -> dirY c = 16 ->
  cameraPlaneX c = 16 -> cameraPlaneY c = 16 ->
  (0 <= i <= 640)%Z ->
  columnInRange c screenWidth i = true.
Proof.
  intros Hdx Hdy Hpx Hpy Hi.
  apply (columnInRange_twentieths c screenWidth i (i - 640) i); try lia;
    rewrite ?Hdx, ?Hdy, ?Hpx, ?Hpy; unfold cameraXOf, screenWidth;
    rewrite ?minus_IZR; lra.
Qed.

Lemma viewer_in_hall_calcRays :
  exists rays hs p h,
    calcRays (fuelFor WORLD_BLOCK_WIDTH WORLD_BLOCK_HEIGHT) viewer
      screenWidth hall = Some (rays, hs) /\
    nth_error rays 0 = Some p /\ nth_error hs 0 = Some h.
Proof.
  assert (Hfw : (32 * WORLD_BLOCK_WIDTH <= INT_MAX)%Z)
    by (unfold WORLD_BLOCK_WIDTH, INT_MAX; lia).
  assert (Hfh : (32 * WORLD_BLOCK_HEIGHT <= INT_MAX)%Z)
    by (unfold WORLD_BLOCK_HEIGHT, INT_MAX; lia).
  destruct (calcRays_prefix_closed hall _ _ viewer screenWidth
              (Z.to_nat (screenWidth + 1)) hall_closed Hfw Hfh
              viewer_in_hall ltac:(discriminate))
    as (rays & hs & Hfold & _).
  { intros k Hk. change (Z.to_nat (screenWidth + 1)) with 641%nat in Hk.
    apply facing_columnInRange; try reflexivity. lia. }
  assert (Hcalc : calcRays (fuelFor WORLD_BLOCK_WIDTH WORLD_BLOCK_HEIGHT)
                    viewer screenWidth hall = Some (rays, hs)) by exact Hfold.
  destruct (calcRays_columns _ _ _ _ _ _ Hcalc) as (_ & _ & Hall).
  destruct (Hall 0%nat) as (p & h & Hp & Hh & _).
  { unfold screenWidth. lia. }
  exists rays, hs, p, h. auto.
Qed.

Lemma calcRays_strikes_on_generated_walls_witness :
  exists walls rays hs p h,
    closedGrid hall WORLD_BLOCK_WIDTH WORLD_BLOCK_HEIGHT = true /\
    insideBorder viewer WORLD_BLOCK_WIDTH WORLD_BLOCK_HEIGHT /\
    generateWalls hall = Some walls /\
    calcRays (fuelFor WORLD_BLOCK_WIDTH WORLD_BLOCK_HEIGHT) viewer
      screenWidth hall = Some (rays, hs) /\
    nth_error rays 0 = Some p /\ nth_error hs 0 = Some h /\
    exists wall,
      In wall walls /\ covers wall (vx p) (vy p) /\
      getFillColor wall = wallColor (color h).
Proof.
  destruct hall_generateWalls as [walls Hwalls].
  destruct viewer_in_hall_calcRays as (rays & hs & p & h & Hcalc & Hp & Hh).
  exists walls, rays, hs, p, h.
  split; [exact hall_closed |]. split; [exact viewer_in_hall |].
  split; [exact Hwalls |]. split; [exact Hcalc |].
  split; [exact Hp |]. split; [exact Hh |].
  exact (calcRays_strikes_on_generated_walls hall _ viewer screenWidth walls
           rays hs 0 p h hall_closed viewer_in_hall Hwalls Hcalc Hp Hh).
Defined.

(** ** The columns of the 3-D window *)

Lemma drawColumn_Some (i : Z) (h : hitDetails) (col : RectangleShape) :
  drawColumn i h = Some col ->
  distance h <> 0 /\
  col = mkRectangleShape (mkVec 1 (15360 / distance h)) (columnColor h)
          (mkVec (IZR i) (240 - 7680 / distance h)).
Proof.
  unfold drawColumn, checkedDiv.
  destruct (Reqb_spec (distance h) 0) as [Hd | Hd];
    cbv beta iota zeta delta [bind]; [discriminate |].
  intros H. injection H as <-. split; [exact Hd |].
  unfold screenHeight, BLOCK_WIDTH. change (480 / 2)%Z with 240%Z.
  f_equal; f_equal; field; exact Hd.
Qed.

Lemma drawColumn_defined (i : Z) (h : hitDetails) :
  distance h <> 0 -> exists col, drawColumn i h = Some col.
Proof.
  intros Hd. unfold drawColumn, checkedDiv. rewrite Reqb_false by exact Hd.
  cbv beta iota zeta delta [bind]. eexists. reflexivity.
Qed.

Lemma pushDrawn_step (hs : list hitDetails) (drawn : list RectangleShape)
    (k : nat) :
  pushDrawn hs (Some drawn) (Z.of_nat k)
  = let? h := nth_error hs k in
    let? wall := drawColumn (Z.of_nat k) h in
    Some (drawn ++ [wall]).
Proof. unfold pushDrawn. rewrite Nat2Z.id. reflexivity. Qed.

(** What the loop has drawn after [n] iterations. *)
Lemma draw_prefix (hs : list hitDetails) (n : nat)
    (drawn : list RectangleShape) :
  fold_left (pushDrawn hs) (map Z.of_nat (seq 0 n)) (Some []) = Some drawn ->
  length drawn = n /\
  forall k, (k < n)%nat ->
    exists h col,
      nth_error hs k = Some h /\ drawColumn (Z.of_nat k) h = Some col /\
      nth_error drawn k = Some col.
Proof.
  revert drawn. induction n as [| n IH]; intros drawn.
  - cbn [seq map fold_left]. intros H. injection H as <-.
    split; [reflexivity | intros k Hk; lia].
  - rewrite seq_S, map_app, fold_left_app. cbn [map fold_left Nat.add].
    destruct (fold_left (pushDrawn hs) (map Z.of_nat (seq 0 n)) (Some []))
      as [drawn0 |]; [| discriminate].
    destruct (IH drawn0 eq_refl) as [Hlen Hcols].
    rewrite pushDrawn_step.
    destruct (nth_error hs n) as [h |] eqn:Hh; cbv beta iota delta [bind];
      [| discriminate].
    destruct (drawColumn (Z.of_nat n) h) as [col |] eqn:Hcol; [| discriminate].
    intros H. injection H as <-. split.
    + rewrite length_app, Hlen. cbn [length]. lia.
    + intros k Hk. destruct (Nat.eq_dec k n) as [-> | Hne].
      * exists h, col. split; [exact Hh |]. split; [exact Hcol |].
        rewrite nth_error_app2 by lia. rewrite Hlen, Nat.sub_diag.
        reflexivity.
      * destruct (Hcols k ltac:(lia)) as (h' & col' & Hh' & Hc' & Hn').
        exists h', col'. split; [exact Hh' |]. split; [exact Hc' |].
        rewrite nth_error_app1 by lia. exact Hn'.
Qed.

Lemma draw_prefix_defined (hs : list hitDetails) (n : nat) :
  (n <= length hs)%nat ->
  (forall h, In h hs -> distance h <> 0) ->
  exists drawn,
    fold_left (pushDrawn hs) (map Z.of_nat (seq 0 n)) (Some []) = Some drawn.
Proof.
  intros Hn Hd. induction n as [| n IH].
  - exists []. reflexivity.
  - destruct IH as [drawn0 H0]; [lia |].
    rewrite seq_S, map_app, fold_left_app, H0. cbn [map fold_left Nat.add].
    rewrite pushDrawn_step.
    destruct (nth_error hs n) as [h |] eqn:Hh.
    + cbv beta iota delta [bind].
      destruct (drawColumn_defined (Z.of_nat n) h) as [col ->].
      { apply Hd. apply (nth_error_In _ _ Hh). }
      eexists. reflexivity.
    + apply nth_error_None in Hh. lia.
Qed.

Lemma draw3DWindow_fold (c : Character) :
  draw3DWindow c
  = fold_left (pushDrawn (hits c))
      (map Z.of_nat (seq 0 (length (hits c)))) (Some []).
Proof. unfold draw3DWindow, indices. rewrite Nat2Z.id. reflexivity. Qed.

(** X22: [draw3DWindow] draws one rectangle per stored result, the one of
    result [k] one pixel wide at X coordinate [k]; its height times the
    recorded distance is [screenHeight * BLOCK_WIDTH], and it is centred
    on the horizontal middle line of the window. *)
Theorem draw3DWindow_one_centred_column_per_hit (c : Character)
    (drawn : list RectangleShape) :
  draw3DWindow c = Some drawn ->
  length drawn = length (hits c) /\
  forall (k : nat) (h : hitDetails) (col : RectangleShape),
    nth_error (hits c) k = Some h -> nth_error drawn k = Some col ->
    vx (getPosition col) = INR k /\ vx (getSize col) = 1 /\
    vy (getSize col) * distance h = IZR screenHeight * BLOCK_WIDTH /\
    vy (getPosition col) + vy (getSize col) / 2 = IZR screenHeight / 2 /\
    getFillColor col = columnColor h.
Proof.
  rewrite draw3DWindow_fold. intros H.
  apply draw_prefix in H as [Hlen Hcols]. split; [exact Hlen |].
  intros k h col Hh Hcol.
  assert (Hk : (k < length (hits c))%nat).
  { apply nth_error_Some. rewrite Hh. discriminate. }
  destruct (Hcols k Hk) as (h' & col' & Hh' & Hd & Hc').
  rewrite Hh in Hh'. injection Hh' as <-.
  rewrite Hcol in Hc'. injection Hc' as <-.
  apply drawColumn_Some in Hd as [Hnz ->].
  cbn [getPosition getSize getFillColor vx vy].
  unfold screenHeight, BLOCK_WIDTH.
  split; [symmetry; apply INR_IZR_INZ |]. split; [reflexivity |].
  split; [field; exact Hnz |]. split; [field; exact Hnz | reflexivity].
Qed.

Lemma draw3DWindow_one_centred_column_per_hit_witness :
  exists drawn,
    draw3DWindow (set_casts viewer [] [mkHit 16 1 vertical]) = Some drawn /\
    length drawn = length (hits (set_casts viewer [] [mkHit 16 1 vertical])) /\
    forall (k : nat) (h : hitDetails) (col : RectangleShape),
      nth_error (hits (set_casts viewer [] [mkHit 16 1 vertical])) k = Some h ->
      nth_error drawn k = Some col ->
      vx (getPosition col) = INR k /\ vx (getSize col) = 1 /\
      vy (getSize col) * distance h = IZR screenHeight * BLOCK_WIDTH /\
      vy (getPosition col) + vy (getSize col) / 2 = IZR screenHeight / 2 /\
      getFillColor col = columnColor h.
Proof.
  destruct (draw_prefix_defined [mkHit 16 1 vertical] 1 (le_n 1))
    as [drawn H].
  { intros h [<- | []]. cbn [distance]. lra. }
  assert (Hd : draw3DWindow (set_casts viewer [] [mkHit 16 1 vertical])
               = Some drawn).
  { rewrite draw3DWindow_fold. exact H. }
  exists drawn. split; [exact Hd |].
  exact (draw3DWindow_one_centred_column_per_hit _ drawn Hd).
Defined.

(** X24: perspective.  Of two results at positive distances the nearer is
    drawn at least as tall and starts at least as high; a wall exactly one
    block away fills the height of the window, and a nearer one is drawn
    taller than the window, starting above its top edge. *)
Theorem drawColumn_nearer_is_taller (i j : Z) (near far : hitDetails)
    (colNear colFar : RectangleShape) :
  0 < distance near <= distance far ->
  drawColumn i near = Some colNear -> drawColumn j far = Some colFar ->
  0 < vy (getSize colFar) <= vy (getSize colNear) /\
  vy (getPosition colNear) <= vy (getPosition colFar) /\
  (distance near = BLOCK_WIDTH ->
   vy (getSize colNear) = IZR screenHeight /\ vy (getPosition colNear) = 0) /\
  (distance near < BLOCK_WIDTH ->
   IZR screenHeight < vy (getSize colNear) /\ vy (getPosition colNear) < 0).
Proof.
  intros [Hn Hnf] Hnear Hfar.
  apply drawColumn_Some in Hnear as [_ ->].
  apply drawColumn_Some in Hfar as [_ ->].
  cbn [getPosition getSize vx vy]. unfold screenHeight, BLOCK_WIDTH.
  assert (Hf : 0 < distance far) by lra.
  assert (Hin : / distance far <= / distance near)
    by (apply Rinv_le_contravar; assumption).
  assert (Hpf : 0 < / distance far) by (apply Rinv_0_lt_compat; exact Hf).
  unfold Rdiv. repeat split.
  - nra.
  - nra.
  - nra.
  - rewrite H. field.
  - rewrite H. field.
  - assert (H32 : / 32 < / distance near)
      by (apply Rinv_lt_contravar; nra).
    lra.
  - assert (H32 : / 32 < / distance near)
      by (apply Rinv_lt_contravar; nra).
    lra.
Qed.

Lemma drawColumn_nearer_is_taller_witness :
  exists colNear colFar,
    0 < distance (mkHit 16 1 vertical) <= distance (mkHit 32 2 horizontal) /\
    drawColumn 0 (mkHit 16 1 vertical) = Some colNear /\
    drawColumn 1 (mkHit 32 2 horizontal) = Some colFar /\
    0 < vy (getSize colFar) <= vy (getSize colNear) /\
    vy (getPosition colNear) <= vy (getPosition colFar) /\
    (distance (mkHit 16 1 vertical) = BLOCK_WIDTH ->
     vy (getSize colNear) = IZR screenHeight /\
     vy (getPosition colNear) = 0) /\
    (distance (mkHit 16 1 vertical) < BLOCK_WIDTH ->
     IZR screenHeight < vy (getSize colNear) /\ vy (getPosition colNear) < 0).
Proof.
  assert (Hd : 0 < distance (mkHit 16 1 vertical)
               <= distance (mkHit 32 2 horizontal))
    by (cbn [distance]; lra).
  destruct (drawColumn_defined 0 (mkHit 16 1 vertical)) as [colNear Hn];
    [cbn [distance]; lra |].
  destruct (drawColumn_defined 1 (mkHit 32 2 horizontal)) as [colFar Hf];
    [cbn [distance]; lra |].
  exists colNear, colFar.
  split; [exact Hd |]. split; [exact Hn |]. split; [exact Hf |].
  exact (drawColumn_nearer_is_taller 0 1 _ _ colNear colFar Hd Hn Hf).
Defined.

(** X25: the column of a result is filled in the hue of the wall its
    material has in the map window ([generateWalls]): the same colour for
    a vertical result, and 25 darker in the one nonzero channel for any
    other orientation, horizontal or unknown; for a material other than 1,
    2 and 3 neither the wall nor the column is given a fill colour. *)
Theorem columnColor_matches_wallColor (h : hitDetails) :
  (alignment h = vertical -> columnColor h = wallColor (color h)) /\
  (alignment h <> vertical ->
   match wallColor (color h), columnColor h with
   | Some wall, Some col =>
       (red wall + green wall + blue wall = 175)%Z /\
       (red col + green col + blue col = 150)%Z /\
       (red col = 0 <-> red wall = 0)%Z /\
       (green col = 0 <-> green wall = 0)%Z /\
       (blue col = 0 <-> blue wall = 0)%Z
   | None, None => True
   | _, _ => False
   end) /\
  (wallColor (color h) = None <-> ~ (1 <= color h <= 3)%Z).
Proof.
  unfold columnColor, wallColor.
  destruct h as [d col a]. cbn [alignment color].
  split; [| split].
  - intros ->. cbn [Alignment_eqb].
    destruct col as [| [[| |] | [| |] |] |]; reflexivity.
  - intros Ha.
    assert (E : Alignment_eqb a vertical = false) by (destruct a; auto; contradiction).
    rewrite E.
    destruct col as [| [[| |] | [| |] |] |]; cbn [red green blue];
      try exact I; repeat split; try lia; try discriminate.
  - destruct col as [| [[| |] | [| |] |] |];
      (split; [try discriminate; intros _; lia | intros H; try reflexivity; exfalso; apply H; lia]).
Qed.

(** ** A whole frame *)

Lemma castColumn_distance_range (worldMap : Grid) (width height : Z)
    (fuel : nat) (c : Character) (screenWidth i : Z) (hs : list hitDetails)
    (p : Vector2f) (h : hitDetails) :
  closedGrid worldMap width height = true ->
  (32 * width <= INT_MAX)%Z -> (32 * height <= INT_MAX)%Z ->
  insideBorder c width height -> offGridLines c ->
  (0 <= i <= Z.of_nat (length hs))%Z ->
  castColumn fuel c screenWidth worldMap i hs = Some (p, h) ->
  0 < distance h <= 32 * (IZR width - 2) + 32 * (IZR height - 2).
Proof.
  intros Hg Hw Hh Hc Hoff Hcol Hcast.
  destruct (castColumn_within_border _ _ _ _ _ _ _ _ _ _
              Hg Hw Hh Hc Hcol Hcast) as (x & y & Ep & Hbx & Hby).
  pose proof (castColumn_valid _ _ _ _ _ _ _ _ Hcast) as (_ & _ & Hnn & Hz).
  pose proof (castColumn_touch _ _ _ _ _ _ _ _ Hcast)
    as (x' & y' & cx & cy & Ep' & _ & _ & _ & _ & Hedge).
  pose proof (castColumn_traversal _ _ _ _ _ _ _ _ Hcast)
    as (x1 & y1 & t & Hx1 & Hy1 & _ & Ept & Hdist).
  destruct Hc as (x0 & y0 & Hx0 & Hy0 & Hcx & Hcy).
  subst p. injection Ep' as Ex Ey. apply eq_IZR in Ex, Ey. subst x' y'.
  injection Ept as Ex Ey. rewrite <- Ex, <- Ey in Hdist.
  cbn [vx vy] in Hz. split.
  - destruct Hnn as [Hpos | Hzero]; [exact Hpos | exfalso].
    symmetry in Hzero. apply Hz in Hzero as [Hzx Hzy].
    assert (M32 : forall a : Z, IZR (32 * a) = 32 * IZR a)
      by (intros a; rewrite mult_IZR; reflexivity).
    assert (E32 : forall a : Z, IZR (32 * a + 32) = 32 * IZR (a + 1))
      by (intros a; rewrite !plus_IZR, mult_IZR; lra).
    destruct Hedge as [E | [E | [E | E]]].
    + apply (proj1 (Hoff cx)). rewrite <- Hzx, E. apply M32.
    + apply (proj1 (Hoff (cx + 1)%Z)). rewrite <- Hzx, E. apply E32.
    + apply (proj2 (Hoff cy)). rewrite <- Hzy, E. apply M32.
    + apply (proj2 (Hoff (cy + 1)%Z)). rewrite <- Hzy, E. apply E32.
  - rewrite Hdist.
    destruct (to_int_position _ _ Hx0 ltac:(lia)) as [Hcx1 Hcx2].
    destruct (to_int_position _ _ Hy0 ltac:(lia)) as [Hcy1 Hcy2].
    assert (Hx0R : 32 <= IZR x0 /\ IZR x0 + 1 <= 32 * (IZR width - 1)).
    { split; [apply (IZR_le 32); lia |].
      rewrite <- (plus_IZR x0 1), <- (minus_IZR width 1), <- (mult_IZR 32).
      apply IZR_le. lia. }
    assert (Hy0R : 32 <= IZR y0 /\ IZR y0 + 1 <= 32 * (IZR height - 1)).
    { split; [apply (IZR_le 32); lia |].
      rewrite <- (plus_IZR y0 1), <- (minus_IZR height 1), <- (mult_IZR 32).
      apply IZR_le. lia. }
    assert (HtxR : 32 <= IZR x <= 32 * (IZR width - 1)).
    { split; [apply (IZR_le 32); lia |].
      rewrite <- (minus_IZR width 1), <- (mult_IZR 32). apply IZR_le. lia. }
    assert (HtyR : 32 <= IZR y <= 32 * (IZR height - 1)).
    { split; [apply (IZR_le 32); lia |].
      rewrite <- (minus_IZR height 1), <- (mult_IZR 32). apply IZR_le. lia. }
    apply euclid_le; apply Rabs_le; lra.
Qed.

(** X26: a whole frame.  In a map of the window's size with a solid
    border, for a viewpoint in a cell that is not a border cell and on no
    grid line, whose 641 rays all stay within the range of [double], the
    ray casting of [draw2DWindow] returns and [draw3DWindow] then draws
    641 finite rectangles, each more than ten pixels tall; the last one is
    at X coordinate 640, the width of the window, one past its last pixel
    column. *)
Theorem frame_draws_every_column (worldMap : Grid) (c : Character) :
  closedGrid worldMap WORLD_BLOCK_WIDTH WORLD_BLOCK_HEIGHT = true ->
  insideBorder c WORLD_BLOCK_WIDTH WORLD_BLOCK_HEIGHT ->
  offGridLines c ->
  raysInRange c screenWidth = true ->
  exists c1 drawn,
    castFrame (fuelFor WORLD_BLOCK_WIDTH WORLD_BLOCK_HEIGHT) c worldMap
    = Some c1 /\
    draw3DWindow c1 = Some drawn /\
    length drawn = 641%nat /\
    (forall col, In col drawn -> 10 < vy (getSize col)) /\
    exists col, nth_error drawn 640 = Some col /\
                vx (getPosition col) = IZR screenWidth.
Proof.
  intros Hg Hc Hoff Hr.
  assert (Hfw : (32 * WORLD_BLOCK_WIDTH <= INT_MAX)%Z)
    by (unfold WORLD_BLOCK_WIDTH, INT_MAX; lia).
  assert (Hfh : (32 * WORLD_BLOCK_HEIGHT <= INT_MAX)%Z)
    by (unfold WORLD_BLOCK_HEIGHT, INT_MAX; lia).
  destruct (calcRays_prefix_closed worldMap _ _ c screenWidth
              (Z.to_nat (screenWidth + 1)) Hg Hfw Hfh Hc ltac:(discriminate)
              (fun k Hk => raysInRange_column c screenWidth k Hr Hk))
    as (rays & hs & Hfold & Hlen).
  assert (Hcalc : calcRays (fuelFor WORLD_BLOCK_WIDTH WORLD_BLOCK_HEIGHT)
                    c screenWidth worldMap = Some (rays, hs)) by exact Hfold.
  assert (Hlen' : length hs = 641%nat) by (rewrite Hlen; reflexivity).
  assert (Hrange : forall h, In h hs -> 0 < distance h <= 1408).
  { intros h Hin. apply In_nth_error in Hin as [k Hk].
    assert (Hlt : (k < length hs)%nat).
    { apply nth_error_Some. rewrite Hk. discriminate. }
    destruct (calcRays_columns _ _ _ _ _ _ Hcalc) as (_ & _ & Hall).
    destruct (Hall k ltac:(lia)) as (p & h' & _ & Hh' & Hcast).
    rewrite Hk in Hh'. injection Hh' as <-.
    assert (Hcol : (0 <= Z.of_nat k <= Z.of_nat (length (firstn k hs)))%Z).
    { rewrite length_firstn. lia. }
    pose proof (castColumn_distance_range _ _ _ _ _ _ _ _ _ _
                  Hg Hfw Hfh Hc Hoff Hcol Hcast) as Hd.
    unfold WORLD_BLOCK_WIDTH, WORLD_BLOCK_HEIGHT in Hd. lra. }
  exists (set_casts c rays hs).
  destruct (draw_prefix_defined hs (length hs) (le_n _)) as [drawn Hdrawn].
  { intros h Hin. destruct (Hrange h Hin). lra. }
  exists drawn.
  split; [unfold castFrame; rewrite Hcalc; reflexivity |].
  split; [rewrite draw3DWindow_fold; exact Hdrawn |].
  apply draw_prefix in Hdrawn as [Hld Hcols].
  split; [rewrite Hld; exact Hlen' |]. split.
  - intros col Hin. apply In_nth_error in Hin as [k Hk].
    assert (Hlt : (k < length hs)%nat).
    { rewrite <- Hld. apply nth_error_Some. rewrite Hk. discriminate. }
    destruct (Hcols k Hlt) as (h & col' & Hh & Hd & Hc').
    rewrite Hk in Hc'. injection Hc' as <-.
    apply drawColumn_Some in Hd as [_ ->]. cbn [getSize vy].
    destruct (Hrange h (nth_error_In _ _ Hh)) as [Hpos Hle].
    assert (Hinv : / 1408 <= / distance h)
      by (apply Rinv_le_contravar; assumption).
    unfold Rdiv. lra.
  - destruct (Hcols 640%nat ltac:(lia)) as (h & col & _ & Hd & Hn).
    exists col. split; [exact Hn |].
    apply drawColumn_Some in Hd as [_ ->]. reflexivity.
Qed.

Lemma walker_in_hall :
  insideBorder walker WORLD_BLOCK_WIDTH WORLD_BLOCK_HEIGHT.
Proof.
  exists 48%Z, 48%Z.
  split; [apply (to_int_IZR 48), int_range_small; lia |].
  split; [apply (to_int_IZR 48), int_range_small; lia |].
  unfold WORLD_BLOCK_WIDTH, WORLD_BLOCK_HEIGHT. lia.
Qed.

Lemma walker_offGridLines : offGridLines walker.
Proof.
  intros k. unfold walker, set_center. cbn [center vx vy].
  rewrite <- (mult_IZR 32 k). split; intros H; apply eq_IZR in H; lia.
Qed.

Lemma walker_raysInRange : raysInRange walker screenWidth = true.
Proof.
  apply raysInRange_intro. intros k Hk.
  change (Z.to_nat (screenWidth + 1)) with 641%nat in Hk.
  apply facing_columnInRange; try reflexivity. lia.
Qed.

Lemma frame_draws_every_column_witness :
  closedGrid hall WORLD_BLOCK_WIDTH WORLD_BLOCK_HEIGHT = true /\
  insideBorder walker WORLD_BLOCK_WIDTH WORLD_BLOCK_HEIGHT /\
  offGridLines walker /\
  raysInRange walker screenWidth = true /\
  exists c1 drawn,
    castFrame (fuelFor WORLD_BLOCK_WIDTH WORLD_BLOCK_HEIGHT) walker hall
    = Some c1 /\
    draw3DWindow c1 = Some drawn /\
    length drawn = 641%nat /\
    (forall col, In col drawn -> 10 < vy (getSize col)) /\
    exists col, nth_error drawn 640 = Some col /\
                vx (getPosition col) = IZR screenWidth.
Proof.
  split; [exact hall_closed |]. split; [exact walker_in_hall |].
  split; [exact walker_offGridLines |].
  split; [exact walker_raysInRange |].
  exact (frame_draws_every_column hall walker hall_closed walker_in_hall
           walker_offGridLines walker_raysInRange).
Defined.

(** ** The first frame of [main] *)

Lemma start_to_int :
  to_int (vx (center startCharacter)) = Some 16%Z /\
  to_int (vy (center startCharacter)) = Some 16%Z.
Proof.
  change (vx (center startCharacter)) with (0 + 16).
  change (vy (center startCharacter)) with (0 + 16).
  replace (0 + 16) with (IZR 16) by lra.
  split; apply to_int_IZR, int_range_small; lia.
Qed.

(** The ray of a column of the start character: the facing vector is
    (-16, 0) and the camera plane (0, 16). *)
Lemma start_rayOf (cameraX : R) :
  rayOf startCharacter cameraX
  = mkRay (-16) (16 * cameraX) (deltaDistX (-16) (16 * cameraX))
      (deltaDistY (-16) (16 * cameraX)).
Proof.
  unfold rayOf.
  change (dirX startCharacter) with (-16).
  change (dirY startCharacter) with 0.
  change (cameraPlaneX startCharacter) with 0.
  change (cameraPlaneY startCharacter) with 16.
  cbv zeta.
  replace (-16 + 0 * cameraX) with (-16) by ring.
  replace (0 + 16 * cameraX) with (16 * cameraX) by ring.
  reflexivity.
Qed.

Lemma start_cameraX (i : Z) :
  (0 <= i <= 640)%Z -> -16 <= 16 * cameraXOf i screenWidth <= 16.
Proof.
  intros [Hlo Hhi]. apply IZR_le in Hlo, Hhi.
  unfold cameraXOf, screenWidth. lra.
Qed.

Lemma start_hypoLength (ry : R) :
  -16 <= ry <= 16 -> 16 <= hypoLength (-16) ry <= 23.
Proof.
  intros Hry. unfold hypoLength.
  assert (Hsq : 0 <= ry * ry <= 256) by nra.
  split.
  - rewrite <- (sqrt_square 16) at 1 by lra. apply sqrt_le_1; lra.
  - rewrite <- (sqrt_square 23) by lra. apply sqrt_le_1; lra.
Qed.

Lemma start_deltaX (ry : R) :
  deltaDistX (-16) ry = -2 * hypoLength (-16) ry.
Proof.
  unfold deltaDistX, stepDistance, multiplier.
  rewrite Reqb_false, Rltb_true by lra.
  rewrite Rabs_left by lra. field.
Qed.

Lemma start_deltaY (ry : R) :
  -16 <= ry <= 16 ->
  Rabs (deltaDistX (-16) ry) <= Rabs (deltaDistY (-16) ry).
Proof.
  intros Hry. pose proof (start_hypoLength ry Hry) as Hh.
  rewrite start_deltaX. rewrite Rabs_left by lra.
  unfold deltaDistY, stepDistance, multiplier.
  destruct (Reqb_spec ry 0) as [-> | Hnz].
  - rewrite Rltb_false by lra. rewrite Rabs_right by (unfold SENTINEL; lra).
    unfold SENTINEL. lra.
  - assert (Hpos : 0 < Rabs ry) by (apply Rabs_pos_lt; exact Hnz).
    assert (Hle : Rabs ry <= 16) by (apply Rabs_le; lra).
    assert (Hinv : / 16 <= / Rabs ry)
      by (apply Rinv_le_contravar; assumption).
    assert (Hm : 2 * hypoLength (-16) ry
                 <= 32 / Rabs ry * hypoLength (-16) ry).
    { unfold Rdiv. nra. }
    destruct (Rltb_spec ry 0) as [Hneg | Hnn].
    + rewrite Rabs_left by nra. lra.
    + rewrite Rabs_right by nra. lra.
Qed.

Lemma initialSideDist_half (rayDir deltaDist : R) :
  initialSideDist 16 rayDir deltaDist = / 2 * deltaDist.
Proof.
  unfold initialSideDist. change (Z.rem 16 32) with 16%Z.
  destruct (Rltb rayDir 0); field.
Qed.

Lemma start_advanceX (ry : R) :
  -16 <= ry <= 16 ->
  advance 16 (/ 2 * deltaDistX (-16) ry) (deltaDistX (-16) ry) = Some 0%Z.
Proof.
  intros Hry. pose proof (start_hypoLength ry Hry) as Hh.
  assert (Hneg : deltaDistX (-16) ry < 0) by (rewrite start_deltaX; lra).
  assert (Hs : stepSign (deltaDistX (-16) ry) = (-1)%Z).
  { unfold stepSign. rewrite Rltb_false by lra. reflexivity. }
  rewrite (advance_eval 16 _ _ 16).
  - rewrite Hs. reflexivity.
  - replace (/ 2 * deltaDistX (-16) ry / deltaDistX (-16) ry * 32)
      with 16 by (field; lra).
    rewrite Rabs_right by lra. lra.
  - rewrite Hs. apply int_range_small. lia.
Qed.

Lemma start_advanceY (ry : R) :
  -16 <= ry <= 16 ->
  exists y : Z,
    (0 <= y <= 32)%Z /\
    advance 16 (/ 2 * deltaDistX (-16) ry) (deltaDistY (-16) ry) = Some y /\
    (ry = -16 -> y = 0%Z).
Proof.
  intros Hry.
  destruct (Req_dec_T ry (-16)) as [-> | Hne].
  - exists 0%Z. split; [lia |]. split; [| reflexivity].
    change (deltaDistY (-16) (-16)) with (deltaDistX (-16) (-16)).
    apply start_advanceX. lra.
  - pose proof (deltaDistY_sign (-16) ry) as (Hnz & Hsn & Hsp).
    destruct (advance_within 16 (/ 2 * deltaDistX (-16) ry)
                (deltaDistY (-16) ry) 16 Hnz ltac:(lia))
      as (n & Hn & Hadv & _).
    { pose proof (start_deltaY ry Hry) as Hle.
      rewrite Rabs_mult, (Rabs_right (/ 2)) by lra. lra. }
    assert (Hsign : stepSign (deltaDistY (-16) ry) = 1%Z
                    \/ stepSign (deltaDistY (-16) ry) = (-1)%Z).
    { unfold stepSign. destruct (Rltb 0 (deltaDistY (-16) ry)); auto. }
    exists (16 + stepSign (deltaDistY (-16) ry) * n)%Z.
    split; [destruct Hsign as [-> | ->]; lia |].
    split; [| intros E; contradiction].
    rewrite Hadv. apply to_int_plus, int_range_small.
    destruct Hsign as [-> | ->]; lia.
Qed.

Lemma nonzero_of_neq (v : Z) : v <> 0%Z -> nonzero v = true.
Proof.
  intros Hv. unfold nonzero. apply Z.eqb_neq in Hv. rewrite Hv. reflexivity.
Qed.

(** On the left edge between Y = 0 and Y = 32 the classification reads the
    cell of row 0 and column 0, and at Y = 32 the one of row 1. *)
Lemma start_classify (worldMap : Grid) (m0 m1 y : Z) :
  cell worldMap 0 0 = Some m0 -> m0 <> 0%Z ->
  cell worldMap 1 0 = Some m1 -> m1 <> 0%Z ->
  (0 <= y <= 32)%Z ->
  exists raw,
    classifyAt 0 y defaultHit worldMap = Some (true, raw) /\
    (color raw = m0 \/ color raw = m1).
Proof.
  intros H0 Hm0 H1 Hm1 Hy. unfold classifyAt.
  change (0 mod 32 =? 0)%Z with true. change (0 / 32)%Z with 0%Z.
  cbv beta iota zeta delta [andb].
  pose proof (Z.div_mod y 32 ltac:(lia)) as Hdm.
  pose proof (Z.mod_pos_bound y 32 ltac:(lia)) as Hb.
  destruct (Z.eqb_spec (y mod 32) 0) as [Hmod | Hmod].
  - assert (Hq : (y / 32 = 0 \/ y / 32 = 1)%Z) by lia.
    destruct Hq as [-> | ->]; cbn [firstNonzero].
    + rewrite H0. cbv beta iota delta [bind].
      rewrite (nonzero_of_neq _ Hm0). cbv beta iota delta [bind report].
      eexists. split; [reflexivity | left; reflexivity].
    + rewrite H1. cbv beta iota delta [bind].
      rewrite (nonzero_of_neq _ Hm1). cbv beta iota delta [bind report].
      eexists. split; [reflexivity | right; reflexivity].
  - assert (Hq : (y / 32 = 0)%Z) by lia.
    rewrite Hq. cbn [firstNonzero]. rewrite H0. cbv beta iota delta [bind].
    rewrite (nonzero_of_neq _ Hm0). cbv beta iota delta [bind report].
    eexists. split; [reflexivity | left; reflexivity].
Qed.

(** At the corner (0, 0) the classification needs the cell of row 0 and
    column 0 occupied: otherwise it goes on to row -1. *)
Lemma start_classify_empty (worldMap : Grid) :
  (forall m, cell worldMap 0 0 = Some m -> m = 0%Z) ->
  classifyAt 0 0 defaultHit worldMap = None.
Proof.
  intros H. unfold classifyAt.
  change (0 mod 32 =? 0)%Z with true. change (0 / 32)%Z with 0%Z.
  cbv beta iota zeta delta [andb]. cbn [firstNonzero].
  destruct (cell worldMap 0 0) as [m |] eqn:Hc; [| reflexivity].
  rewrite (H m eq_refl). cbv beta iota delta [bind].
  change (nonzero 0) with false. cbv beta iota.
  change (cell worldMap (0 - 1) (0 - 1)) with (@None Z). reflexivity.
Qed.

Lemma start_initial (i : Z) :
  let r := rayOf startCharacter (cameraXOf i screenWidth) in
  mkTraversal 16 16
    (initialSideDist 16 (rayDirX r) (rayDeltaX r))
    (initialSideDist 16 (rayDirY r) (rayDeltaY r)) defaultHit
  = mkTraversal 16 16
      (/ 2 * deltaDistX (-16) (16 * cameraXOf i screenWidth))
      (/ 2 * deltaDistY (-16) (16 * cameraXOf i screenWidth)) defaultHit.
Proof.
  cbv zeta. rewrite start_rayOf.
  cbv beta iota delta [rayDirX rayDirY rayDeltaX rayDeltaY].
  rewrite !initialSideDist_half. reflexivity.
Qed.

Lemma start_adjustment (ry : R) :
  -16 <= ry <= 16 ->
  (if Rleb (Rabs (/ 2 * deltaDistX (-16) ry))
        (Rabs (/ 2 * deltaDistY (-16) ry))
   then / 2 * deltaDistX (-16) ry else / 2 * deltaDistY (-16) ry)
  = / 2 * deltaDistX (-16) ry.
Proof.
  intros Hry. pose proof (start_deltaY ry Hry) as Hle.
  rewrite Rleb_true; [reflexivity |].
  rewrite !Rabs_mult, (Rabs_right (/ 2)) by lra. lra.
Qed.

(** The rays of the first frame have the components [-16] and
    [(i - 320) / 20]: all are in range. *)
Lemma start_columnInRange (i : Z) :
  (0 <= i <= 640)%Z -> columnInRange startCharacter screenWidth i = true.
Proof.
  intros Hi.
  apply (columnInRange_twentieths startCharacter screenWidth i
           (-320) (i - 320)); try lia.
  - change (dirX startCharacter) with (-16).
    change (cameraPlaneX startCharacter) with 0. lra.
  - change (dirY startCharacter) with 0.
    change (cameraPlaneY startCharacter) with 16.
    unfold cameraXOf, screenWidth. rewrite minus_IZR. lra.
Qed.

(** A column of the first frame, when the cells of rows 0 and 1 in
    column 0 are occupied: one iteration, ending on the left edge. *)
Lemma start_column (worldMap : Grid) (m0 m1 : Z) (fuel : nat) (i : Z)
    (hs : list hitDetails) :
  cell worldMap 0 0 = Some m0 -> m0 <> 0%Z ->
  cell worldMap 1 0 = Some m1 -> m1 <> 0%Z ->
  (0 <= i <= 640)%Z -> (i <= Z.of_nat (length hs))%Z ->
  exists (y : Z) (h : hitDetails),
    castColumn (S fuel) startCharacter screenWidth worldMap i hs
    = Some (mkVec (IZR 0) (IZR y), h) /\
    (0 <= y <= 32)%Z /\ (color h = m0 \/ color h = m1) /\
    distance h = euclid 16 16 0 (IZR y).
Proof.
  intros H0 Hm0 H1 Hm1 Hi Hlen.
  pose proof (start_cameraX i Hi) as Hry.
  set (ry := 16 * cameraXOf i screenWidth) in *.
  destruct (start_advanceY ry Hry) as (y & Hy & Hadv & _).
  destruct (start_classify worldMap m0 m1 y H0 Hm0 H1 Hm1 Hy)
    as (raw & Hraw & Hcolor).
  assert (Hin : exists recorded,
             inheritAlignment i hs raw = Some recorded /\
             color recorded = color raw).
  { destruct (inheritAlignment i hs raw) as [recorded |] eqn:E.
    - exists recorded. split; [reflexivity |].
      apply (inheritAlignment_color _ _ _ _ E).
    - exfalso. unfold inheritAlignment in E.
      destruct (negb (i =? 0)%Z && Alignment_eqb (alignment raw) unknown)
        eqn:Hc; [| discriminate].
      apply andb_prop in Hc as [Hi0 _].
      apply negb_true_iff, Z.eqb_neq in Hi0.
      destruct (nth_error hs (Z.to_nat (i - 1))) eqn:Hn;
        [discriminate |].
      apply nth_error_None in Hn. lia. }
  destruct Hin as (recorded & Hrec & Hcr).
  destruct start_to_int as [Hx0 Hy0].
  pose proof (castColumn_first_hit fuel startCharacter screenWidth worldMap
                i hs 16 16
                (mkTraversal 0 y
                   (calcNewDistance 0 (-16) (deltaDistX (-16) ry))
                   (calcNewDistance y ry (deltaDistY (-16) ry)) recorded)
                ltac:(discriminate) Hx0 Hy0 (start_columnInRange i Hi))
    as Hcast.
  exists y, (set_distance recorded (euclid 16 16 0 (IZR y))).
  split; [| split; [exact Hy | split]].
  - rewrite Hcast.
    + cbv beta iota delta [mapX mapY temp].
      change (vx (center startCharacter)) with (0 + 16).
      change (vy (center startCharacter)) with (0 + 16).
      replace (0 + 16) with 16 by lra. reflexivity.
    + cbv zeta. rewrite start_initial. rewrite start_rayOf. fold ry.
      change (calcNewDistance 0 (-16) (deltaDistX (-16) ry))
        with (calcNewDistance 0
                (rayDirX (mkRay (-16) ry (deltaDistX (-16) ry)
                            (deltaDistY (-16) ry)))
                (rayDeltaX (mkRay (-16) ry (deltaDistX (-16) ry)
                              (deltaDistY (-16) ry)))).
      change (calcNewDistance y ry (deltaDistY (-16) ry))
        with (calcNewDistance y
                (rayDirY (mkRay (-16) ry (deltaDistX (-16) ry)
                            (deltaDistY (-16) ry)))
                (rayDeltaY (mkRay (-16) ry (deltaDistX (-16) ry)
                              (deltaDistY (-16) ry)))).
      apply loopBody_eval with (adj := / 2 * deltaDistX (-16) ry)
                               (raw := raw).
      * cbv beta iota delta [sideDistX sideDistY].
        apply start_adjustment. exact Hry.
      * cbv beta iota delta [mapX rayDeltaX]. apply start_advanceX. exact Hry.
      * cbv beta iota delta [mapY rayDeltaY]. exact Hadv.
      * cbv beta iota delta [temp].
        rewrite checkForHit_at by (apply int_range_small; lia). exact Hraw.
      * exact Hrec.
  - change (color (set_distance recorded (euclid 16 16 0 (IZR y))))
      with (color recorded).
    rewrite Hcr. exact Hcolor.
  - reflexivity.
Qed.

Lemma start_column0_fails (worldMap : Grid) (fuel : nat)
    (hs : list hitDetails) :
  (forall m, cell worldMap 0 0 = Some m -> m = 0%Z) ->
  castColumn fuel startCharacter screenWidth worldMap 0 hs = None.
Proof.
  intros Hempty. unfold castColumn.
  change (screenWidth =? 0)%Z with false. cbv beta iota.
  destruct start_to_int as [-> ->]. cbv beta iota zeta delta [bind].
  pose proof (start_columnInRange 0 ltac:(lia)) as Hr.
  unfold columnInRange in Hr. cbv zeta in Hr. rewrite Hr.
  destruct fuel as [| fuel]; [reflexivity |].
  cbv beta iota delta [whileNotHit]. fold whileNotHit.
  pose proof (start_initial 0) as Hinit. cbv zeta in Hinit. rewrite Hinit.
  rewrite start_rayOf.
  assert (Hc : 16 * cameraXOf 0 screenWidth = -16)
    by (unfold cameraXOf, screenWidth; lra).
  rewrite Hc.
  rewrite (loopBody_outside worldMap 0 hs _ _
             (/ 2 * deltaDistX (-16) (-16)) 0 0); [reflexivity | | | |].
  - cbv beta iota delta [sideDistX sideDistY]. apply start_adjustment. lra.
  - cbv beta iota delta [mapX rayDeltaX]. apply start_advanceX. lra.
  - cbv beta iota delta [mapY rayDeltaY].
    change (deltaDistY (-16) (-16)) with (deltaDistX (-16) (-16)).
    apply start_advanceX. lra.
  - cbv beta iota delta [temp].
    rewrite checkForHit_at by (apply int_range_small; lia).
    apply start_classify_empty. exact Hempty.
Qed.

(** X27: the first frame of [main] needs a wall in the top left cell.  The
    character [main] creates stands at (16, 16) and faces left; its first
    column steps to the corner (0, 0), where [checkForHit] consults
    [worldMap[0][0]] first.  When that cell is empty or missing, the next
    cell read is [worldMap[-1][-1]]: the frame has no result, whatever the
    rest of the map holds. *)
Theorem first_frame_needs_wall_at_origin (worldMap : Grid) (fuel : nat) :
  (forall m, cell worldMap 0 0 = Some m -> m = 0%Z) ->
  castFrame fuel (pollEvents startCharacter []) worldMap = None.
Proof.
  intros Hempty. change (pollEvents startCharacter []) with startCharacter.
  unfold castFrame, calcRays.
  assert (Hcols : columns screenWidth = 0%Z :: map Z.of_nat (seq 1 640))
    by reflexivity.
  rewrite Hcols. cbn [fold_left]. unfold pushColumn at 2.
  cbv beta iota delta [bind].
  rewrite (start_column0_fails worldMap fuel [] Hempty).
  rewrite pushColumn_none. reflexivity.
Qed.

Lemma first_frame_needs_wall_at_origin_witness :
  (forall m, cell open3 0 0 = Some m -> m = 0%Z) /\
  castFrame 1 (pollEvents startCharacter []) open3 = None.
Proof.
  assert (H : forall m, cell open3 0 0 = Some m -> m = 0%Z).
  { intros m E. injection E as <-. reflexivity. }
  split; [exact H |].
  exact (first_frame_needs_wall_at_origin open3 1 H).
Defined.

Lemma start_prefix (worldMap : Grid) (m0 m1 : Z) (n : nat) :
  cell worldMap 0 0 = Some m0 -> m0 <> 0%Z ->
  cell worldMap 1 0 = Some m1 -> m1 <> 0%Z ->
  (n <= 641)%nat ->
  exists rays hs,
    fold_left (pushColumn 1 startCharacter screenWidth worldMap)
      (map Z.of_nat (seq 0 n)) (Some ([], [])) = Some (rays, hs) /\
    length hs = n.
Proof.
  intros H0 Hm0 H1 Hm1. induction n as [| n IH]; intros Hn.
  - exists [], []. split; reflexivity.
  - destruct IH as (rays & hs & Hfold & Hlen); [lia |].
    rewrite seq_S, map_app, fold_left_app, Hfold. cbn [map fold_left Nat.add].
    unfold pushColumn. cbv beta iota delta [bind].
    destruct (start_column worldMap m0 m1 0 (Z.of_nat n) hs H0 Hm0 H1 Hm1
                ltac:(lia) ltac:(lia)) as (y & h & -> & _).
    eexists _, _. split; [reflexivity |].
    rewrite length_app, Hlen. cbn [length]. lia.
Qed.

Lemma start_distance (y : Z) :
  (0 <= y <= 32)%Z -> 16 <= euclid 16 16 0 (IZR y) <= 23.
Proof.
  intros [Hlo Hhi]. apply IZR_le in Hlo, Hhi. unfold euclid.
  set (s := 16 - IZR y). assert (Hs : -16 <= s <= 16) by (unfold s; lra).
  assert (Hsq : 0 <= s * s <= 256) by nra.
  split.
  - rewrite <- (sqrt_square 16) at 1 by lra. apply sqrt_le_1; lra.
  - rewrite <- (sqrt_square 23) by lra. apply sqrt_le_1; lra.
Qed.

(** X28: the first frame of [main] on a map whose cells in column 0 of
    rows 0 and 1 are occupied.  Every one of the 641 columns ends after one
    iteration on the left edge of the map, at X = 0 and Y between 0 and
    32, at a distance between 16 and 23, with the material of one of the
    two cells: no other cell of the map is looked at, and a larger
    iteration bound gives the same frame. *)
Theorem first_frame_strikes_left_edge (worldMap : Grid) (m0 m1 : Z) :
  cell worldMap 0 0 = Some m0 -> m0 <> 0%Z ->
  cell worldMap 1 0 = Some m1 -> m1 <> 0%Z ->
  exists c1,
    (forall extra,
        castFrame (1 + extra) (pollEvents startCharacter []) worldMap
        = Some c1) /\
    length (hits c1) = 641%nat /\
    forall (k : nat) (p : Vector2f) (h : hitDetails),
      nth_error (rayCasts c1) k = Some p -> nth_error (hits c1) k = Some h ->
      vx p = 0 /\ 0 <= vy p <= 32 /\ 16 <= distance h <= 23 /\
      (color h = m0 \/ color h = m1).
Proof.
  intros H0 Hm0 H1 Hm1. change (pollEvents startCharacter []) with startCharacter.
  destruct (start_prefix worldMap m0 m1 641 H0 Hm0 H1 Hm1 (le_n _))
    as (rays & hs & Hfold & Hlen).
  assert (Hcalc : calcRays 1 startCharacter screenWidth worldMap
                  = Some (rays, hs)) by exact Hfold.
  exists (set_casts startCharacter rays hs). split; [| split].
  - intros extra. unfold castFrame.
    rewrite (calcRays_more_fuel 1 extra _ _ _ _ Hcalc). reflexivity.
  - exact Hlen.
  - change (rayCasts (set_casts startCharacter rays hs)) with rays.
    change (hits (set_casts startCharacter rays hs)) with hs.
    intros k p h Hp Hh.
    destruct (calcRays_entry _ _ _ _ _ _ _ _ Hcalc Hp) as (h' & Hh' & Hcast).
    rewrite Hh in Hh'. injection Hh' as <-.
    assert (Hk : (k < 641)%nat).
    { rewrite <- Hlen. apply nth_error_Some. rewrite Hh. discriminate. }
    destruct (start_column worldMap m0 m1 0 (Z.of_nat k) (firstn k hs)
                H0 Hm0 H1 Hm1 ltac:(lia))
      as (y & h' & Hcol & Hy & Hcolor & Hdist).
    { rewrite length_firstn. lia. }
    rewrite Hcast in Hcol. injection Hcol as -> ->.
    cbn [vx vy]. split; [reflexivity |].
    split; [split; [apply (IZR_le 0) | apply (IZR_le _ 32)]; lia |].
    split; [rewrite Hdist; apply start_distance; exact Hy | exact Hcolor].
Qed.

Lemma first_frame_strikes_left_edge_witness :
  cell ring3 0 0 = Some 1%Z /\ 1%Z <> 0%Z /\
  cell ring3 1 0 = Some 1%Z /\
  exists c1,
    (forall extra,
        castFrame (1 + extra) (pollEvents startCharacter []) ring3
        = Some c1) /\
    length (hits c1) = 641%nat /\
    forall (k : nat) (p : Vector2f) (h : hitDetails),
      nth_error (rayCasts c1) k = Some p -> nth_error (hits c1) k = Some h ->
      vx p = 0 /\ 0 <= vy p <= 32 /\ 16 <= distance h <= 23 /\
      (color h = 1%Z \/ color h = 1%Z).
Proof.
  assert (Hm : 1%Z <> 0%Z) by discriminate.
  split; [reflexivity |]. split; [exact Hm |]. split; [reflexivity |].
  exact (first_frame_strikes_left_edge ring3 1 1 eq_refl Hm eq_refl Hm).
Defined.
